(** * POITracker: risk calculator front end, position management panel

    A shallow embedding of the TypeScript sources of the trade planner
    (calculator page, execute button, post-order panel, MT5 API client and
    input form) together with the properties of the position-management
    subsystem that the specification states about them.

    Conventions of the embedding.
    - A JavaScript [number] is a value of a type [num] carrying the
      operations of the interface [Number].  The program's arithmetic is
      the instance of the kernel's binary64 floats, whose operations
      [SpecFloat] specifies; statements about the program's numbers are
      proved for every instance or for that instance.  The instance of the
      exact rationals [Q] serves where the code only compares and copies
      numbers, and to tell what rounding changes.
    - Integers that the code only compares or subtracts (tickets, epoch
      milliseconds, the digits of a price) are [Z].
    - [T | null] and optional fields are [option T].
    - Asynchronous handlers are programs of the freer monad [Prog] over the
      events they raise (HTTP posts, state setters, callbacks). *)

From Stdlib Require Import ZArith QArith Qround Qabs Qpower Lqa Lia List String Ascii Bool.
From Stdlib Require Import Sorted.
From Stdlib Require Floats.PrimFloat Floats.FloatOps Floats.SpecFloat Floats.FloatAxioms.
From stdpp Require Import gmap pretty.

Set Warnings "-inexact-float".
Local Open Scope string_scope.
Local Open Scope Z_scope.

(** ** JavaScript numbers *)

Declare Scope num_scope.
Delimit Scope num_scope with num.

(** The operations on numbers that the modelled code uses. [of_Q] reads a
    decimal literal; [nfloor] is [Math.floor], [nround] is [Math.round] and
    [npow10 d] is [Math.pow(10, d)]. *)
Class Number (num : Type) : Type := {
  of_Q : Q -> num;
  nadd : num -> num -> num;
  nsub : num -> num -> num;
  nmul : num -> num -> num;
  ndiv : num -> num -> num;
  nfloor : num -> num;
  nround : num -> num;
  npow10 : Z -> num;
  nltb : num -> num -> bool;
  nleb : num -> num -> bool
}.

Infix "+" := nadd : num_scope.
Infix "-" := nsub : num_scope.
Infix "*" := nmul : num_scope.
Infix "/" := ndiv : num_scope.
Notation "x <? y" := (nltb x y) : num_scope.
Notation "x <=? y" := (nleb x y) : num_scope.
Notation "x >? y" := (nltb y x) : num_scope.
Notation "x >=? y" := (nleb y x) : num_scope.

(** [ToBoolean] on a number: [0] and [NaN] are falsy. *)
Definition truthy {num} `{Number num} (x : num) : bool :=
  (x <? of_Q 0)%num || (of_Q 0 <? x)%num.

(** Exact arithmetic. *)
#[export] Instance Q_Number : Number Q := {
  of_Q q := q;
  nadd := Qplus;
  nsub := Qminus;
  nmul := Qmult;
  ndiv := Qdiv;
  nfloor x := inject_Z (Qfloor x);
  nround x := inject_Z (Qfloor (x + (1 # 2)));
  npow10 d := Qpower (inject_Z 10) d;
  nltb x y := negb (Qle_bool y x);
  nleb := Qle_bool
}.

(** Binary64 arithmetic. Integers are converted with the correctly rounded
    [binary_normalize]; a literal [p/q] is the correctly rounded quotient of
    its numerator and denominator (exact for both below [2^53]). *)
Definition float_of_Z (z : Z) : PrimFloat.float :=
  FloatOps.SF2Prim (SpecFloat.binary_normalize FloatOps.prec FloatOps.emax z 0 false).

(** The largest integer not above [x]; infinities, NaN, zeros and floats
    without fractional bits are returned unchanged. *)
Definition float_floor (x : PrimFloat.float) : PrimFloat.float :=
  match FloatOps.Prim2SF x with
  | SpecFloat.S754_finite s m e =>
      if 0 <=? e then x
      else float_of_Z ((if s then Z.neg m else Z.pos m) / 2 ^ (- e))
  | _ => x
  end.

(** [Math.round]: the integer nearest to [x], ties towards [+∞]. A negative
    [x] that rounds to zero gives [+0] where JavaScript gives [-0]; the two
    compare equal. *)
Definition float_round (x : PrimFloat.float) : PrimFloat.float :=
  match FloatOps.Prim2SF x with
  | SpecFloat.S754_finite s m e =>
      if 0 <=? e then x
      else float_of_Z ((2 * (if s then Z.neg m else Z.pos m) + 2 ^ (- e)) / 2 ^ (1 - e))
  | _ => x
  end.

(** [Math.pow(10, d)]: the correctly rounded power for [0 <= d] (exact up to
    [d = 22]), its correctly rounded reciprocal for [d < 0]. *)
Definition float_pow10 (d : Z) : PrimFloat.float :=
  if 0 <=? d then float_of_Z (10 ^ d)
  else PrimFloat.div (float_of_Z 1) (float_of_Z (10 ^ (- d))).

#[export] Instance float_Number : Number PrimFloat.float := {
  of_Q q := PrimFloat.div (float_of_Z (Qnum q)) (float_of_Z (Z.pos (Qden q)));
  nadd := PrimFloat.add;
  nsub := PrimFloat.sub;
  nmul := PrimFloat.mul;
  ndiv := PrimFloat.div;
  nfloor := float_floor;
  nround := float_round;
  npow10 := float_pow10;
  nltb := PrimFloat.ltb;
  nleb := PrimFloat.leb
}.

Inductive TradeDirection := buy | sell.

(** ** Asynchronous handlers

    A handler is a tree of the events it raises; the environment answers
    each event. A rejected promise or a [throw] is [Throw]. *)

(** What a [catch] clause receives: an [Error] object with its message, or
    any other thrown value. *)
Inductive exn := ErrorObj (message : string) | Thrown.

Inductive Prog (E : Type -> Type) (R : Type) : Type :=
| Ret (r : R)
| Throw (e : exn)
| Vis {X : Type} (ev : E X) (k : X -> Prog E R).

Arguments Ret {E R} r.
Arguments Throw {E R} e.
Arguments Vis {E R X} ev k.

Fixpoint bind {E R S} (p : Prog E R) (f : R -> Prog E S) : Prog E S :=
  match p with
  | Ret r => f r
  | Throw e => Throw e
  | Vis ev k => Vis ev (fun x => bind (k x) f)
  end.

Definition trigger {E X} (ev : E X) : Prog E X := Vis ev Ret.

Notation "'await' x := p 'in' k" := (bind p (fun x => k))
  (at level 10, x name, p at level 100, k at level 200).
Notation "p ;; k" := (bind p (fun _ => k))
  (at level 100, k at level 200, right associativity).

(** [try p catch (error) h]. *)
Fixpoint try_catch {E R} (p : Prog E R) (h : exn -> Prog E R) : Prog E R :=
  match p with
  | Ret r => Ret r
  | Throw e => h e
  | Vis ev k => Vis ev (fun x => try_catch (k x) h)
  end.

(** [try p finally f]. *)
Fixpoint try_finally {E R} (p : Prog E R) (f : Prog E unit) : Prog E R :=
  match p with
  | Ret r => f ;; Ret r
  | Throw e => f ;; Throw e
  | Vis ev k => Vis ev (fun x => try_finally (k x) f)
  end.

(** One raised event with its answer type. *)
Definition raised (E : Type -> Type) : Type := { X : Type & E X }.

(** The events raised, in order, and the outcome, when the environment
    answers with [env]. *)
Fixpoint run {E R} (env : forall X, E X -> X) (p : Prog E R) : list (raised E) * (exn + R) :=
  match p with
  | Ret r => ([], inr r)
  | Throw e => ([], inl e)
  | Vis ev k => let '(t, o) := run env (k (env _ ev)) in (@existT Type E _ ev :: t, o)
  end.

(** An event with its answer type forgotten. *)
Definition raise {E : Type -> Type} {X : Type} (ev : E X) : raised E := existT X ev.

(** [P] holds of every event the program can raise, whatever the answers. *)
Fixpoint AllEvents {E R} (P : forall X, E X -> Prop) (p : Prog E R) : Prop :=
  match p with
  | Ret _ | Throw _ => True
  | Vis ev k => P _ ev /\ forall x, AllEvents P (k x)
  end.

(** [a ?? b]. *)
Definition nullish {A} (a b : option A) : option A :=
  match a with
  | Some _ => a
  | None => b
  end.

(** [e || d] on a nullable string: [null], [undefined] and the empty string
    are falsy. *)
Definition or_else (e : option string) (d : string) : string :=
  match e with
  | Some e => if String.eqb e "" then d else e
  | None => d
  end.

Section Embedding.
Context {num : Type} `{Number num}.
Local Open Scope num_scope.

(** ** types/api.ts *)

(** Position snapshot returned by the backend. *)
Record PositionInfo := {
  pos_position_ticket : Z;
  pos_symbol : string;
  pos_direction : TradeDirection;
  pos_volume : num;
  pos_price_open : num;
  pos_sl : option num;
  pos_tp : option num;
  pos_digits : Z;
  pos_pip_in_price : num;
  pos_volume_min : num;
  pos_volume_step : num
}.

(** Order request for MT5 execution. *)
Record OrderRequest := {
  or_symbol : string;
  or_direction : TradeDirection;
  or_volume : num;
  or_price : option num;
  or_sl_price : num;
  or_tp_price : option num;
  or_ui_armed : bool
}.

(** Partial close request: the preferred and the legacy fields are all
    optional. *)
Record PartialCloseRequest := {
  pc_position_ticket : option Z;
  pc_percent : option num;
  pc_ticket : option Z;
  pc_volume : option num;
  pc_ui_armed : bool
}.

(** Order response from MT5. *)
Record OrderResponse := {
  success : bool;
  ticket : option Z;
  order_ticket : option Z;
  position_ticket : option Z;
  error : option string
}.

Record PartialCloseResponse := {
  order_response :> OrderResponse;
  symbol : option string;
  position_volume : option num;
  percent : option num;
  requested_volume : option num;
  close_volume : option num;
  remaining_volume : option num;
  blocked_reason : option string;
  volume_min : option num;
  volume_step : option num;
  mt5_retcode : option Z;
  mt5_comment : option string
}.

(** ** types/settings.ts *)

Record SymbolPreset := {
  sp_symbol : string;
  sp_pip_value_per_1_lot : num;
  sp_pip_size : num
}.

Inductive Theme := dark | light.

Record AppSettings := {
  max_stop_pips : num;
  tp1_pips : num;
  partial_percent : num;
  move_to_be_enabled : bool;
  be_buffer_pips : num;
  min_volume : num;
  volume_step_setting : num;
  symbol_presets : list SymbolPreset;
  active_symbol : string;
  theme : Theme
}.

(** ** api/mt5.ts *)

(** The JSON body of a request. *)
Inductive Body :=
| OrderBody (request : OrderRequest)
| PartialCloseBody (request : PartialCloseRequest).

(** The part of an axios response that the client reads. *)
Record AxiosResponse := { data : PartialCloseResponse }.

Inductive event : Type -> Type :=
| ApiPost (url : string) (body : Body) : event (exn + AxiosResponse)
| SetLoading (loading : bool) : event unit
| ConsoleLog (label : string) : event unit
| OnOrderPlaced (order_ticket : Z) (position_ticket : option Z) : event unit
| OnError (error : string) : event unit.

(** [await apiClient.post(url, body)]. *)
Definition post (url : string) (body : Body) : Prog event AxiosResponse :=
  Vis (ApiPost url body)
      (fun r => match r with inl e => Throw e | inr response => Ret response end).

Definition placeOrder (request : OrderRequest) : Prog event OrderResponse :=
  await response := post "/mt5/order" (OrderBody request) in
  Ret (order_response (data response)).

Definition partialClose (request : PartialCloseRequest) : Prog event PartialCloseResponse :=
  await response := post "/mt5/partial-close" (PartialCloseBody request) in
  Ret (data response).

(** Close a position entirely (partial close with 100%). *)
Definition closePosition (positionTicket : Z) (ui_armed : bool)
  : Prog event PartialCloseResponse :=
  await response := post "/mt5/partial-close"
    (PartialCloseBody {| pc_position_ticket := Some positionTicket;
                         pc_percent := Some (of_Q 100);
                         pc_ticket := None;
                         pc_volume := None;
                         pc_ui_armed := ui_armed |}) in
  Ret (data response).

(** ** components/ExecuteTradeButton.tsx *)

Record ExecuteTradeButtonProps := {
  props_symbol : string;
  props_direction : TradeDirection;
  props_volume : num;
  props_entryPrice : num;
  props_stopPips : num;
  props_tp1Pips : option num;
  props_pendingOrder : bool;
  props_armed : bool
}.

(** [symbolPreset?.pip_size || 0.0001]. *)
Definition pipSize_of (settings : AppSettings) (symbol : string) : num :=
  let symbolPreset := List.find (fun p => String.eqb (sp_symbol p) symbol)
                                (symbol_presets settings) in
  match symbolPreset with
  | Some p => if truthy (sp_pip_size p) then sp_pip_size p else of_Q 0.0001
  | None => of_Q 0.0001
  end.

Definition slPrice_of (direction : TradeDirection) (entryPrice stopPips pipSize : num) : num :=
  match direction with
  | buy => entryPrice - (stopPips * pipSize)
  | sell => entryPrice + (stopPips * pipSize)
  end.

Definition handleExecute (props : ExecuteTradeButtonProps) (settings : AppSettings)
  : Prog event unit :=
  if negb (props_armed props) then Ret tt else
  trigger (SetLoading true) ;;
  try_finally
    (try_catch
       (let pipSize := pipSize_of settings (props_symbol props) in
        let slPrice := slPrice_of (props_direction props) (props_entryPrice props)
                                  (props_stopPips props) pipSize in
        let request :=
          {| or_symbol := props_symbol props;
             or_direction := props_direction props;
             or_volume := props_volume props;
             or_price := if props_pendingOrder props then Some (props_entryPrice props)
                         else None;
             or_sl_price := slPrice;
             or_tp_price := None;
             or_ui_armed := props_armed props |} in
        trigger (ConsoleLog "Executing order:") ;;
        await response := placeOrder request in
        let order_ticket := nullish (order_ticket response) (ticket response) in
        let position_ticket := position_ticket response in
        match order_ticket with
        | Some t =>
            if success response && negb (t =? 0)%Z
            then trigger (OnOrderPlaced t position_ticket)
            else trigger (OnError (or_else (error response) "Order failed"))
        | None => trigger (OnError (or_else (error response) "Order failed"))
        end)
       (fun error => trigger (OnError (match error with
                                       | ErrorObj message => message
                                       | Thrown => "Network error"
                                       end))))
    (trigger (SetLoading false)).

(** ** components/PostOrderPanel.tsx *)

(** The [tp1Price] memo. *)
Definition tp1Price (position : option PositionInfo) (tp1Pips : option num) : option num :=
  match position, tp1Pips with
  | Some position, Some tp1Pips =>
      let delta := tp1Pips * pos_pip_in_price position in
      let raw := match pos_direction position with
                 | buy => pos_price_open position + delta
                 | sell => pos_price_open position - delta
                 end in
      let factor := npow10 (pos_digits position) in
      Some (nround (raw * factor) / factor)
  | _, _ => None
  end.

(** The label of the trigger shown next to the TP1 price. *)
Definition triggerLabel (position : PositionInfo) : string :=
  match pos_direction position with
  | buy => "Bid ≥ TP1"
  | sell => "Ask ≤ TP1"
  end.

Record Precheck := {
  requested : num;
  normalized : num;
  remaining : num;
  min : num;
  step : num;
  blocked : bool
}.

(** The local flags of [tp1Precheck]. *)
Definition wouldCloseFull (partialPercentLocal normalized volume : num) : bool :=
  (partialPercentLocal <? of_Q 100) && (normalized >=? volume).

Definition remainingBelowMin (remaining min : num) : bool :=
  (remaining >? of_Q 0) && (remaining <? min).

(** The [tp1Precheck] memo. *)
Definition tp1Precheck (position : option PositionInfo) (partialPercentLocal : num)
  : option Precheck :=
  match position with
  | None => None
  | Some position =>
      let requested := pos_volume position * (partialPercentLocal / of_Q 100) in
      let step := pos_volume_step position in
      let min := pos_volume_min position in
      let eps := of_Q (1 # 1000000000000) in
      let steps := if step >? of_Q 0 then nfloor ((requested + eps) / step) else of_Q 0 in
      let normalized := if step >? of_Q 0 then steps * step else of_Q 0 in
      let remaining := pos_volume position - normalized in
      let wouldCloseFull := wouldCloseFull partialPercentLocal normalized (pos_volume position) in
      let remainingBelowMin := remainingBelowMin remaining min in
      let blocked := (normalized <=? of_Q 0) || (normalized <? min)
                     || remainingBelowMin || wouldCloseFull in
      Some {| requested := requested; normalized := normalized; remaining := remaining;
              min := min; step := step; blocked := blocked |}
  end.

(** ** pages/Calculator.tsx *)

(** Raw open positions from GET /mt5/positions. *)
Record OpenPositionInfo := {
  op_ticket : Z;
  op_symbol : string;
  op_type : Z;
  op_volume : num;
  op_price_open : num;
  op_sl : option num;
  op_tp : option num;
  op_magic : Z;
  op_comment : option string;
  op_time : option num
}.

Record ManagedTrade := {
  mt_id : string;
  mt_symbol : string;
  mt_direction : TradeDirection;
  mt_order_ticket : Z;
  mt_position_ticket : option Z;
  mt_created_at : Z
}.

Definition MAGIC : Z := 123456.

Definition directionToPositionType (dir : TradeDirection) : Z :=
  match dir with
  | buy => 0
  | sell => 1
  end.

(** [Array.prototype.sort] with a comparator: stable; [x] goes before the
    first element that does not compare below it. *)
Fixpoint sort_insert {A} (cmp : A -> A -> num) (x : A) (l : list A) : list A :=
  match l with
  | [] => [x]
  | y :: l' => if cmp y x <? of_Q 0 then y :: sort_insert cmp x l' else x :: l
  end.

Fixpoint sort {A} (cmp : A -> A -> num) (l : list A) : list A :=
  match l with
  | [] => []
  | x :: l' => sort_insert cmp x (sort cmp l')
  end.

(** [p.time ?? 0]. *)
Definition time_or_0 (p : OpenPositionInfo) : num :=
  match op_time p with
  | Some t => t
  | None => of_Q 0
  end.

(** Candidates for a pending fill: same magic, symbol and side, newest
    first. *)
Definition matches_for (positions : list OpenPositionInfo) (t : ManagedTrade)
  : list OpenPositionInfo :=
  let wantType := directionToPositionType (mt_direction t) in
  sort (fun a b => time_or_0 b - time_or_0 a)
       (List.filter (fun p => (op_magic p =? MAGIC)%Z && String.eqb (op_symbol p) (mt_symbol t)
                              && (op_type p =? wantType)%Z)
                    positions).

(** The [for (const t of prev)] loop of the state updater: [claimedTickets]
    and [next] are the mutable set and array it fills. *)
Fixpoint reconcile_loop (now : Z) (positions : list OpenPositionInfo) (byTicket : gset Z)
    (prev : list ManagedTrade) (claimedTickets : gset Z) (next : list ManagedTrade)
  : list ManagedTrade :=
  match prev with
  | [] => next
  | t :: prev' =>
      let continue := reconcile_loop now positions byTicket prev' in
      if bool_decide (mt_position_ticket t = None) && (now - mt_created_at t >? 60000)%Z
      then continue claimedTickets next
      else
        match mt_position_ticket t with
        | Some position_ticket =>
            if bool_decide (position_ticket ∈ byTicket)
            then continue claimedTickets (next ++ [t])%list
            else continue claimedTickets next
        | None =>
            let matches := matches_for positions t in
            match List.find (fun m => negb (bool_decide (op_ticket m ∈ claimedTickets)))
                            matches with
            | Some match_ =>
                continue ({[op_ticket match_]} ∪ claimedTickets)
                         (next ++ [{| mt_id := mt_id t; mt_symbol := mt_symbol t;
                                      mt_direction := mt_direction t;
                                      mt_order_ticket := mt_order_ticket t;
                                      mt_position_ticket := Some (op_ticket match_);
                                      mt_created_at := mt_created_at t |}])%list
            | None => continue claimedTickets (next ++ [t])%list
            end
        end
  end.

(** The updater passed to [setTrades]. *)
Definition reconcile (now : Z) (positions : list OpenPositionInfo) (prev : list ManagedTrade)
  : list ManagedTrade :=
  let byTicket : gset Z := list_to_set (List.map op_ticket positions) in
  let claimedTickets : gset Z :=
    list_to_set (omap mt_position_ticket
                      (List.filter (fun x => bool_decide (mt_position_ticket x <> None)) prev)) in
  reconcile_loop now positions byTicket prev claimedTickets [].

(** One [tick]: [fetched] is the outcome of [getPositions()], [alive] the
    flag read after it, [now] the clock read by the updater. A failed poll is
    swallowed and the trades keep their last state. *)
Definition tick (alive : bool) (now : Z) (fetched : exn + list OpenPositionInfo)
    (trades : list ManagedTrade) : list ManagedTrade :=
  match fetched with
  | inl _ => trades
  | inr positions => if negb alive then trades else reconcile now positions trades
  end.

(** The position tickets that the trade cards reference. *)
Definition claimed_tickets (trades : list ManagedTrade) : list Z :=
  omap mt_position_ticket trades.

(** No position ticket is referenced by two trade cards. *)
Definition unique_tickets (trades : list ManagedTrade) : Prop :=
  NoDup (claimed_tickets trades).

(** ** components/PostOrderPanel.tsx: the watcher status poll *)

(** The last event of each kind, as the status endpoint returns it. A
    [timestamp] that is missing or not a number is [None]. *)
Record Tp1Event := {
  tp1e_ticket : Z;
  tp1e_symbol : string;
  tp1e_direction : string;
  tp1e_timestamp : option num;
  tp1e_close_volume : num;
  tp1e_close_price : num;
  tp1e_pips_profit : num;
  tp1e_profit_money : option num;
  tp1e_be_status : option string
}.

Record SlEvent := {
  sle_ticket : Z;
  sle_symbol : string;
  sle_direction : string;
  sle_timestamp : option num;
  sle_volume : num;
  sle_sl_price : num;
  sle_pips_loss : num;
  sle_profit_money : option num
}.

Record WatcherStatus := {
  running : bool;
  lock_owner_pid : option Z;
  lock_age_seconds : option num;
  watched_positions : Z;
  tp1_done_count : Z;
  last_error : option string;
  last_tp1_event : option Tp1Event;
  last_sl_event : option SlEvent
}.

(** The text handed to [setWatcherStatus]. *)
Inductive WatcherText :=
| ActiveDone (tp1_done_count : Z)
| ActiveWatching (watched_positions : Z)
| Stopped.

(** The toast text, kept as the event it is formatted from. *)
Inductive ToastMessage :=
| Tp1Hit (evt : Tp1Event)
| SlHit (evt : SlEvent).

Inductive panelEvent :=
| SetWatcherStatus (text : WatcherText)
| SetTp1Done (done : bool)
| OnActionComplete (action : string) (success : bool) (message : ToastMessage).

(** [lastSeenTp1TsRef] and [lastSeenSlTsRef]. *)
Record PollRefs := {
  lastSeenTp1Ts : num;
  lastSeenSlTs : num
}.

Definition initialRefs : PollRefs :=
  {| lastSeenTp1Ts := of_Q 0; lastSeenSlTs := of_Q 0 |}.

(** One run of the interval callback; [fetched] is the outcome of
    [getTP1WatcherStatus()]. Poll errors are ignored. The events are taken to
    carry the fields that the toast formats, so that formatting does not
    throw. *)
Definition pollOnce (refs : PollRefs) (fetched : exn + WatcherStatus)
  : PollRefs * list panelEvent :=
  match fetched with
  | inl _ => (refs, [])
  | inr status =>
      let shown :=
        [SetWatcherStatus
           (if running status
            then (if (tp1_done_count status >? 0)%Z
                  then ActiveDone (tp1_done_count status)
                  else ActiveWatching (watched_positions status))
            else Stopped)] in
      let '(seenTp1, tp1Events) :=
        match last_tp1_event status with
        | Some tp1Evt =>
            match tp1e_timestamp tp1Evt with
            | Some timestamp =>
                if timestamp >? lastSeenTp1Ts refs
                then (timestamp,
                      [SetTp1Done true; OnActionComplete "tp1_watcher" true (Tp1Hit tp1Evt)])
                else (lastSeenTp1Ts refs, [])
            | None => (lastSeenTp1Ts refs, [])
            end
        | None => (lastSeenTp1Ts refs, [])
        end in
      let '(seenSl, slEvents) :=
        match last_sl_event status with
        | Some slEvt =>
            match sle_timestamp slEvt with
            | Some timestamp =>
                if timestamp >? lastSeenSlTs refs
                then (timestamp, [OnActionComplete "sl_hit" false (SlHit slEvt)])
                else (lastSeenSlTs refs, [])
            | None => (lastSeenSlTs refs, [])
            end
        | None => (lastSeenSlTs refs, [])
        end in
      ({| lastSeenTp1Ts := seenTp1; lastSeenSlTs := seenSl |},
       (shown ++ tp1Events ++ slEvents)%list)
  end.

(** The interval firing once per element of [polls]. *)
Fixpoint pollAll (refs : PollRefs) (polls : list (exn + WatcherStatus))
  : PollRefs * list panelEvent :=
  match polls with
  | [] => (refs, [])
  | fetched :: polls' =>
      let '(refs', events) := pollOnce refs fetched in
      let '(refs'', events') := pollAll refs' polls' in
      (refs'', (events ++ events')%list)
  end.

(** The timestamps of the TP1 and of the SL toasts among the events. *)
Definition tp1_notified (events : list panelEvent) : list num :=
  omap (fun ev => match ev with
                  | OnActionComplete _ _ (Tp1Hit evt) => tp1e_timestamp evt
                  | _ => None
                  end) events.

Definition sl_notified (events : list panelEvent) : list num :=
  omap (fun ev => match ev with
                  | OnActionComplete _ _ (SlHit evt) => sle_timestamp evt
                  | _ => None
                  end) events.

End Embedding.

Arguments PositionInfo : clear implicits.
Arguments Precheck : clear implicits.
Arguments OrderRequest : clear implicits.
Arguments PartialCloseRequest : clear implicits.
Arguments PartialCloseResponse : clear implicits.
Arguments SymbolPreset : clear implicits.
Arguments AppSettings : clear implicits.
Arguments Body : clear implicits.
Arguments AxiosResponse : clear implicits.
Arguments event : clear implicits.
Arguments ExecuteTradeButtonProps : clear implicits.
Arguments OpenPositionInfo : clear implicits.
Arguments Tp1Event : clear implicits.
Arguments SlEvent : clear implicits.
Arguments WatcherStatus : clear implicits.
Arguments ToastMessage : clear implicits.
Arguments panelEvent : clear implicits.
Arguments PollRefs : clear implicits.

(** ** types/trade.ts, utils/symbolDefaults.ts, components/calculator/InputForm.tsx

    The form holds its fields as strings and converts them with
    [parseFloat], whose result is a binary64 number, [NaN] or an infinity;
    a finite result is kept as the rational it denotes, which the
    comparisons of the form order as the program does. *)

Inductive parsed :=
| NaN
| Infinity (negative : bool)
| Finite (q : Q).

(** [p <= q] and [p > q] against a literal; every comparison with [NaN] is
    false. *)
Definition parsed_le (p : parsed) (q : Q) : bool :=
  match p with
  | NaN => false
  | Infinity negative => negative
  | Finite x => Qle_bool x q
  end.

Definition parsed_gt (p : parsed) (q : Q) : bool :=
  match p with
  | NaN => false
  | Infinity negative => negb negative
  | Finite x => negb (Qle_bool x q)
  end.

(** The white space and line terminators of the ASCII range; the form's
    strings are ASCII. *)
Definition is_white_space (c : ascii) : bool :=
  match nat_of_ascii c with
  | 9%nat | 10%nat | 11%nat | 12%nat | 13%nat | 32%nat => true
  | _ => false
  end.

Fixpoint skip_white_space (s : string) : string :=
  match s with
  | String c s' => if is_white_space c then skip_white_space s' else s
  | EmptyString => s
  end.

Definition digit_of (c : ascii) : option Z :=
  let n := Z.of_nat (nat_of_ascii c) in
  if (48 <=? n) && (n <=? 57) then Some (n - 48) else None.

(** The value and the number of the leading decimal digits, and the rest. *)
Fixpoint read_digits (acc count : Z) (s : string) : Z * Z * string :=
  match s with
  | String c s' =>
      match digit_of c with
      | Some d => read_digits (10 * acc + d) (count + 1) s'
      | None => (acc, count, s)
      end
  | EmptyString => (acc, count, s)
  end.

Definition read_sign (s : string) : bool * string :=
  match s with
  | String "-" s' => (true, s')
  | String "+" s' => (false, s')
  | _ => (false, s)
  end.

(** An exponent part [e±ddd], or [0] when there is none. *)
Definition read_exponent (s : string) : Z :=
  match s with
  | String c s' =>
      if Ascii.eqb c "e" || Ascii.eqb c "E" then
        let '(negative, s'') := read_sign s' in
        let '(v, count, _) := read_digits 0 0 s'' in
        if count =? 0 then 0 else if negative then - v else v
      else 0
  | EmptyString => 0
  end.

(** The binary64 number nearest to [n / d], ties to even: the quotient is
    cut after at least 55 bits and one more bit records whether anything was
    cut away, which the rounding of [binary_normalize] cannot tell from the
    exact quotient. *)
Definition nearest_binary64 (negative : bool) (n d : positive) : SpecFloat.spec_float :=
  let k := Z.max 0 (56 + Z.log2 (Z.pos d) - Z.log2 (Z.pos n)) in
  let (q, r) := Z.div_eucl (Z.pos n * 2 ^ k) (Z.pos d) in
  let m := 2 * q + (if r =? 0 then 0 else 1) in
  SpecFloat.binary_normalize FloatOps.prec FloatOps.emax (if negative then - m else m)
                             (- k - 1) false.

(** A binary64 number as a parsed value; the two zeros are one. *)
Definition parsed_of_binary64 (x : SpecFloat.spec_float) : parsed :=
  match x with
  | SpecFloat.S754_zero _ => Finite 0
  | SpecFloat.S754_infinity negative => Infinity negative
  | SpecFloat.S754_nan => NaN
  | SpecFloat.S754_finite negative m e =>
      Finite (inject_Z (if negative then Z.neg m else Z.pos m) * Qpower (inject_Z 2) e)
  end.

(** The number that the decimal [mantissa * 10^exponent] denotes, where
    [mantissa] has at most [digits] decimal digits: the nearest binary64
    number. Beyond [10^400] and below [10^-400] that is an infinity or zero
    whatever the digits are, which spares the large powers. *)
Definition decimal_value (negative : bool) (mantissa digits exponent : Z) : parsed :=
  match mantissa with
  | Z.pos m =>
      if 400 <? exponent then Infinity negative
      else if digits + exponent <? -400 then Finite 0
      else if 0 <=? exponent
           then parsed_of_binary64 (nearest_binary64 negative (m * Z.to_pos (10 ^ exponent)) 1)
           else parsed_of_binary64 (nearest_binary64 negative m (Z.to_pos (10 ^ (- exponent))))
  | _ => Finite 0
  end.

(** [parseFloat]: leading white space is skipped, the longest prefix that is
    a decimal literal is read and the rest ignored; no such prefix gives
    [NaN]. The literal is rounded to the nearest binary64 number, so
    ["1e-400"] reads as [0], ["100.00000000000000001"] as [100] and
    ["1e400"] as [Infinity]. *)
Definition parseFloat (s : string) : parsed :=
  let s := skip_white_space s in
  let '(negative, s) := read_sign s in
  if String.prefix "Infinity" s then Infinity negative else
  let '(int_part, n1, s1) := read_digits 0 0 s in
  let '(frac_part, n2, s2) :=
    match s1 with
    | String "." s' => read_digits 0 0 s'
    | _ => (0, 0, s1)
    end in
  if (n1 =? 0) && (n2 =? 0) then NaN else
  let mantissa := int_part * 10 ^ n2 + frac_part in
  let exponent := read_exponent s2 in
  decimal_value negative mantissa (n1 + n2) (exponent - n2).

(** Form state for the calculator input. *)
Record CalculatorFormState := {
  form_account_balance : string;
  form_risk_percent : string;
  form_symbol : string;
  form_direction : TradeDirection;
  form_entry_price : string;
  form_pending_order : bool;
  form_stop_pips : string;
  form_tp1_pips : string;
  form_pip_value_per_1_lot : string
}.

(** [Partial<CalculatorFormState>]: the keys that [validateForm] can set. *)
Record FormErrors := {
  err_symbol : option string;
  err_account_balance : option string;
  err_risk_percent : option string;
  err_entry_price : option string;
  err_stop_pips : option string;
  err_pip_value_per_1_lot : option string
}.

(** [!s]: only the empty string is falsy. *)
Definition str_falsy (s : string) : bool := String.eqb s "".

(** [Object.keys(newErrors).length]. *)
Definition error_count (e : FormErrors) : nat :=
  length (omap id [err_symbol e; err_account_balance e; err_risk_percent e;
                   err_entry_price e; err_stop_pips e; err_pip_value_per_1_lot e]).

(** [validateForm]: the errors it stores with [setErrors] and its result. *)
Definition validateForm (settings : AppSettings Q) (formData : CalculatorFormState)
  : FormErrors * bool :=
  let newErrors :=
    {| err_symbol :=
         if str_falsy (active_symbol settings) then Some "Please choose a symbol" else None;
       err_account_balance :=
         if str_falsy (form_account_balance formData)
            || parsed_le (parseFloat (form_account_balance formData)) 0
         then Some "Account balance must be greater than 0" else None;
       err_risk_percent :=
         if str_falsy (form_risk_percent formData)
            || parsed_le (parseFloat (form_risk_percent formData)) 0
            || parsed_gt (parseFloat (form_risk_percent formData)) 100
         then Some "Risk percent must be between 0 and 100" else None;
       err_entry_price :=
         if str_falsy (form_entry_price formData)
            || parsed_le (parseFloat (form_entry_price formData)) 0
         then Some "Entry price must be greater than 0" else None;
       err_stop_pips :=
         if str_falsy (form_stop_pips formData)
            || parsed_le (parseFloat (form_stop_pips formData)) 0
         then Some "Stop pips must be greater than 0" else None;
       err_pip_value_per_1_lot :=
         if str_falsy (form_pip_value_per_1_lot formData)
            || parsed_le (parseFloat (form_pip_value_per_1_lot formData)) 0
         then Some "Pip value must be greater than 0" else None |} in
  (newErrors, Nat.eqb (error_count newErrors) 0).

Inductive formEvent :=
| PreventDefault
| SetErrors (errors : FormErrors)
| OnCalculate (formData : CalculatorFormState).

Definition handleSubmit (settings : AppSettings Q) (formData : CalculatorFormState)
  : list formEvent :=
  let '(newErrors, valid) := validateForm settings formData in
  (PreventDefault :: SetErrors newErrors :: (if valid then [OnCalculate formData] else []))%list.

Record SymbolDefaults := {
  sd_stop_loss_pips : Q;
  sd_take_profit_pips : Q;
  sd_max_stop_pips : Q;
  sd_pip_value_per_1_lot : Q
}.

Definition SYMBOL_DEFAULTS : list (string * SymbolDefaults) :=
  [("XAUUSD", {| sd_stop_loss_pips := 50; sd_take_profit_pips := 30;
                 sd_max_stop_pips := 50; sd_pip_value_per_1_lot := 10 |});
   ("BTCUSD", {| sd_stop_loss_pips := 500; sd_take_profit_pips := 300;
                 sd_max_stop_pips := 1000; sd_pip_value_per_1_lot := 1 |})].

Definition FOREX_DEFAULTS : SymbolDefaults :=
  {| sd_stop_loss_pips := 50; sd_take_profit_pips := 30;
     sd_max_stop_pips := 50; sd_pip_value_per_1_lot := 10 |}.

(** [toUpperCase] on the ASCII letters. *)
Definition upper_ascii (c : ascii) : ascii :=
  let n := nat_of_ascii c in
  if (97 <=? n)%nat && (n <=? 122)%nat then ascii_of_nat (n - 32) else c.

Fixpoint toUpperCase (s : string) : string :=
  match s with
  | String c s' => String (upper_ascii c) (toUpperCase s')
  | EmptyString => EmptyString
  end.

Definition getSymbolDefaults (symbol : string) : SymbolDefaults :=
  let upper := toUpperCase symbol in
  match List.find (fun kv => String.eqb (fst kv) upper) SYMBOL_DEFAULTS with
  | Some kv => snd kv
  | None =>
      match List.find (fun kv => String.prefix (fst kv) upper) SYMBOL_DEFAULTS with
      | Some kv => snd kv
      | None => FOREX_DEFAULTS
      end
  end.

(** Input parameters for risk calculation, as [handleCalculate] builds them. *)
Record RiskCalcInput := {
  in_account_balance : parsed;
  in_risk_percent : parsed;
  in_symbol : string;
  in_direction : TradeDirection;
  in_entry_price : parsed;
  in_stop_pips : parsed;
  in_max_stop_pips : Q;
  in_tp1_pips : parsed;
  in_partial_percent : Q;
  in_move_to_be_enabled : bool;
  in_be_buffer_pips : Q;
  in_pip_value_per_1_lot : parsed;
  in_min_volume : Q;
  in_volume_step : Q
}.

(** The [input] that [handleCalculate] passes to [calculate]. *)
Definition handleCalculate (settings : AppSettings Q) (formData : CalculatorFormState)
  : RiskCalcInput :=
  let symDefaults := getSymbolDefaults (form_symbol formData) in
  {| in_account_balance := parseFloat (form_account_balance formData);
     in_risk_percent := parseFloat (form_risk_percent formData);
     in_symbol := form_symbol formData;
     in_direction := form_direction formData;
     in_entry_price := parseFloat (form_entry_price formData);
     in_stop_pips := parseFloat (form_stop_pips formData);
     in_max_stop_pips := sd_max_stop_pips symDefaults;
     in_tp1_pips := parseFloat (form_tp1_pips formData);
     in_partial_percent := partial_percent settings;
     in_move_to_be_enabled := move_to_be_enabled settings;
     in_be_buffer_pips := be_buffer_pips settings;
     in_pip_value_per_1_lot := parseFloat (form_pip_value_per_1_lot formData);
     in_min_volume := min_volume settings;
     in_volume_step := volume_step_setting settings |}.

(** The domains of the RiskCalcInput fields that the form validates. *)
Definition positive (p : parsed) : Prop :=
  match p with
  | NaN => False
  | Infinity negative => negative = false
  | Finite q => (0 < q)%Q
  end.

Definition at_most (p : parsed) (bound : Q) : Prop :=
  match p with
  | NaN => False
  | Infinity negative => negative = true
  | Finite q => (q <= bound)%Q
  end.

Definition in_domain (input : RiskCalcInput) : Prop :=
  positive (in_account_balance input)
  /\ positive (in_risk_percent input) /\ at_most (in_risk_percent input) 100
  /\ positive (in_entry_price input)
  /\ positive (in_stop_pips input)
  /\ positive (in_pip_value_per_1_lot input).

(** What an [<input type="number">] hands to the form: the empty string
    when the text typed is not a number, and the text otherwise. The pip
    value field is such an input, or is read-only and filled with a
    preset's number. So a validated field is empty or parses to a number. *)
Definition number_input_value (s : string) : Prop := s = "" \/ parseFloat s <> NaN.

Definition entered_through_inputs (formData : CalculatorFormState) : Prop :=
  number_input_value (form_account_balance formData)
  /\ number_input_value (form_risk_percent formData)
  /\ number_input_value (form_entry_price formData)
  /\ number_input_value (form_stop_pips formData)
  /\ number_input_value (form_pip_value_per_1_lot formData).

(** No validated field of the form parses to [NaN]. *)
Definition no_NaN (formData : CalculatorFormState) : Prop :=
  parseFloat (form_account_balance formData) <> NaN
  /\ parseFloat (form_risk_percent formData) <> NaN
  /\ parseFloat (form_entry_price formData) <> NaN
  /\ parseFloat (form_stop_pips formData) <> NaN
  /\ parseFloat (form_pip_value_per_1_lot formData) <> NaN.

(** ** The backend, as the specification describes it

    The FastAPI backend (execution guard, partial-close validation, TP1
    watcher) is not part of the front-end sources; the definitions of this
    section follow the words of the specification. *)

Section Backend.
Context {num : Type} `{Number num}.
Local Open Scope num_scope.

(** Modelled from the spec: the backend's [ExecutionGuard.authorize]
    (execution_guard.py is missing). "Both must independently be true". *)
Definition authorize (ui_armed backend_execution_enabled : bool) : bool :=
  ui_armed && backend_execution_enabled.

(** The error taxonomy of the specification. *)
Inductive Failure :=
| AuthorizationError
| ValidationError
| BrokerError
| LockContentionError
| NotFoundError.

(** Modelled from the spec: the guard in front of an order-mutating backend
    operation (api/mt5.py is missing). "All order-mutating operations accept
    ui_armed and must fail with an authorization error when
    ExecutionGuard.authorize returns false, independent of any other
    validation." *)
Definition guarded {A} (ui_armed backend_execution_enabled : bool)
    (operation : unit -> Failure + A) : Failure + A :=
  if authorize ui_armed backend_execution_enabled then operation tt
  else inl AuthorizationError.

Inductive BlockedReason :=
| NormalizedZero
| NormalizedBelowMin
| RemainingBelowMin
| WouldCloseFullPosition.

(** Modelled from the spec: the reasons that the backend partial close
    reports in [blocked_reason] (mt5_service.py is missing). "Blocked when
    normalized <= 0, or normalized < volume_min"; "remaining is invalid if
    0 < remaining < volume_min ... reported as a distinct reason"; "a request
    that would consume the entire position at a percentage below 100 is
    flagged". Every check is kept and none is preferred: all the reasons that
    apply are listed. *)
Definition blocked_reasons (owned percent normalized volume_min : num) : list BlockedReason :=
  let remaining := owned - normalized in
  ((if normalized <=? of_Q 0 then [NormalizedZero] else [])
   ++ (if normalized <? volume_min then [NormalizedBelowMin] else [])
   ++ (if (remaining >? of_Q 0) && (remaining <? volume_min) then [RemainingBelowMin] else [])
   ++ (if (percent <? of_Q 100) && (normalized >=? owned) then [WouldCloseFullPosition]
       else []))%list.

(** Modelled from the spec: the watcher's trigger test (tp1_watcher.py is
    missing). "for a buy, current bid >= tp1_price; for a sell, current
    ask <= tp1_price". *)
Definition tp1_reached (direction : TradeDirection) (bid ask tp1_price : num) : bool :=
  match direction with
  | buy => bid >=? tp1_price
  | sell => ask <=? tp1_price
  end.

Inductive WatchState := Watching | TP1Done.

Record WatchedPosition := {
  wp_ticket : Z;
  wp_symbol : string;
  wp_direction : TradeDirection;
  wp_entry_price : num;
  wp_pip_in_price : num;
  wp_digits : Z;
  wp_tp1_price : option num;
  wp_state : WatchState
}.

(** Modelled from the spec: the watcher's registration of a position
    (tp1_watcher.py is missing). "If not yet watched, first registration
    computes tp1_price once ... and caches it (price does not move if pips
    configuration changes later for that position)". The price is the one
    the panel computes. *)
Definition register (watched : gmap Z WatchedPosition) (position : PositionInfo num)
    (tp1_pips : num) : gmap Z WatchedPosition :=
  match watched !! pos_position_ticket position with
  | Some _ => watched
  | None =>
      <[pos_position_ticket position :=
          {| wp_ticket := pos_position_ticket position;
             wp_symbol := pos_symbol position;
             wp_direction := pos_direction position;
             wp_entry_price := pos_price_open position;
             wp_pip_in_price := pos_pip_in_price position;
             wp_digits := pos_digits position;
             wp_tp1_price := tp1Price (Some position) (Some tp1_pips);
             wp_state := Watching |}]> watched
  end.

(** Modelled from the spec: the timestamp of the next event of a kind
    (tp1_watcher.py is missing). "strictly increasing timestamp (monotonic
    counter or wall-clock with tie-break by counter)": the wall clock when it
    has advanced past the last event, the last timestamp plus one
    otherwise. *)
Definition next_timestamp (last wall_clock : num) : num :=
  if last <? wall_clock then wall_clock else last + of_Q 1.

(** The timestamps of the events emitted at the given clock readings. *)
Fixpoint emitted (last : num) (clock : list num) : list num :=
  match clock with
  | [] => []
  | wall_clock :: clock' =>
      let timestamp := next_timestamp last wall_clock in
      timestamp :: emitted timestamp clock'
  end.

End Backend.

Arguments WatchedPosition : clear implicits.

(** The TP1 price before rounding: the [raw] of [tp1Price]. *)
Definition tp1_raw {num} `{Number num} (position : PositionInfo num) (tp1Pips : num) : num :=
  match pos_direction position with
  | buy => (pos_price_open position + tp1Pips * pos_pip_in_price position)%num
  | sell => (pos_price_open position - tp1Pips * pos_pip_in_price position)%num
  end.

(** ** Sample data *)

(** A position with the given side, volume, open price, price digits, pip
    and volume constraints, read as decimal literals. *)
Definition sample_position {num} `{Number num} (direction : TradeDirection)
    (volume price_open : Q) (digits : Z) (pip_in_price volume_min volume_step : Q)
  : PositionInfo num :=
  {| pos_position_ticket := 1001; pos_symbol := "EURUSD"; pos_direction := direction;
     pos_volume := of_Q volume; pos_price_open := of_Q price_open;
     pos_sl := None; pos_tp := None; pos_digits := digits;
     pos_pip_in_price := of_Q pip_in_price;
     pos_volume_min := of_Q volume_min; pos_volume_step := of_Q volume_step |}.

(** Two trades and two open positions of the same symbol and side. *)
Definition sample_trades : list ManagedTrade :=
  [{| mt_id := "501-1"; mt_symbol := "EURUSD"; mt_direction := buy; mt_order_ticket := 501;
      mt_position_ticket := Some 7; mt_created_at := 1000 |};
   {| mt_id := "502-2"; mt_symbol := "EURUSD"; mt_direction := buy; mt_order_ticket := 502;
      mt_position_ticket := None; mt_created_at := 1500 |}].

Definition sample_open_position {num} `{Number num} (ticket : Z) (time : Q)
  : OpenPositionInfo num :=
  {| op_ticket := ticket; op_symbol := "EURUSD"; op_type := 0; op_volume := of_Q 0.10;
     op_price_open := of_Q 1.1; op_sl := None; op_tp := None; op_magic := 123456;
     op_comment := None; op_time := Some (of_Q time) |}.

(** How many of the timestamps equal [v]. *)
Definition occurrences (v : Q) (timestamps : list Q) : nat :=
  length (List.filter (Qeq_bool v) timestamps).

(** A watcher status carrying the given last TP1 event. *)
Definition sample_status {num} `{Number num} (timestamp : Q) : WatcherStatus num :=
  {| running := true; lock_owner_pid := Some 4242; lock_age_seconds := Some (of_Q 1);
     watched_positions := 1; tp1_done_count := 1; last_error := None;
     last_tp1_event :=
       Some {| tp1e_ticket := 7; tp1e_symbol := "EURUSD"; tp1e_direction := "buy";
               tp1e_timestamp := Some (of_Q timestamp); tp1e_close_volume := of_Q 0.05;
               tp1e_close_price := of_Q 1.10423; tp1e_pips_profit := of_Q 30;
               tp1e_profit_money := None; tp1e_be_status := Some "ok" |};
     last_sl_event := None |}.

(** The props of the execute button for a trade of 0.10 lots entered at 1.1
    with a stop of 50 pips, and settings with the default presets. *)
Definition sample_props {num} `{Number num} (direction : TradeDirection)
    (pendingOrder armed : bool) : ExecuteTradeButtonProps num :=
  {| props_symbol := "EURUSD"; props_direction := direction; props_volume := of_Q 0.10;
     props_entryPrice := of_Q 1.1; props_stopPips := of_Q 50; props_tp1Pips := Some (of_Q 30);
     props_pendingOrder := pendingOrder; props_armed := armed |}.

Definition DEFAULT_SETTINGS {num} `{Number num} : AppSettings num :=
  {| max_stop_pips := of_Q 50; tp1_pips := of_Q 30; partial_percent := of_Q 50;
     move_to_be_enabled := true; be_buffer_pips := of_Q 0; min_volume := of_Q 0.01;
     volume_step_setting := of_Q 0.01;
     symbol_presets :=
       [{| sp_symbol := "XAUUSD"; sp_pip_value_per_1_lot := of_Q 10; sp_pip_size := of_Q 0.1 |};
        {| sp_symbol := "BTCUSD"; sp_pip_value_per_1_lot := of_Q 1; sp_pip_size := of_Q 1.0 |};
        {| sp_symbol := "EURUSD"; sp_pip_value_per_1_lot := of_Q 10;
           sp_pip_size := of_Q 0.0001 |}];
     active_symbol := ""; theme := dark |}.

(** A broker that accepts every order with order ticket 501. *)
Definition accepting_broker {num} `{Number num} (X : Type) (ev : event num X) : X :=
  match ev in event _ X return X with
  | ApiPost _ _ =>
      inr {| data := {| order_response := {| success := true; ticket := Some 501;
                                             order_ticket := Some 501;
                                             position_ticket := Some 7; error := None |};
                        symbol := None; position_volume := None; percent := None;
                        requested_volume := None; close_volume := None;
                        remaining_volume := None; blocked_reason := None;
                        volume_min := None; volume_step := None; mt5_retcode := None;
                        mt5_comment := None |} |}
  | SetLoading _ | ConsoleLog _ | OnOrderPlaced _ _ | OnError _ => tt
  end.

(** ** Statements about the execute handler *)

(** What the execute handler posts: one shape for every request. *)
Definition order_request_shape {num} `{Number num} (props : ExecuteTradeButtonProps num)
    (settings : AppSettings num) (X : Type) (ev : event num X) : Prop :=
  match ev with
  | ApiPost url body =>
      url = "/mt5/order"
      /\ exists request,
           body = OrderBody request
           /\ or_tp_price request = None
           /\ or_price request
              = (if props_pendingOrder props then Some (props_entryPrice props) else None)
           /\ or_sl_price request
              = match props_direction props with
                | buy => (props_entryPrice props
                          - props_stopPips props * pipSize_of settings (props_symbol props))%num
                | sell => (props_entryPrice props
                           + props_stopPips props * pipSize_of settings (props_symbol props))%num
                end
  | _ => True
  end.

(** In exact arithmetic: the stop-loss of every posted request is below the
    entry price for a buy and above it for a sell. *)
Definition stop_on_losing_side (props : ExecuteTradeButtonProps Q) (X : Type)
    (ev : event Q X) : Prop :=
  match ev with
  | ApiPost _ (OrderBody request) =>
      match props_direction props with
      | buy => (or_sl_price request < props_entryPrice props)%Q
      | sell => (props_entryPrice props < or_sl_price request)%Q
      end
  | _ => True
  end.

(** In binary64: the stop-loss of every posted request is not above the
    entry price for a buy and not below it for a sell. *)
Definition stop_not_on_winning_side (props : ExecuteTradeButtonProps PrimFloat.float)
    (X : Type) (ev : event PrimFloat.float X) : Prop :=
  match ev with
  | ApiPost _ (OrderBody request) =>
      match props_direction props with
      | buy => PrimFloat.ltb (props_entryPrice props) (or_sl_price request) = false
      | sell => PrimFloat.ltb (or_sl_price request) (props_entryPrice props) = false
      end
  | _ => True
  end.

(** An armed market order whose stop distance is small against its entry
    price: [entry] with a stop of [stop] pips. *)
Definition distant_props (symbol : string) (direction : TradeDirection) (entry stop : Q)
  : ExecuteTradeButtonProps PrimFloat.float :=
  {| props_symbol := symbol; props_direction := direction; props_volume := of_Q 0.10;
     props_entryPrice := of_Q entry; props_stopPips := of_Q stop; props_tp1Pips := None;
     props_pendingOrder := false; props_armed := true |}.

(** The requests among the raised events. *)
Definition posted {num} (trace : list (raised (event num))) : list (string * Body num) :=
  omap (fun r => match projT2 r with
                 | ApiPost url body => Some (url, body)
                 | _ => None
                 end) trace.

(** The initial form of the calculator with the balance field replaced, and
    settings with EURUSD selected. *)
Definition form_with_balance (account_balance : string) : CalculatorFormState :=
  {| form_account_balance := account_balance; form_risk_percent := "1.0";
     form_symbol := "EURUSD"; form_direction := buy; form_entry_price := "2000.00";
     form_pending_order := false; form_stop_pips := "50"; form_tp1_pips := "30";
     form_pip_value_per_1_lot := "10" |}.

Definition eurusd_settings : AppSettings Q :=
  {| max_stop_pips := 50; tp1_pips := 30; partial_percent := 50;
     move_to_be_enabled := true; be_buffer_pips := 0; min_volume := 0.01;
     volume_step_setting := 0.01;
     symbol_presets :=
       [{| sp_symbol := "EURUSD"; sp_pip_value_per_1_lot := 10; sp_pip_size := 0.0001 |}];
     active_symbol := "EURUSD"; theme := dark |}%Q.

Definition no_errors : FormErrors :=
  {| err_symbol := None; err_account_balance := None; err_risk_percent := None;
     err_entry_price := None; err_stop_pips := None; err_pip_value_per_1_lot := None |}.

(** ** Statements about the reconciliation *)

Section ReconciliationStatements.
Context {num : Type} `{Number num}.

(** The cards that a tick keeps: a resolved card while its position is in the
    snapshot, a pending card until it is older than 60 s. *)
Definition keeps (now : Z) (positions : list (OpenPositionInfo num)) (t : ManagedTrade) : bool :=
  match mt_position_ticket t with
  | Some position_ticket =>
      bool_decide (position_ticket ∈ (list_to_set (List.map op_ticket positions) : gset Z))
  | None => negb (now - mt_created_at t >? 60000)%Z
  end.

(** A position that may fill a pending card: this system's magic, the card's
    symbol and side. *)
Definition candidate (t : ManagedTrade) (p : OpenPositionInfo num) : Prop :=
  op_magic p = MAGIC /\ op_symbol p = mt_symbol t
  /\ op_type p = directionToPositionType (mt_direction t).

(** [r] is the card [t] after a tick: unchanged, or a pending card that took
    the ticket of a candidate of the snapshot. *)
Definition resolved_from (positions : list (OpenPositionInfo num)) (t r : ManagedTrade) : Prop :=
  r = t
  \/ (mt_position_ticket t = None
      /\ exists m, In m positions /\ candidate t m
           /\ r = {| mt_id := mt_id t; mt_symbol := mt_symbol t;
                     mt_direction := mt_direction t;
                     mt_order_ticket := mt_order_ticket t;
                     mt_position_ticket := Some (op_ticket m);
                     mt_created_at := mt_created_at t |}).

End ReconciliationStatements.

(** ** pages/Calculator.tsx: the callbacks that edit the trade list *)

(** The [onOrderPlaced] callback: a card for the placed order is appended.
    [now_id] and [now] are the two readings of the clock, for the id and for
    [created_at]. *)
Definition onOrderPlaced (lastFormData : CalculatorFormState) (order_ticket : Z)
    (position_ticket : option Z) (now_id now : Z) (prev : list ManagedTrade)
  : list ManagedTrade :=
  (prev ++ [{| mt_id := pretty order_ticket ++ "-" ++ pretty now_id;
               mt_symbol := form_symbol lastFormData;
               mt_direction := form_direction lastFormData;
               mt_order_ticket := order_ticket;
               mt_position_ticket := position_ticket;
               mt_created_at := now |}])%list.

(** The [onRemove] callback of the card with the given id. *)
Definition onRemove (id : string) (prev : list ManagedTrade) : list ManagedTrade :=
  List.filter (fun x => negb (String.eqb (mt_id x) id)) prev.

(** ** components/PostOrderPanel.tsx: the action handlers *)

Section PanelHandlers.
Context {num : Type} `{Number num}.
Local Open Scope num_scope.

Record MoveToBERequest := {
  mbe_position_ticket : Z;
  mbe_buffer_pips : num;
  mbe_ui_armed : bool
}.

(** The state behind the "TP1 not executed" box. *)
Record Tp1Hint := {
  hint_requested : num;
  hint_close : num;
  hint_remaining : num;
  hint_min : num;
  hint_step : num;
  hint_blockedReason : option string
}.

(** [x !== x]: only [NaN] differs from itself. *)
Definition is_nan (x : num) : bool := negb (x <=? x).

(** [Math.max(a, b)] and [Math.min(a, b)]; a [NaN] argument gives [NaN]. *)
Definition Math_max (a b : num) : num :=
  if is_nan a then a else if is_nan b then b else if a <? b then b else a.

Definition Math_min (a b : num) : num :=
  if is_nan a then a else if is_nan b then b else if b <? a then b else a.

(** [o ?? d] with a default that is not nullable. *)
Definition or_default {A} (o : option A) (d : A) : A :=
  match o with
  | Some a => a
  | None => d
  end.

(** [applyTp1HintFromPartialClose]: the hint it stores, or [None] when it
    returns without storing (no resolved position). *)
Definition applyTp1HintFromPartialClose (position : option (PositionInfo num))
    (res : PartialCloseResponse num) : option Tp1Hint :=
  match position with
  | None => None
  | Some position =>
      let requested := or_default (requested_volume res) (of_Q 0) in
      let close := or_default (close_volume res) (of_Q 0) in
      let remaining := or_default (remaining_volume res)
                                  (Math_max (of_Q 0) (pos_volume position - close)) in
      Some {| hint_requested := requested;
              hint_close := close;
              hint_remaining := remaining;
              hint_min := or_default (volume_min res) (pos_volume_min position);
              hint_step := or_default (volume_step res) (pos_volume_step position);
              hint_blockedReason := blocked_reason res |}
  end.

(** What the handlers append to "TP1 executed ...". *)
Inductive BeNote :=
| BeNotRequested
| BeMoved
| BeFailed (reason : string).

(** The message given to [onActionComplete]: a fixed or received text, or a
    text formatted from the values kept here. *)
Inductive PanelMessage :=
| Text (message : string)
| Tp1Executed (closed : option num) (be : BeNote)
| PositionClosed (positionTicket : Z) (closed : option num).

(** The events of the handlers: the calls of api/mt5.ts, the POST of
    [moveToBE], the state setters and the callback. *)
Inductive panelAction : Type -> Type :=
| Api {X : Type} (ev : event num X) : panelAction X
| PostMoveToBE (url : string) (request : MoveToBERequest) : panelAction (exn + OrderResponse)
| PanelSetLoading (loading : option string) : panelAction unit
| PanelSetTp1Done (done : bool) : panelAction unit
| PanelSetTp1Hint (hint : option Tp1Hint) : panelAction unit
| ActionComplete (action : string) (success : bool) (message : PanelMessage)
  : panelAction unit.

(** A program of api/mt5.ts run inside a handler. *)
Fixpoint api {R} (p : Prog (event num) R) : Prog panelAction R :=
  match p with
  | Ret r => Ret r
  | Throw e => Throw e
  | Vis ev k => Vis (Api ev) (fun x => api (k x))
  end.

(** [moveToBE] of api/mt5.ts. *)
Definition moveToBE (request : MoveToBERequest) : Prog panelAction OrderResponse :=
  Vis (PostMoveToBE "/mt5/move-to-be" request)
      (fun r => match r with inl e => Throw e | inr response_data => Ret response_data end).

Definition error_text (error : exn) : string :=
  match error with
  | ErrorObj message => message
  | Thrown => "Network error"
  end.

Definition handleTP1Now (positionTicket : option Z) (position : option (PositionInfo num))
    (partialPercentLocal : num) (armed moveToBEEnabled : bool) (beBufferPips : num)
  : Prog panelAction unit :=
  match positionTicket with
  | None => Ret tt
  | Some positionTicket =>
      trigger (PanelSetLoading (Some "tp1")) ;;
      try_finally
        (try_catch
           (await res := api (partialClose {| pc_position_ticket := Some positionTicket;
                                              pc_percent := Some partialPercentLocal;
                                              pc_ticket := None;
                                              pc_volume := None;
                                              pc_ui_armed := armed |}) in
            if negb (success res) then
              match applyTp1HintFromPartialClose position res with
              | Some hint => trigger (PanelSetTp1Hint (Some hint))
              | None => Ret tt
              end ;;
              trigger (ActionComplete "tp1" false
                         (Text (or_else (error res) "TP1 execution failed")))
            else
              trigger (PanelSetTp1Done true) ;;
              trigger (PanelSetTp1Hint None) ;;
              let closed := nullish (close_volume res) (requested_volume res) in
              if moveToBEEnabled then
                await beRes := moveToBE {| mbe_position_ticket := positionTicket;
                                           mbe_buffer_pips := beBufferPips;
                                           mbe_ui_armed := armed |} in
                trigger (ActionComplete "tp1" true
                           (Tp1Executed closed
                              (if success beRes then BeMoved
                               else BeFailed (or_else (error beRes) "unknown error"))))
              else trigger (ActionComplete "tp1" true (Tp1Executed closed BeNotRequested)))
           (fun error => trigger (ActionComplete "tp1" false (Text (error_text error)))))
        (trigger (PanelSetLoading None))
  end.

Definition handleMoveToBE (positionTicket : option Z) (armed : bool) (beBufferPips : num)
  : Prog panelAction unit :=
  match positionTicket with
  | None => Ret tt
  | Some positionTicket =>
      trigger (PanelSetLoading (Some "be")) ;;
      try_finally
        (try_catch
           (await res := moveToBE {| mbe_position_ticket := positionTicket;
                                     mbe_buffer_pips := beBufferPips;
                                     mbe_ui_armed := armed |} in
            if success res
            then trigger (ActionComplete "move_be" true (Text "SL moved to BE"))
            else trigger (ActionComplete "move_be" false
                            (Text (or_else (error res) "Move to BE failed"))))
           (fun error => trigger (ActionComplete "move_be" false (Text (error_text error)))))
        (trigger (PanelSetLoading None))
  end.

Definition handleClosePosition (positionTicket : option Z) (armed : bool)
  : Prog panelAction unit :=
  match positionTicket with
  | None => Ret tt
  | Some positionTicket =>
      trigger (PanelSetLoading (Some "close")) ;;
      try_finally
        (try_catch
           (await res := api (closePosition positionTicket armed) in
            if success res
            then trigger (ActionComplete "close" true
                            (PositionClosed positionTicket
                               (nullish (close_volume res) (position_volume res))))
            else trigger (ActionComplete "close" false
                            (Text (or_else (error res) "Close position failed"))))
           (fun error => trigger (ActionComplete "close" false (Text (error_text error)))))
        (trigger (PanelSetLoading None))
  end.

(** The armed flag carried by a request of a handler, if the event is one. *)
Definition request_armed {X : Type} (ev : panelAction X) : option bool :=
  match ev with
  | Api (ApiPost _ (OrderBody request)) => Some (or_ui_armed request)
  | Api (ApiPost _ (PartialCloseBody request)) => Some (pc_ui_armed request)
  | PostMoveToBE _ request => Some (mbe_ui_armed request)
  | _ => None
  end.

Definition is_request (r : raised panelAction) : bool :=
  match request_armed (projT2 r) with
  | Some _ => true
  | None => false
  end.

Definition is_action_complete (r : raised panelAction) : bool :=
  match projT2 r with
  | ActionComplete _ _ _ => true
  | _ => false
  end.

End PanelHandlers.

Arguments MoveToBERequest : clear implicits.
Arguments Tp1Hint : clear implicits.
Arguments PanelMessage : clear implicits.
Arguments panelAction : clear implicits.

(** ** Statements about the action handlers *)

Definition is_move_to_be {num} (r : raised (panelAction num)) : bool :=
  match projT2 r with
  | PostMoveToBE _ _ => true
  | _ => false
  end.

Definition sets_tp1_done {num} (r : raised (panelAction num)) : bool :=
  match projT2 r with
  | PanelSetTp1Done true => true
  | _ => false
  end.

(** The action and the success flag of a call of [onActionComplete]. *)
Definition reported {num} (r : raised (panelAction num)) : option (string * bool) :=
  match projT2 r with
  | ActionComplete action success _ => Some (action, success)
  | _ => None
  end.

(** The loading state set by an event, if it sets one. *)
Definition sets_loading {num} (r : raised (panelAction num)) : option (option string) :=
  match projT2 r with
  | PanelSetLoading loading => Some loading
  | _ => None
  end.

(** The body of the request of "TP1 now". *)
Definition tp1_request {num} (positionTicket : Z) (partialPercentLocal : num) (armed : bool)
  : PartialCloseRequest num :=
  {| pc_position_ticket := Some positionTicket; pc_percent := Some partialPercentLocal;
     pc_ticket := None; pc_volume := None; pc_ui_armed := armed |}.

(** ** Statements about the poll *)

(** The numeric timestamp of the last TP1 event that a poll returns. *)
Definition polled_tp1 {num} (fetched : exn + WatcherStatus num) : option num :=
  match fetched with
  | inl _ => None
  | inr status =>
      match last_tp1_event status with
      | Some tp1Evt => tp1e_timestamp tp1Evt
      | None => None
      end
  end.

(** ** utils/symbolDefaults.ts: the known defaults *)

Definition KNOWN_DEFAULTS : list Q := [30; 50; 300; 500]%Q.

(** [isDefaultValue]: [Set.prototype.has] on a number. *)
Definition isDefaultValue (value : parsed) : bool :=
  match value with
  | Finite q => existsb (Qeq_bool q) KNOWN_DEFAULTS
  | _ => false
  end.

(** ** components/PostOrderPanel.tsx: the percent input *)

(** The [onChange] of the percent input: [v] is [Number(e.target.value)]. *)
Definition onPercentChange (v : parsed) (partialPercentLocal : Q) : Q :=
  match v with
  | Finite v => Math_max 1%Q (Math_min 100%Q v)
  | _ => partialPercentLocal
  end.

(** ** components/SymbolsPanel.tsx *)

Section SymbolsPanel.
Context {num : Type} `{Number num}.
Local Open Scope num_scope.

(** The fields of a symbol row that the pip computation reads. *)
Record SymbolRow := {
  row_name : string;
  row_trade_contract_size : option num;
  row_pip_size : option num;
  row_pip_value_per_lot : option num
}.

(** [/a|b|.../i.test(name)]: some alternative occurs in [name], letter case
    ignored. *)
Definition test_ci (alternatives : list string) (name : string) : bool :=
  existsb (fun a => match String.index 0 a (toUpperCase name) with
                    | Some _ => true
                    | None => false
                    end) alternatives.

(** The pip size of the fallback calculation. *)
Definition fallback_pip_size (name : string) : num :=
  if test_ci ["BTC"; "XBT"; "ETH"; "LTC"; "XRP"] name then of_Q 1.0
  else if test_ci ["XAU"; "GOLD"] name then of_Q 0.1
  else if test_ci ["JPY"] name then of_Q 0.01
  else of_Q 0.0001.

(** [getPipValues]: the pair [(pip_size, pip_value_per_1_lot)]. *)
Definition getPipValues (s : SymbolRow) : num * num :=
  match row_pip_size s, row_pip_value_per_lot s with
  | Some pip_size, Some pip_value_per_lot => (pip_size, pip_value_per_lot)
  | _, _ =>
      let name := row_name s in
      let contract := or_default (row_trade_contract_size s) (of_Q 1) in
      let pip_size := fallback_pip_size name in
      (pip_size, contract * pip_size)
  end.

(** [applySelected] on the rows that are selected: the settings after
    [updateSettings]; nothing changes when no row is selected. *)
Definition applySelected (chosen : list SymbolRow) (settings : AppSettings num)
  : AppSettings num :=
  match chosen with
  | [] => settings
  | _ =>
      let presets := List.map (fun s => {| sp_symbol := row_name s;
                                           sp_pip_value_per_1_lot := snd (getPipValues s);
                                           sp_pip_size := fst (getPipValues s) |}) chosen in
      let stillValid := existsb (fun p => String.eqb (sp_symbol p) (active_symbol settings))
                                presets in
      {| max_stop_pips := max_stop_pips settings;
         tp1_pips := tp1_pips settings;
         partial_percent := partial_percent settings;
         move_to_be_enabled := move_to_be_enabled settings;
         be_buffer_pips := be_buffer_pips settings;
         min_volume := min_volume settings;
         volume_step_setting := volume_step_setting settings;
         symbol_presets := presets;
         active_symbol := if stillValid then active_symbol settings else "";
         theme := theme settings |}
  end.

End SymbolsPanel.

Arguments SymbolRow : clear implicits.

(** The answer to a partial close that the backend refused without
    reporting volumes. *)
Definition refused_response {num} : PartialCloseResponse num :=
  {| order_response := {| success := false; ticket := None; order_ticket := None;
                          position_ticket := Some 7; error := Some "blocked" |};
     symbol := Some "EURUSD"; position_volume := None; percent := None;
     requested_volume := None; close_volume := None; remaining_volume := None;
     blocked_reason := Some "normalized amount is zero"; volume_min := None;
     volume_step := None; mt5_retcode := None; mt5_comment := None |}.

(** Two rows of the symbol table: one with the pip values of the server,
    one without. *)
Definition sample_rows : list (SymbolRow Q) :=
  [{| row_name := "XAUUSD"; row_trade_contract_size := Some 100%Q;
      row_pip_size := Some 0.1%Q; row_pip_value_per_lot := Some 10%Q |};
   {| row_name := "USDJPY"; row_trade_contract_size := Some 100000%Q;
      row_pip_size := None; row_pip_value_per_lot := None |}].

(** ** Binary64 numbers, counted in units of 2^-1074 *)

Module Binary64.

(** What [n] right shifts of [m] leave: the quotient, and whether anything
    was shifted out. *)
Definition shifted (m n : Z) (mrs : SpecFloat.shr_record) : Prop :=
  0 <= SpecFloat.shr_m mrs
  /\ SpecFloat.shr_m mrs * 2 ^ n <= m < (SpecFloat.shr_m mrs + 1) * 2 ^ n
  /\ (SpecFloat.shr_r mrs || SpecFloat.shr_s mrs = true <-> SpecFloat.shr_m mrs * 2 ^ n < m).

(** A finite binary64 float in units of [2^-1074]. *)
Definition ulps (m : Pos.t) (e : Z) : Z := Z.pos m * 2 ^ (e + 1074).

(** The value of a zero or finite float in units of [2^-1074]. *)
Definition units (x : SpecFloat.spec_float) : Z :=
  match x with
  | SpecFloat.S754_finite s m e => SpecFloat.cond_Zopp s (ulps m e)
  | _ => 0
  end.

Definition is_number (x : SpecFloat.spec_float) : bool :=
  match x with
  | SpecFloat.S754_zero _ | SpecFloat.S754_finite _ _ _ => true
  | _ => false
  end.


End Binary64.

(** * Properties *)

(** ** Comparisons of the exact instance *)

Lemma Q_ltb_true (x y : Q) : (x <? y)%num = true <-> (x < y)%Q.
Proof.
  cbn. rewrite negb_true_iff. split.
  - intros Hb. apply Qnot_le_lt. intros Hle. apply Qle_bool_iff in Hle. congruence.
  - intros Hlt. destruct (Qle_bool y x) eqn:Hb; [|reflexivity].
    apply Qle_bool_iff in Hb. exfalso. exact (Qlt_not_le _ _ Hlt Hb).
Qed.

Lemma Q_ltb_false (x y : Q) : (x <? y)%num = false <-> (y <= x)%Q.
Proof.
  cbn. rewrite negb_false_iff. apply Qle_bool_iff.
Qed.

Lemma Q_leb_true (x y : Q) : (x <=? y)%num = true <-> (x <= y)%Q.
Proof. cbn. apply Qle_bool_iff. Qed.

Lemma Q_leb_false (x y : Q) : (x <=? y)%num = false <-> (y < x)%Q.
Proof.
  cbn. split.
  - intros Hb. apply Qnot_le_lt. intros Hle. apply Qle_bool_iff in Hle. congruence.
  - intros Hlt. destruct (Qle_bool x y) eqn:Hb; [|reflexivity].
    apply Qle_bool_iff in Hb. exfalso. exact (Qlt_not_le _ _ Hlt Hb).
Qed.

(** ** Binary64 arithmetic: rounding never crosses a number of the format

    The operations of the kernel's floats are specified by [SpecFloat]; the
    lemmas below read its rounding off in units of 2^-1074 and conclude that
    a difference [x - d] with [d] not negative is never above [x], a sum
    never below, and that the difference of two distinct numbers is never
    zero. *)

Module Binary64Facts.
Import SpecFloat Binary64.
Local Open Scope Z_scope.

Abbreviation prec := FloatOps.prec.
Abbreviation emax := FloatOps.emax.

(** Turns the powers into atoms for [lia]. *)
Ltac hide_pow :=
  repeat match goal with
  | |- context [Z.pow ?b ?e] =>
      let x := fresh "pw" in set (x := Z.pow b e) in *; clearbody x
  | H : context [Z.pow ?b ?e] |- _ =>
      let x := fresh "pw" in set (x := Z.pow b e) in *; clearbody x
  end.

Lemma digits2_pos_bounds (p : Pos.t) :
  2 ^ (Z.pos (digits2_pos p) - 1) <= Z.pos p < 2 ^ Z.pos (digits2_pos p).
Proof.
  induction p as [p IH | p IH |]; cbn [digits2_pos].
  - rewrite Pos2Z.inj_succ, (Pos2Z.inj_xI p).
    replace (Z.succ (Z.pos (digits2_pos p)) - 1) with (Z.succ (Z.pos (digits2_pos p) - 1)) by lia.
    rewrite !Z.pow_succ_r by lia. hide_pow. lia.
  - rewrite Pos2Z.inj_succ, (Pos2Z.inj_xO p).
    replace (Z.succ (Z.pos (digits2_pos p)) - 1) with (Z.succ (Z.pos (digits2_pos p) - 1)) by lia.
    rewrite !Z.pow_succ_r by lia. hide_pow. lia.
  - cbn. lia.
Qed.

Lemma digits2_pos_unique (p : Pos.t) (k : Z) :
  2 ^ (k - 1) <= Z.pos p < 2 ^ k -> Z.pos (digits2_pos p) = k.
Proof.
  intros [Hlo Hhi]. pose proof (digits2_pos_bounds p) as [Hlo' Hhi'].
  assert (0 < k).
  { destruct (Z.ltb_spec 0 k) as [|Hk]; [assumption|].
    exfalso. destruct (Z.eq_dec k 0) as [-> | Hne].
    - cbn in Hhi. lia.
    - rewrite Z.pow_neg_r in Hhi by lia. lia. }
  assert (k - 1 < Z.pos (digits2_pos p)).
  { apply (Z.pow_lt_mono_r_iff 2); lia. }
  assert (Z.pos (digits2_pos p) - 1 < k).
  { apply (Z.pow_lt_mono_r_iff 2); lia. }
  lia.
Qed.

Lemma iter_pos_invariant {A} (f : A -> A) (P : Z -> A -> Prop) :
  (forall k x, 0 <= k -> P k x -> P (k + 1) (f x)) ->
  forall p k x, 0 <= k -> P k x -> P (k + Z.pos p) (iter_pos f p x).
Proof.
  intros Hstep. induction p as [p IH | p IH |]; intros k x Hk Hx; cbn [iter_pos].
  - replace (k + Z.pos p~1) with (k + 1 + Z.pos p + Z.pos p) by lia.
    apply IH; [lia|]. apply IH; [lia|]. apply Hstep; assumption.
  - replace (k + Z.pos p~0) with (k + Z.pos p + Z.pos p) by lia.
    apply IH; [lia|]. apply IH; assumption.
  - apply Hstep; assumption.
Qed.

Lemma shifted_shr_1 (m n : Z) (mrs : shr_record) :
  0 <= n -> shifted m n mrs -> shifted m (n + 1) (shr_1 mrs).
Proof.
  intros Hn (Hq & Hm & Hrs). destruct mrs as [q r s]. cbn [shr_m shr_r shr_s] in *.
  assert (Hg : 0 < 2 ^ n) by (apply Z.pow_pos_nonneg; lia).
  assert (Hp : 2 ^ (n + 1) = 2 * 2 ^ n) by (rewrite Z.pow_add_r, Z.pow_1_r by lia; lia).
  unfold shifted, shr_1. rewrite Hp. clear Hp. hide_pow.
  assert (Hrs' : r || s = false -> m = q * pw) by (destruct (r || s); [discriminate | lia]).
  assert (Hrs'' : r || s = true -> q * pw < m) by (apply Hrs).
  clear Hrs.
  destruct q as [|[p|p|]|p]; cbn [shr_m shr_r shr_s]; try lia;
    rewrite ?(Pos2Z.inj_xI p), ?(Pos2Z.inj_xO p) in *;
    (split; [lia|]); (split; [lia|]);
    destruct r, s; cbn [orb] in *; split; intros Hx; try reflexivity; try discriminate;
    try specialize (Hrs' eq_refl); try specialize (Hrs'' eq_refl); try lia.
Qed.

Lemma shifted_0 (m : Z) : 0 <= m -> shifted m 0 (Build_shr_record m false false).
Proof.
  intros Hm. unfold shifted. cbn [shr_m shr_r shr_s orb]. rewrite Z.pow_0_r.
  repeat split; try lia; discriminate.
Qed.

Lemma shr_spec (m e n : Z) :
  0 <= m ->
  exists mrs, shr (Build_shr_record m false false) e n = (mrs, e + Z.max 0 n)
              /\ shifted m (Z.max 0 n) mrs.
Proof.
  intros Hm. destruct n as [|p|p]; cbn [shr].
  - eexists. split; [f_equal; lia | apply shifted_0, Hm].
  - eexists. split; [f_equal; lia|].
    replace (Z.max 0 (Z.pos p)) with (0 + Z.pos p) by lia.
    apply (iter_pos_invariant shr_1 (shifted m)); [|lia | apply shifted_0, Hm].
    intros k x Hk Hx. apply shifted_shr_1; assumption.
  - eexists. split; [f_equal; lia | apply shifted_0, Hm].
Qed.

Lemma round_nearest_even_spec (m n : Z) (mrs : shr_record) :
  shifted m n mrs ->
  round_nearest_even (shr_m mrs) (loc_of_shr_record mrs) = shr_m mrs
  \/ round_nearest_even (shr_m mrs) (loc_of_shr_record mrs) = shr_m mrs + 1
     /\ shr_m mrs * 2 ^ n < m.
Proof.
  intros (Hq & Hm & Hrs). destruct mrs as [q r s]. cbn [shr_m shr_r shr_s] in *.
  destruct r, s; cbn [loc_of_shr_record round_nearest_even orb] in *.
  - right. split; [reflexivity | apply Hrs; reflexivity].
  - destruct (Z.even q); [left; reflexivity|].
    right. split; [reflexivity | apply Hrs; reflexivity].
  - left. reflexivity.
  - left. reflexivity.
Qed.

Lemma fexp_eq (x : Z) : fexp prec emax x = Z.max (x - 53) (-1074).
Proof. reflexivity. Qed.

Lemma digits_le_53 (p : Pos.t) : Z.pos p < 2 ^ 53 -> Z.pos (digits2_pos p) <= 53.
Proof.
  intros Hp. pose proof (digits2_pos_bounds p) as [Hlo _].
  assert (Z.pos (digits2_pos p) - 1 < 53); [|lia].
  apply (Z.pow_lt_mono_r_iff 2); lia.
Qed.

(** Rounding a positive mantissa whose exponent is not above the one of its
    format: the result lies on the grid of the format's exponent [e0], less
    than one grid step from the argument. *)
Lemma binary_round_aux_spec (s : bool) (m : Pos.t) (e : Z) :
  let e0 := Z.max (Z.pos (digits2_pos m) + e - 53) (-1074) in
  -1074 <= e <= e0 ->
  exists (m' : Pos.t) (e' : Z),
    binary_round_aux prec emax s (Z.pos m) e loc_Exact
    = (if e' <=? 971 then S754_finite s m' e' else S754_infinity s)
    /\ (e' = e0 \/ e' = e0 + 1 /\ Z.pos m' = 2 ^ 52)
    /\ (exists k, Z.pos m' * 2 ^ (e' - e) = k * 2 ^ (e0 - e))
    /\ Z.pos m' * 2 ^ (e' - e) - 2 ^ (e0 - e) < Z.pos m
       < Z.pos m' * 2 ^ (e' - e) + 2 ^ (e0 - e).
Proof.
  intros e0 He. unfold binary_round_aux, shr_fexp.
  cbn [Zdigits2 shr_record_of_loc]. rewrite fexp_eq. fold e0.
  assert (He0' : e0 = Z.max (Z.pos (digits2_pos m) + e - 53) (-1074)) by reflexivity.
  clearbody e0.
  destruct (shr_spec (Z.pos m) e (e0 - e)) as (mrs & -> & Hsh); [lia|].
  replace (Z.max 0 (e0 - e)) with (e0 - e) in * by lia.
  replace (e + (e0 - e)) with e0 by lia.
  pose proof (digits2_pos_bounds m) as [Hlo Hhi].
  set (d := Z.pos (digits2_pos m)) in *.
  assert (Hg : 0 < 2 ^ (e0 - e)) by (apply Z.pow_pos_nonneg; lia).
  (* the quotient has at most 53 bits *)
  assert (Hq : 1 <= shr_m mrs < 2 ^ 53).
  { destruct Hsh as (Hq0 & Hm & _).
    destruct (Z.eq_dec e0 e) as [Heq | Hne].
    - rewrite Heq, Z.sub_diag, Z.pow_0_r in Hm.
      assert (d <= 53) by lia.
      assert (2 ^ d <= 2 ^ 53) by (apply Z.pow_le_mono_r; lia). lia.
    - assert (He0 : e0 = d + e - 53) by lia.
      assert (Hd : 2 ^ d = 2 ^ 53 * 2 ^ (e0 - e))
        by (rewrite <- Z.pow_add_r by lia; f_equal; lia).
      assert (Hd' : 2 ^ (d - 1) = 2 ^ 52 * 2 ^ (e0 - e))
        by (rewrite <- Z.pow_add_r by lia; f_equal; lia).
      rewrite Hd in Hhi. rewrite Hd' in Hlo.
      split; nia. }
  destruct (round_nearest_even_spec _ _ _ Hsh) as [Hr | [Hr Hlt]]; rewrite Hr.
  - (* the quotient itself *)
    destruct (shr_m mrs) as [|q|q] eqn:Hq'; try lia.
    cbn [Zdigits2]. rewrite fexp_eq.
    pose proof (digits_le_53 q (proj2 Hq)) as Hdq.
    destruct (shr_spec (Z.pos q) e0 (Z.max (Z.pos (digits2_pos q) + e0 - 53) (-1074) - e0))
      as (mrs2 & -> & Hsh2); [lia|].
    replace (Z.max 0 _) with 0 in * by lia.
    destruct Hsh2 as (_ & Hm2 & _). rewrite Z.pow_0_r in Hm2.
    assert (Hm2' : shr_m mrs2 = Z.pos q) by lia. rewrite Hm2'.
    exists q, e0. replace (e0 + 0) with e0 by lia.
    split; [reflexivity|]. split; [left; reflexivity|].
    destruct Hsh as (_ & Hm & _). rewrite Hq' in Hm.
    split; [exists (Z.pos q); reflexivity | lia].
  - (* one above the quotient *)
    destruct (Z.eq_dec (shr_m mrs + 1) (2 ^ 53)) as [Hc | Hc].
    + (* carry into the next binade *)
      rewrite Hc. change (2 ^ 53) with (Z.pos (xO (Z.to_pos (2 ^ 52)))).
      cbn [Zdigits2].
      assert (Hd54 : Z.pos (digits2_pos (xO (Z.to_pos (2 ^ 52)))) = 54)
        by (vm_compute; reflexivity).
      rewrite Hd54, fexp_eq.
      replace (Z.max (54 + e0 - 53) (-1074) - e0) with 1 by lia.
      cbn [shr iter_pos shr_1 shr_m].
      exists (Z.to_pos (2 ^ 52)), (e0 + 1).
      split; [reflexivity|]. split; [right; split; reflexivity|].
      change (Z.pos (Z.to_pos (2 ^ 52))) with (2 ^ 52).
      replace (e0 + 1 - e) with (1 + (e0 - e)) by lia.
      rewrite Z.pow_add_r, Z.pow_1_r by lia.
      destruct Hsh as (_ & Hm & _).
      assert (Hq53 : shr_m mrs = 2 ^ 53 - 1) by lia. rewrite Hq53 in *.
      change (2 ^ 53) with 9007199254740992 in *. change (2 ^ 52) with 4503599627370496.
      split; [exists 9007199254740992; lia | lia].
    + destruct (shr_m mrs + 1) as [|q|q] eqn:Hq'; try lia.
      cbn [Zdigits2]. rewrite fexp_eq.
      assert (Hq53 : Z.pos q < 2 ^ 53) by lia.
      pose proof (digits_le_53 q Hq53) as Hdq.
      destruct (shr_spec (Z.pos q) e0 (Z.max (Z.pos (digits2_pos q) + e0 - 53) (-1074) - e0))
        as (mrs2 & -> & Hsh2); [lia|].
      replace (Z.max 0 _) with 0 in * by lia.
      destruct Hsh2 as (_ & Hm2 & _). rewrite Z.pow_0_r in Hm2.
      assert (Hm2' : shr_m mrs2 = Z.pos q) by lia. rewrite Hm2'.
      exists q, e0. replace (e0 + 0) with e0 by lia.
      split; [reflexivity|]. split; [left; reflexivity|].
      destruct Hsh as (_ & Hm & _).
      split; [exists (Z.pos q); reflexivity | nia].
Qed.

Lemma iter_xO_spec (m k : Pos.t) :
  Z.pos (Pos.iter xO m k) = Z.pos m * 2 ^ Z.pos k
  /\ Z.pos (digits2_pos (Pos.iter xO m k)) = Z.pos (digits2_pos m) + Z.pos k.
Proof.
  induction k as [|k [IH1 IH2]] using Pos.peano_ind.
  - cbn [Pos.iter digits2_pos]. rewrite (Pos2Z.inj_xO m), Pos2Z.inj_succ, Z.pow_1_r. lia.
  - rewrite Pos.iter_succ. cbn [digits2_pos].
    rewrite (Pos2Z.inj_xO (Pos.iter xO m k)), !Pos2Z.inj_succ, IH1, IH2.
    rewrite Z.pow_succ_r by lia. lia.
Qed.

Lemma shl_align_spec (m : Pos.t) (e e' : Z) :
  exists mz, shl_align m e e' = (mz, Z.min e e')
    /\ Z.pos mz = Z.pos m * 2 ^ (e - Z.min e e')
    /\ Z.pos (digits2_pos mz) = Z.pos (digits2_pos m) + (e - Z.min e e').
Proof.
  unfold shl_align. destruct (e' - e) as [|k|k] eqn:Hk.
  - exists m. replace (Z.min e e') with e by lia. rewrite Z.sub_diag, Z.pow_0_r.
    repeat split; lia.
  - exists m. replace (Z.min e e') with e by lia. rewrite Z.sub_diag, Z.pow_0_r.
    repeat split; lia.
  - exists (Pos.iter xO m k). replace (Z.min e e') with e' by lia.
    replace (e - e') with (Z.pos k) by lia.
    destruct (iter_xO_spec m k) as [H1 H2]. repeat split; assumption.
Qed.

(** The rounding of [m * 2^e] in units of [2^-1074]: the result lies on the
    grid of the exponent [e0] of the argument's binade, less than one grid
    step from the argument. *)
Lemma binary_round_spec (s : bool) (m : Pos.t) (e : Z) :
  -1074 <= e ->
  exists (m' : Pos.t) (e' e0 : Z),
    binary_round prec emax s m e
    = (if e' <=? 971 then S754_finite s m' e' else S754_infinity s)
    /\ e0 = Z.max (Z.pos (digits2_pos m) + e - 53) (-1074)
    /\ (e' = e0 \/ e' = e0 + 1 /\ Z.pos m' = 2 ^ 52)
    /\ (exists k, Z.pos m' * 2 ^ (e' + 1074) = k * 2 ^ (e0 + 1074))
    /\ Z.pos m' * 2 ^ (e' + 1074) - 2 ^ (e0 + 1074) < Z.pos m * 2 ^ (e + 1074)
       < Z.pos m' * 2 ^ (e' + 1074) + 2 ^ (e0 + 1074).
Proof.
  intros He. unfold binary_round. rewrite fexp_eq.
  set (e0 := Z.max (Z.pos (digits2_pos m) + e - 53) (-1074)).
  destruct (shl_align_spec m e e0) as (mz & -> & Hmz & Hdz).
  set (ez := Z.min e e0) in *.
  assert (Hez : -1074 <= ez) by lia.
  destruct (binary_round_aux_spec s mz ez) as (m' & e' & -> & He' & [k Hk] & Hm').
  { rewrite Hdz. lia. }
  rewrite Hdz in He', Hk, Hm'.
  replace (Z.pos (digits2_pos m) + (e - ez) + ez - 53)
    with (Z.pos (digits2_pos m) + e - 53) in * by lia.
  fold e0 in He', Hk, Hm'.
  exists m', e', e0. split; [reflexivity|]. split; [reflexivity|]. split; [exact He'|].
  assert (Hee : ez <= e') by lia.
  assert (H1 : 2 ^ (e' + 1074) = 2 ^ (e' - ez) * 2 ^ (ez + 1074))
    by (rewrite <- Z.pow_add_r by lia; f_equal; lia).
  assert (H2 : 2 ^ (e0 + 1074) = 2 ^ (e0 - ez) * 2 ^ (ez + 1074))
    by (rewrite <- Z.pow_add_r by lia; f_equal; lia).
  assert (H3 : 2 ^ (e + 1074) = 2 ^ (e - ez) * 2 ^ (ez + 1074))
    by (rewrite <- Z.pow_add_r by lia; f_equal; lia).
  assert (Hg : 0 < 2 ^ (ez + 1074)) by (apply Z.pow_pos_nonneg; lia).
  rewrite H1, H2, H3. rewrite Hmz in Hm'.
  split; [exists k; rewrite Z.mul_assoc, Hk; ring|].
  hide_pow. nia.
Qed.

Lemma bounded_spec (m : Pos.t) (e : Z) :
  bounded prec emax m e = true
  <-> e = Z.max (Z.pos (digits2_pos m) + e - 53) (-1074) /\ e <= 971.
Proof.
  unfold bounded, canonical_mantissa. rewrite fexp_eq, andb_true_iff, Z.eqb_eq, Z.leb_le.
  change (emax - prec) with 971. split; intros [H1 H2]; split; lia.
Qed.

Lemma bounded_ulps (m : Pos.t) (e : Z) :
  bounded prec emax m e = true ->
  -1074 <= e <= 971
  /\ 0 < ulps m e < 2 ^ (Z.pos (digits2_pos m) + e + 1074)
  /\ 2 ^ (Z.pos (digits2_pos m) + e + 1073) <= ulps m e
  /\ Z.pos (digits2_pos m) <= 53
  /\ (-1074 < e -> Z.pos (digits2_pos m) = 53).
Proof.
  intros Hb. apply bounded_spec in Hb as [He He'].
  pose proof (digits2_pos_bounds m) as [Hlo Hhi].
  assert (Hg : 0 < 2 ^ (e + 1074)) by (apply Z.pow_pos_nonneg; lia).
  assert (Hd : 0 < Z.pos (digits2_pos m)) by lia.
  unfold ulps.
  replace (Z.pos (digits2_pos m) + e + 1074) with (Z.pos (digits2_pos m) + (e + 1074)) by lia.
  replace (Z.pos (digits2_pos m) + e + 1073) with (Z.pos (digits2_pos m) - 1 + (e + 1074)) by lia.
  rewrite (Z.pow_add_r 2 (Z.pos (digits2_pos m)) (e + 1074)),
    (Z.pow_add_r 2 (Z.pos (digits2_pos m) - 1) (e + 1074)) by lia.
  repeat split; try lia; hide_pow; nia.
Qed.

(** Rounding does not cross a float of the format: downwards ... *)
Lemma binary_round_le (s : bool) (m f : Pos.t) (e ef : Z) :
  -1074 <= e -> bounded prec emax f ef = true ->
  Z.pos m * 2 ^ (e + 1074) <= ulps f ef ->
  exists m' e', binary_round prec emax s m e = S754_finite s m' e'
                /\ ulps m' e' <= ulps f ef.
Proof.
  intros He Hb Hle.
  destruct (bounded_ulps f ef Hb) as (Hef & [Hf0 Hfhi] & Hflo & Hdf & Hnorm).
  apply bounded_spec in Hb as [Hcan _].
  destruct (binary_round_spec s m e He) as (m' & e' & e0 & -> & He0 & He' & [k Hk] & Hm').
  pose proof (digits2_pos_bounds m) as [Hlo Hhi].
  set (d := Z.pos (digits2_pos m)) in *. set (df := Z.pos (digits2_pos f)) in *.
  assert (Hd : 0 < d) by (unfold d; lia).
  (* the argument's binade is not above the bound's *)
  assert (Hde : d + e <= df + ef).
  { assert (Hp : 2 ^ (d - 1 + (e + 1074)) < 2 ^ (df + ef + 1074)).
    { rewrite Z.pow_add_r by lia.
      assert (0 < 2 ^ (e + 1074)) by (apply Z.pow_pos_nonneg; lia).
      hide_pow. nia. }
    apply Z.pow_lt_mono_r_iff in Hp; lia. }
  assert (He0f : e0 <= ef) by lia.
  assert (Hg0 : 0 < 2 ^ (e0 + 1074)) by (apply Z.pow_pos_nonneg; lia).
  assert (Hgrid : ulps f ef = Z.pos f * 2 ^ (ef - e0) * 2 ^ (e0 + 1074)).
  { unfold ulps. rewrite <- Z.mul_assoc, <- Z.pow_add_r by lia. do 2 f_equal. lia. }
  assert (Hv : ulps m' e' <= ulps f ef).
  { unfold ulps at 1. rewrite Hk, Hgrid. rewrite Hk, Hgrid in *.
    apply Z.mul_le_mono_nonneg_r; [lia|].
    assert (k * 2 ^ (e0 + 1074) < (Z.pos f * 2 ^ (ef - e0) + 1) * 2 ^ (e0 + 1074)) by lia.
    apply Z.mul_lt_mono_pos_r in H; lia. }
  assert (He'f : e' <= 971).
  { destruct He' as [-> | [-> Hm52]]; [lia|].
    unfold ulps at 1 in Hv. rewrite Hm52, <- Z.pow_add_r in Hv by lia.
    assert (Hp : 2 ^ (52 + (e0 + 1 + 1074)) < 2 ^ (53 + ef + 1074)).
    { eapply Z.le_lt_trans; [exact Hv|]. eapply Z.lt_le_trans; [exact Hfhi|].
      apply Z.pow_le_mono_r; lia. }
    apply Z.pow_lt_mono_r_iff in Hp; lia. }
  exists m', e'. split; [|exact Hv].
  destruct (e' <=? 971) eqn:Hb; [reflexivity | apply Z.leb_gt in Hb; lia].
Qed.

(** ... and upwards. *)
Lemma binary_round_ge (s : bool) (m f : Pos.t) (e ef : Z) :
  -1074 <= e -> bounded prec emax f ef = true ->
  ulps f ef <= Z.pos m * 2 ^ (e + 1074) ->
  binary_round prec emax s m e = S754_infinity s
  \/ exists m' e', binary_round prec emax s m e = S754_finite s m' e'
                   /\ ulps f ef <= ulps m' e'.
Proof.
  intros He Hb Hle.
  destruct (bounded_ulps f ef Hb) as (Hef & [Hf0 Hfhi] & Hflo & Hdf & Hnorm).
  apply bounded_spec in Hb as [Hcan _].
  destruct (binary_round_spec s m e He) as (m' & e' & e0 & -> & He0 & He' & [k Hk] & Hm').
  destruct (e' <=? 971); [right | left; reflexivity].
  exists m', e'. split; [reflexivity|].
  pose proof (digits2_pos_bounds m) as [Hlo Hhi].
  set (d := Z.pos (digits2_pos m)) in *. set (df := Z.pos (digits2_pos f)) in *.
  assert (Hd : 0 < d) by (unfold d; lia).
  assert (Hdf0 : 0 < df) by (unfold df; lia).
  assert (Hde : df + ef <= d + e).
  { assert (Hp : 2 ^ (df + ef + 1073) < 2 ^ (d + (e + 1074))).
    { rewrite (Z.pow_add_r 2 d) by lia.
      assert (0 < 2 ^ (e + 1074)) by (apply Z.pow_pos_nonneg; lia).
      hide_pow. nia. }
    apply Z.pow_lt_mono_r_iff in Hp; lia. }
  assert (He0f : ef <= e0) by lia.
  assert (Hg0 : 0 < 2 ^ (e0 + 1074)) by (apply Z.pow_pos_nonneg; lia).
  unfold ulps at 2. rewrite Hk. rewrite Hk in Hm'.
  destruct (Z.eq_dec ef e0) as [Heq | Hne].
  - (* same grid *)
    unfold ulps in *. rewrite Heq in *.
    apply Z.mul_le_mono_nonneg_r; [lia|].
    assert (H : (Z.pos f - 1) * 2 ^ (e0 + 1074) < k * 2 ^ (e0 + 1074)) by lia.
    apply Z.mul_lt_mono_pos_r in H; lia.
  - (* the argument is in a higher binade, whose least float is on its grid *)
    assert (Hd53 : e0 = d + e - 53) by lia.
    assert (Hlow : 2 ^ 52 * 2 ^ (e0 + 1074) <= Z.pos m * 2 ^ (e + 1074)).
    { rewrite <- Z.pow_add_r by lia.
      replace (52 + (e0 + 1074)) with (d - 1 + (e + 1074)) by lia.
      rewrite Z.pow_add_r by lia.
      assert (0 < 2 ^ (e + 1074)) by (apply Z.pow_pos_nonneg; lia).
      hide_pow. nia. }
    assert (Hk52 : 2 ^ 52 <= k).
    { assert (H : (2 ^ 52 - 1) * 2 ^ (e0 + 1074) < k * 2 ^ (e0 + 1074)) by lia.
      apply Z.mul_lt_mono_pos_r in H; lia. }
    assert (Hf : ulps f ef < 2 ^ 52 * 2 ^ (e0 + 1074)).
    { eapply Z.lt_le_trans; [exact Hfhi|]. rewrite <- Z.pow_add_r by lia.
      apply Z.pow_le_mono_r; lia. }
    assert (2 ^ 52 * 2 ^ (e0 + 1074) <= k * 2 ^ (e0 + 1074))
      by (apply Z.mul_le_mono_nonneg_r; lia).
    lia.
Qed.

Lemma ulps_pos (m : Pos.t) (e : Z) : -1074 <= e -> 0 < ulps m e.
Proof.
  intros He. unfold ulps.
  assert (0 < 2 ^ (e + 1074)) by (apply Z.pow_pos_nonneg; lia). lia.
Qed.

(** Floats of the format are ordered by exponent, then mantissa. *)
Lemma compare_ulps (m1 m2 : Pos.t) (e1 e2 : Z) :
  bounded prec emax m1 e1 = true -> bounded prec emax m2 e2 = true ->
  match e1 ?= e2 with
  | Lt => Lt
  | Gt => Gt
  | Eq => Pos.compare_cont Eq m1 m2
  end = (ulps m1 e1 ?= ulps m2 e2).
Proof.
  intros H1 H2.
  destruct (bounded_ulps m1 e1 H1) as (He1 & [Hp1 Hhi1] & Hlo1 & Hd1 & Hn1).
  destruct (bounded_ulps m2 e2 H2) as (He2 & [Hp2 Hhi2] & Hlo2 & Hd2 & Hn2).
  symmetry. destruct (Z.compare_spec e1 e2) as [Heq | Hlt | Hgt].
  - subst e2. unfold ulps.
    rewrite <- Zmult_compare_compat_r by (apply Z.lt_gt, Z.pow_pos_nonneg; lia).
    reflexivity.
  - apply Z.compare_lt_iff. rewrite Hn2 in Hlo2 by lia.
    eapply Z.lt_le_trans; [exact Hhi1|]. eapply Z.le_trans; [|exact Hlo2].
    apply Z.pow_le_mono_r; lia.
  - apply Z.compare_gt_iff. rewrite Hn1 in Hlo1 by lia.
    eapply Z.lt_le_trans; [exact Hhi2|]. eapply Z.le_trans; [|exact Hlo1].
    apply Z.pow_le_mono_r; lia.
Qed.

Lemma SFcompare_units (x y : spec_float) :
  valid_binary prec emax x = true -> valid_binary prec emax y = true ->
  is_number x = true -> is_number y = true ->
  SFcompare x y = Some (units x ?= units y).
Proof.
  intros Hx Hy Hnx Hny.
  destruct x as [sx | sx | | sx mx ex], y as [sy | sy | | sy my ey]; try discriminate;
    cbn [SFcompare units valid_binary] in *.
  - reflexivity.
  - pose proof (ulps_pos my ey (proj1 (proj1 (bounded_ulps _ _ Hy)))) as Hp.
    destruct sy; cbn [cond_Zopp]; f_equal; symmetry;
      [apply Z.compare_gt_iff | apply Z.compare_lt_iff]; lia.
  - pose proof (ulps_pos mx ex (proj1 (proj1 (bounded_ulps _ _ Hx)))) as Hp.
    destruct sx; cbn [cond_Zopp]; f_equal; symmetry;
      [apply Z.compare_lt_iff | apply Z.compare_gt_iff]; lia.
  - pose proof (ulps_pos mx ex (proj1 (proj1 (bounded_ulps _ _ Hx)))) as Hpx.
    pose proof (ulps_pos my ey (proj1 (proj1 (bounded_ulps _ _ Hy)))) as Hpy.
    pose proof (compare_ulps mx my ex ey Hx Hy) as Hc.
    pose proof (compare_ulps my mx ey ex Hy Hx) as Hc'.
    f_equal. destruct sx, sy; cbn [cond_Zopp].
    + rewrite Z.compare_opp, <- Hc', (Z.compare_antisym ex ey).
      change (Pos.compare_cont Eq my mx) with (Pos.compare_cont (CompOpp Eq) my mx).
      rewrite <- (Pos.compare_cont_antisym mx my Eq).
      destruct (ex ?= ey); reflexivity.
    + symmetry. apply Z.compare_lt_iff. lia.
    + symmetry. apply Z.compare_gt_iff. lia.
    + exact Hc.
Qed.

Lemma SFltb_units (x y : spec_float) :
  valid_binary prec emax x = true -> valid_binary prec emax y = true ->
  is_number x = true -> is_number y = true ->
  SFltb x y = (units x <? units y).
Proof.
  intros Hx Hy Hnx Hny. unfold SFltb, Z.ltb.
  rewrite (SFcompare_units x y Hx Hy Hnx Hny). reflexivity.
Qed.


(** [binary_normalize] never rounds across a float of the format. *)
Lemma binary_normalize_le (M e : Z) (x : spec_float) :
  -1074 <= e -> valid_binary prec emax x = true -> is_number x = true ->
  M * 2 ^ (e + 1074) <= units x ->
  binary_normalize prec emax M e false = S754_infinity true
  \/ is_number (binary_normalize prec emax M e false) = true
     /\ units (binary_normalize prec emax M e false) <= units x.
Proof.
  intros He Hx Hnx Hle.
  assert (Hg : 0 < 2 ^ (e + 1074)) by (apply Z.pow_pos_nonneg; lia).
  destruct M as [|m|m]; cbn [binary_normalize].
  - right. split; [reflexivity|]. cbn [units]. lia.
  - right. destruct x as [sx | sx | | sx mx ex]; try discriminate; cbn [units] in Hle; [lia|].
    cbn [valid_binary] in Hx.
    pose proof (ulps_pos mx ex (proj1 (proj1 (bounded_ulps _ _ Hx)))) as Hpx.
    destruct sx; cbn [cond_Zopp] in Hle; [lia|].
    destruct (binary_round_le false m mx e ex He Hx Hle) as (m' & e' & -> & Hv).
    split; [reflexivity | exact Hv].
  - destruct x as [sx | sx | | sx mx ex]; try discriminate; cbn [units] in *.
    + destruct (binary_round_spec true m e He) as (m' & e' & e0 & -> & He0 & He' & _).
      destruct (e' <=? 971); [right | left; reflexivity].
      split; [reflexivity|]. cbn [units cond_Zopp].
      assert (0 < ulps m' e') by (apply ulps_pos; destruct He' as [-> | [-> _]]; lia). lia.
    + cbn [valid_binary] in Hx.
      pose proof (ulps_pos mx ex (proj1 (proj1 (bounded_ulps _ _ Hx)))) as Hpx.
      destruct sx; cbn [cond_Zopp] in *.
      * assert (Hge : ulps mx ex <= Z.pos m * 2 ^ (e + 1074)) by lia.
        destruct (binary_round_ge true m mx e ex He Hx Hge) as [-> | (m' & e' & -> & Hv)];
          [left; reflexivity | right].
        split; [reflexivity|]. cbn [units cond_Zopp]. lia.
      * destruct (binary_round_spec true m e He) as (m' & e' & e0 & -> & He0 & He' & _).
        destruct (e' <=? 971); [right | left; reflexivity].
        split; [reflexivity|]. cbn [units cond_Zopp].
        assert (0 < ulps m' e') by (apply ulps_pos; destruct He' as [-> | [-> _]]; lia). lia.
Qed.

Lemma binary_normalize_ge (M e : Z) (x : spec_float) :
  -1074 <= e -> valid_binary prec emax x = true -> is_number x = true ->
  units x <= M * 2 ^ (e + 1074) ->
  binary_normalize prec emax M e false = S754_infinity false
  \/ is_number (binary_normalize prec emax M e false) = true
     /\ units x <= units (binary_normalize prec emax M e false).
Proof.
  intros He Hx Hnx Hle.
  assert (Hg : 0 < 2 ^ (e + 1074)) by (apply Z.pow_pos_nonneg; lia).
  destruct M as [|m|m]; cbn [binary_normalize].
  - right. split; [reflexivity|]. cbn [units]. lia.
  - destruct x as [sx | sx | | sx mx ex]; try discriminate; cbn [units] in *.
    + destruct (binary_round_spec false m e He) as (m' & e' & e0 & -> & He0 & He' & _).
      destruct (e' <=? 971); [right | left; reflexivity].
      split; [reflexivity|]. cbn [units cond_Zopp].
      assert (0 < ulps m' e') by (apply ulps_pos; destruct He' as [-> | [-> _]]; lia). lia.
    + cbn [valid_binary] in Hx.
      pose proof (ulps_pos mx ex (proj1 (proj1 (bounded_ulps _ _ Hx)))) as Hpx.
      destruct sx; cbn [cond_Zopp] in *.
      * destruct (binary_round_spec false m e He) as (m' & e' & e0 & -> & He0 & He' & _).
        destruct (e' <=? 971); [right | left; reflexivity].
        split; [reflexivity|]. cbn [units cond_Zopp].
        assert (0 < ulps m' e') by (apply ulps_pos; destruct He' as [-> | [-> _]]; lia). lia.
      * destruct (binary_round_ge false m mx e ex He Hx Hle) as [-> | (m' & e' & -> & Hv)];
          [left; reflexivity | right].
        split; [reflexivity | exact Hv].
  - right. destruct x as [sx | sx | | sx mx ex]; try discriminate; cbn [units] in Hle; [lia|].
    cbn [valid_binary] in Hx.
    pose proof (ulps_pos mx ex (proj1 (proj1 (bounded_ulps _ _ Hx)))) as Hpx.
    destruct sx; cbn [cond_Zopp] in Hle; [|lia].
    assert (Hle' : Z.pos m * 2 ^ (e + 1074) <= ulps mx ex) by lia.
    destruct (binary_round_le true m mx e ex He Hx Hle') as (m' & e' & -> & Hv).
    split; [reflexivity|]. cbn [units cond_Zopp]. lia.
Qed.


(** The mantissas of a difference or sum, aligned on the smaller exponent. *)
Lemma aligned_units (s : bool) (m : Pos.t) (e ez : Z) :
  -1074 <= ez <= e ->
  cond_Zopp s (Z.pos (fst (shl_align m e ez))) * 2 ^ (ez + 1074)
  = units (S754_finite s m e).
Proof.
  intros He. destruct (shl_align_spec m e ez) as (mz & -> & Hmz & _). cbn [fst units].
  replace (Z.min e ez) with ez in Hmz by lia. rewrite Hmz. unfold ulps.
  replace (e + 1074) with (e - ez + (ez + 1074)) by lia.
  rewrite (Z.pow_add_r 2 (e - ez) (ez + 1074)) by lia. destruct s; cbn [cond_Zopp]; ring.
Qed.

Lemma SFsub_finite (sx sy : bool) (mx my : Pos.t) (ex ey : Z) :
  bounded prec emax mx ex = true -> bounded prec emax my ey = true ->
  exists M e, SFsub prec emax (S754_finite sx mx ex) (S754_finite sy my ey)
              = binary_normalize prec emax M e false
    /\ -1074 <= e
    /\ M * 2 ^ (e + 1074) = units (S754_finite sx mx ex) - units (S754_finite sy my ey).
Proof.
  intros Hx Hy.
  pose proof (proj1 (bounded_ulps _ _ Hx)) as Hex.
  pose proof (proj1 (bounded_ulps _ _ Hy)) as Hey.
  eexists _, (Z.min ex ey). split; [reflexivity|]. split; [lia|].
  rewrite Z.mul_sub_distr_r, !aligned_units by lia. reflexivity.
Qed.

Lemma SFadd_finite (sx sy : bool) (mx my : Pos.t) (ex ey : Z) :
  bounded prec emax mx ex = true -> bounded prec emax my ey = true ->
  exists M e, SFadd prec emax (S754_finite sx mx ex) (S754_finite sy my ey)
              = binary_normalize prec emax M e false
    /\ -1074 <= e
    /\ M * 2 ^ (e + 1074) = units (S754_finite sx mx ex) + units (S754_finite sy my ey).
Proof.
  intros Hx Hy.
  pose proof (proj1 (bounded_ulps _ _ Hx)) as Hex.
  pose proof (proj1 (bounded_ulps _ _ Hy)) as Hey.
  eexists _, (Z.min ex ey). split; [reflexivity|]. split; [lia|].
  rewrite Z.mul_add_distr_r, !aligned_units by lia. reflexivity.
Qed.

Lemma SFcompare_refl (x : spec_float) : SFltb x x = false.
Proof.
  unfold SFltb. destruct x as [s | s | | s m e]; cbn [SFcompare]; try reflexivity.
  - destruct s; reflexivity.
  - rewrite Z.compare_refl.
    change (Pos.compare_cont Eq m m) with (Pos.compare m m). rewrite Pos.compare_refl.
    destruct s; reflexivity.
Qed.

(** Subtracting a number that is not negative never gives more ... *)
Lemma SFsub_not_above (x d : spec_float) :
  valid_binary prec emax x = true -> valid_binary prec emax d = true ->
  valid_binary prec emax (SFsub prec emax x d) = true ->
  SFltb d (S754_zero false) = false ->
  SFltb x (SFsub prec emax x d) = false.
Proof.
  intros Hx Hd Hr Hpos.
  destruct d as [sd | sd | | sd md ed];
    [| destruct sd; [discriminate|] | | destruct sd; [discriminate|]];
    destruct x as [sx | sx | | sx mx ex]; cbn [SFsub];
    try reflexivity; try apply SFcompare_refl;
    try (destruct sx; try destruct sd; reflexivity).
  - cbn [valid_binary] in Hx, Hd.
    destruct (SFsub_finite sx false mx md ex ed Hx Hd) as (M & e & HM & He & Hu).
    fold (SFsub prec emax (S754_finite sx mx ex) (S754_finite false md ed)) in *.
    rewrite HM in *.
    pose proof (ulps_pos md ed (proj1 (proj1 (bounded_ulps _ _ Hd)))) as Hpd.
    destruct (binary_normalize_le M e (S754_finite sx mx ex) He Hx eq_refl)
      as [-> | [Hn Hle]].
    + rewrite Hu. cbn [units cond_Zopp] in *. lia.
    + destruct sx; reflexivity.
    + rewrite SFltb_units; [apply Z.ltb_ge, Hle | exact Hx | exact Hr | reflexivity | exact Hn].
Qed.

(** ... and adding one never gives less. *)
Lemma SFadd_not_below (x d : spec_float) :
  valid_binary prec emax x = true -> valid_binary prec emax d = true ->
  valid_binary prec emax (SFadd prec emax x d) = true ->
  SFltb d (S754_zero false) = false ->
  SFltb (SFadd prec emax x d) x = false.
Proof.
  intros Hx Hd Hr Hpos.
  destruct d as [sd | sd | | sd md ed];
    [| destruct sd; [discriminate|] | | destruct sd; [discriminate|]];
    destruct x as [sx | sx | | sx mx ex]; cbn [SFadd];
    try reflexivity; try apply SFcompare_refl;
    try (destruct sx; try destruct sd; reflexivity).
  - cbn [valid_binary] in Hx, Hd.
    destruct (SFadd_finite sx false mx md ex ed Hx Hd) as (M & e & HM & He & Hu).
    fold (SFadd prec emax (S754_finite sx mx ex) (S754_finite false md ed)) in *.
    rewrite HM in *.
    pose proof (ulps_pos md ed (proj1 (proj1 (bounded_ulps _ _ Hd)))) as Hpd.
    destruct (binary_normalize_ge M e (S754_finite sx mx ex) He Hx eq_refl)
      as [-> | [Hn Hle]].
    + rewrite Hu. cbn [units cond_Zopp] in *. lia.
    + destruct sx; reflexivity.
    + rewrite SFltb_units; [apply Z.ltb_ge, Hle | exact Hr | exact Hx | exact Hn | reflexivity].
Qed.


(** A right shift of a mantissa that is not negative leaves one. *)
Lemma binary_round_aux_sign (s : bool) (m : Pos.t) (e : Z) :
  binary_round_aux prec emax s (Z.pos m) e loc_Exact = S754_zero s
  \/ binary_round_aux prec emax s (Z.pos m) e loc_Exact = S754_infinity s
  \/ exists m' e', binary_round_aux prec emax s (Z.pos m) e loc_Exact = S754_finite s m' e'.
Proof.
  unfold binary_round_aux, shr_fexp. cbn [shr_record_of_loc].
  destruct (shr_spec (Z.pos m) e (fexp prec emax (Zdigits2 (Z.pos m) + e) - e))
    as (mrs & -> & Hsh); [lia|].
  set (m2 := round_nearest_even (shr_m mrs) (loc_of_shr_record mrs)).
  assert (Hm2 : 0 <= m2).
  { destruct (round_nearest_even_spec _ _ _ Hsh) as [Hr | [Hr _]]; unfold m2; rewrite Hr;
      destruct Hsh as (Hq & _); lia. }
  destruct (shr_spec m2 (e + Z.max 0 (fexp prec emax (Zdigits2 (Z.pos m) + e) - e))
              (fexp prec emax (Zdigits2 m2 + (e + Z.max 0 (fexp prec emax (Zdigits2 (Z.pos m) + e) - e)))
               - (e + Z.max 0 (fexp prec emax (Zdigits2 (Z.pos m) + e) - e))))
    as (mrs2 & -> & (Hq2 & _)); [exact Hm2|].
  destruct (shr_m mrs2) as [|q|q]; try lia.
  - left. reflexivity.
  - destruct (_ <=? _); [right; right; eexists _, _; reflexivity | right; left; reflexivity].
Qed.

(** The product of two positive numbers is not negative (it may underflow
    to zero or overflow). *)
Lemma SFmul_nonneg (a b : spec_float) :
  SFltb (S754_zero false) a = true -> SFltb (S754_zero false) b = true ->
  SFleb (S754_zero false) (SFmul prec emax a b) = true.
Proof.
  intros Ha Hb.
  destruct a as [sa | sa | | sa ma ea]; try discriminate; destruct sa; try discriminate;
    destruct b as [sb | sb | | sb mb eb]; try discriminate; destruct sb; try discriminate;
    try reflexivity.
  cbn [SFmul xorb].
  destruct (binary_round_aux_sign false (ma * mb) (ea + eb)) as [-> | [-> | (m' & e' & ->)]];
    reflexivity.
Qed.

(** *** The same on the kernel's floats *)

Lemma Prim2SF_zero : FloatOps.Prim2SF PrimFloat.zero = S754_zero false.
Proof. reflexivity. Qed.

Lemma sub_not_above (x d : PrimFloat.float) :
  PrimFloat.ltb d PrimFloat.zero = false ->
  PrimFloat.ltb x (PrimFloat.sub x d) = false.
Proof.
  rewrite !FloatAxioms.ltb_spec, FloatAxioms.sub_spec, Prim2SF_zero. intros Hd.
  apply SFsub_not_above; try apply FloatAxioms.Prim2SF_valid; [|exact Hd].
  unfold FloatAxioms.SF64sub. rewrite <- FloatAxioms.sub_spec. apply FloatAxioms.Prim2SF_valid.
Qed.

Lemma add_not_below (x d : PrimFloat.float) :
  PrimFloat.ltb d PrimFloat.zero = false ->
  PrimFloat.ltb (PrimFloat.add x d) x = false.
Proof.
  rewrite !FloatAxioms.ltb_spec, FloatAxioms.add_spec, Prim2SF_zero. intros Hd.
  apply SFadd_not_below; try apply FloatAxioms.Prim2SF_valid; [|exact Hd].
  unfold FloatAxioms.SF64add. rewrite <- FloatAxioms.add_spec. apply FloatAxioms.Prim2SF_valid.
Qed.

Lemma mul_not_negative (a b : PrimFloat.float) :
  PrimFloat.ltb PrimFloat.zero a = true -> PrimFloat.ltb PrimFloat.zero b = true ->
  PrimFloat.ltb (PrimFloat.mul a b) PrimFloat.zero = false.
Proof.
  rewrite !FloatAxioms.ltb_spec, FloatAxioms.mul_spec, Prim2SF_zero. intros Ha Hb.
  pose proof (SFmul_nonneg _ _ Ha Hb) as Hm. unfold FloatAxioms.SF64mul.
  destruct (SFmul prec emax (FloatOps.Prim2SF a) (FloatOps.Prim2SF b)) as [s | s | | s m e];
    try discriminate; try reflexivity; destruct s; try discriminate; reflexivity.
Qed.

End Binary64Facts.

(** ** The volume precheck *)

(** The precheck of a resolved position always yields a result. *)
Lemma tp1Precheck_Some {num} `{Number num} (position : PositionInfo num) (pct : num) :
  exists r, tp1Precheck (Some position) pct = Some r.
Proof. eexists. reflexivity. Qed.

(** C2. With a positive minimum and a positive step the precheck computes
    requested = volume * (percent / 100), steps = floor((requested + 1e-12) / step)
    and normalized = steps * step, and it blocks the request whenever
    normalized <= 0 or normalized < volume_min; this holds for every number
    instance, exact or binary64. For volume 0.10, 5 percent, minimum 0.01 and
    step 0.01 the requested 0.005 normalizes to 0 and the request is blocked,
    in exact and in binary64 arithmetic. *)
Theorem C2_volume_normalizer {num} `{Number num} (position : PositionInfo num) (pct : num) :
  (pos_volume_min position >? of_Q 0)%num = true ->
  (pos_volume_step position >? of_Q 0)%num = true ->
  (exists r, tp1Precheck (Some position) pct = Some r
     /\ requested r = (pos_volume position * (pct / of_Q 100))%num
     /\ normalized r
        = (nfloor ((requested r + of_Q (1 # 1000000000000)) / pos_volume_step position)
           * pos_volume_step position)%num
     /\ ((normalized r <=? of_Q 0)%num = true
         \/ (normalized r <? pos_volume_min position)%num = true -> blocked r = true))
  /\ (exists r, tp1Precheck (num := Q) (Some (sample_position buy 0.10 1.1 5 0.0001 0.01 0.01)) 5%Q
                = Some r
        /\ (requested r == 0.005)%Q /\ (normalized r == 0)%Q /\ blocked r = true)
  /\ (exists r, tp1Precheck (num := PrimFloat.float)
                  (Some (sample_position buy 0.10 1.1 5 0.0001 0.01 0.01)) (of_Q 5) = Some r
        /\ PrimFloat.ltb (of_Q 0.00499999) (requested r) = true
        /\ PrimFloat.ltb (requested r) (of_Q 0.00500001) = true
        /\ normalized r = PrimFloat.zero /\ blocked r = true).
Proof.
  intros Hmin Hstep. split; [|split].
  - eexists. split; [reflexivity|]. cbn [requested normalized blocked].
    rewrite Hstep. repeat split.
    intros [Hz | Hm]; rewrite ?Hz, ?Hm; cbn; rewrite ?orb_true_r; reflexivity.
  - eexists. split; [reflexivity|]. vm_compute. repeat split; congruence.
  - eexists. split; [reflexivity|]. vm_compute. repeat split.
Qed.

Lemma C2_volume_normalizer_witness :
  exists r, tp1Precheck (num := PrimFloat.float)
              (Some (sample_position buy 0.10 1.1 5 0.0001 0.01 0.01)) (of_Q 5) = Some r
    /\ ((normalized r <=? of_Q 0)%num = true
        \/ (normalized r <? of_Q 0.01)%num = true -> blocked r = true).
Proof.
  assert (Hmin : (pos_volume_min (num := PrimFloat.float)
                    (sample_position buy 0.10 1.1 5 0.0001 0.01 0.01) >? of_Q 0)%num = true)
    by (vm_compute; reflexivity).
  assert (Hstep : (pos_volume_step (num := PrimFloat.float)
                     (sample_position buy 0.10 1.1 5 0.0001 0.01 0.01) >? of_Q 0)%num = true)
    by (vm_compute; reflexivity).
  destruct (C2_volume_normalizer (sample_position buy 0.10 1.1 5 0.0001 0.01 0.01) (of_Q 5)
              Hmin Hstep) as [[r (Hr & _ & _ & Hb)] _].
  exists r. split; [exact Hr | exact Hb].
Defined.

(** Replaces a precheck result by the record that [tp1Precheck] builds. *)
Ltac invert_precheck Hr :=
  cbv beta iota zeta delta [tp1Precheck] in Hr; apply (inj Some) in Hr; subst;
  cbv beta iota delta [requested normalized remaining min step blocked] in *.

(** The normalized volume is at most the requested volume plus the epsilon
    (exact arithmetic). *)
Lemma normalized_le_requested (position : PositionInfo Q) (pct : Q) (r : Precheck Q) :
  tp1Precheck (Some position) pct = Some r ->
  (0 < pos_volume_step position)%Q ->
  (normalized r <= requested r + (1 # 1000000000000))%Q.
Proof.
  intros Hr Hstep. invert_precheck Hr.
  apply Q_ltb_true in Hstep. cbn [of_Q Q_Number] in *. rewrite Hstep.
  apply Q_ltb_true in Hstep. cbn [nmul nfloor ndiv nadd Q_Number].
  set (x := (pos_volume position * (pct / 100) + (1 # 1000000000000))%Q).
  assert (Hx : (x / pos_volume_step position * pos_volume_step position == x)%Q).
  { field. intros Hz. rewrite Hz in Hstep. discriminate. }
  rewrite <- Hx at 2.
  apply Qmult_le_compat_r; [apply Qfloor_le | apply Qlt_le_weak; exact Hstep].
Qed.

(** A percentage in (0,100] requests no more than the owned volume. *)
Lemma requested_le_owned (position : PositionInfo Q) (pct : Q) (r : Precheck Q) :
  tp1Precheck (Some position) pct = Some r ->
  (0 < pos_volume position)%Q -> (0 < pct)%Q -> (pct <= 100)%Q ->
  (requested r <= pos_volume position)%Q.
Proof.
  intros Hr Hv Hp Hp'. invert_precheck Hr. cbn [nmul ndiv of_Q Q_Number].
  assert (H1 : (pct / 100 <= 1)%Q).
  { apply Qle_shift_div_r; [reflexivity | lra]. }
  nra.
Qed.

(** What an unblocked precheck says about its numbers (exact arithmetic). *)
Lemma unblocked_inv (position : PositionInfo Q) (pct : Q) (r : Precheck Q) :
  tp1Precheck (Some position) pct = Some r ->
  blocked r = false ->
  (0 < normalized r)%Q
  /\ (pos_volume_min position <= normalized r)%Q
  /\ (remaining r <= 0 \/ pos_volume_min position <= remaining r)%Q
  /\ (100 <= pct \/ normalized r < pos_volume position)%Q
  /\ (remaining r == pos_volume position - normalized r)%Q.
Proof.
  intros Hr Hb. invert_precheck Hr.
  unfold wouldCloseFull, remainingBelowMin in Hb.
  apply orb_false_iff in Hb as [Hb Hd].
  apply orb_false_iff in Hb as [Hb Hc].
  apply orb_false_iff in Hb as [Ha Hb].
  apply Q_leb_false in Ha. apply Q_ltb_false in Hb.
  apply andb_false_iff in Hc. apply andb_false_iff in Hd.
  cbn [of_Q Q_Number] in *.
  repeat split.
  - exact Ha.
  - exact Hb.
  - destruct Hc as [Hc | Hc]; apply Q_ltb_false in Hc; [left | right]; exact Hc.
  - destruct Hd as [Hd | Hd]; [left; apply Q_ltb_false in Hd | right; apply Q_leb_false in Hd];
      exact Hd.
Qed.

(** In exact arithmetic, for owned > 0, a percentage in (0,100],
    volume_min > 0 and volume_step > 0: the normalized volume is at most
    owned + 1e-12; when the request is not blocked the remainder
    owned - normalized lies in [-1e-12, 0] or in [volume_min, owned); and for a
    percentage below 100 it lies in [volume_min, owned). Binary64 rounding
    breaks each of the three bounds. *)
Lemma partial_close_bounds_exact (position : PositionInfo Q) (pct : Q) :
  (0 < pos_volume position)%Q -> (0 < pct)%Q -> (pct <= 100)%Q ->
  (0 < pos_volume_min position)%Q -> (0 < pos_volume_step position)%Q ->
  exists r, tp1Precheck (Some position) pct = Some r
    /\ (normalized r <= pos_volume position + (1 # 1000000000000))%Q
    /\ (blocked r = false ->
        (- (1 # 1000000000000) <= remaining r /\ remaining r <= 0)%Q
        \/ (pos_volume_min position <= remaining r /\ remaining r < pos_volume position)%Q)
    /\ (blocked r = false -> (pct < 100)%Q ->
        (pos_volume_min position <= remaining r /\ remaining r < pos_volume position)%Q).
Proof.
  intros Hv Hp Hp' Hmin Hstep.
  destruct (tp1Precheck_Some position pct) as [r Hr]. exists r.
  pose proof (normalized_le_requested _ _ _ Hr Hstep) as Hn.
  pose proof (requested_le_owned _ _ _ Hr Hv Hp Hp') as Hq.
  split; [exact Hr|]. split; [lra|]. split.
  - intros Hb. destruct (unblocked_inv _ _ _ Hr Hb) as (H0 & H1 & H2 & H3 & H4).
    destruct H2 as [H2 | H2]; [left | right]; lra.
  - intros Hb Hlt. destruct (unblocked_inv _ _ _ Hr Hb) as (H0 & H1 & H2 & H3 & H4).
    destruct H3 as [H3 | H3]; [lra|].
    destruct H2 as [H2 | H2]; lra.
Qed.


Lemma float_zero : of_Q (num := PrimFloat.float) 0 = PrimFloat.zero.
Proof. vm_compute. reflexivity. Qed.





(** The precheck blocks exactly when some reason of the backend's list
    applies, for every number instance. *)
Lemma blocked_iff_reasons {num} `{Number num} (position : PositionInfo num) (pct : num)
    (r : Precheck num) :
  tp1Precheck (Some position) pct = Some r ->
  blocked r = true
  <-> blocked_reasons (pos_volume position) pct (normalized r) (pos_volume_min position) <> [].
Proof.
  intros Hr. invert_precheck Hr. unfold blocked_reasons, wouldCloseFull, remainingBelowMin.
  set (n := if (pos_volume_step position >? of_Q 0)%num then _ else _).
  destruct (n <=? of_Q 0)%num, (n <? pos_volume_min position)%num,
    ((pos_volume position - n >? of_Q 0)%num && (pos_volume position - n <? pos_volume_min position)%num),
    ((pct <? of_Q 100)%num && (n >=? pos_volume position)%num);
    cbn; split; intros Hx; try reflexivity; try discriminate; congruence.
Qed.

(** C4. A request whose remainder satisfies 0 < owned - normalized <
    volume_min is blocked, and the reason listed for it, RemainingBelowMin, is
    not one of the reasons for a normalized volume that is too small; a
    request below 100 percent whose normalized volume reaches the owned volume
    raises the wouldCloseFull flag, is listed as WouldCloseFullPosition and is
    blocked. The precheck blocks exactly when a reason is listed. For volume
    0.015 at 70 percent (minimum and step 0.01) the remainder is the only
    reason, in exact and in binary64 arithmetic. *)
Theorem C4_remainder_and_full_close {num} `{Number num} (position : PositionInfo num)
    (pct : num) :
  exists r, tp1Precheck (Some position) pct = Some r
    /\ remaining r = (pos_volume position - normalized r)%num
    /\ (((remaining r >? of_Q 0) && (remaining r <? pos_volume_min position))%num = true ->
        blocked r = true
        /\ In RemainingBelowMin
              (blocked_reasons (pos_volume position) pct (normalized r)
                               (pos_volume_min position)))
    /\ (((pct <? of_Q 100) && (normalized r >=? pos_volume position))%num = true ->
        wouldCloseFull pct (normalized r) (pos_volume position) = true
        /\ blocked r = true
        /\ In WouldCloseFullPosition
              (blocked_reasons (pos_volume position) pct (normalized r)
                               (pos_volume_min position)))
    /\ (blocked r = true
        <-> blocked_reasons (pos_volume position) pct (normalized r)
                            (pos_volume_min position) <> [])
    /\ RemainingBelowMin <> NormalizedZero /\ RemainingBelowMin <> NormalizedBelowMin
    /\ WouldCloseFullPosition <> RemainingBelowMin
    /\ (exists q, tp1Precheck (num := Q)
                    (Some (sample_position buy 0.015 1.1 5 0.0001 0.01 0.01)) 70%Q = Some q
          /\ blocked q = true
          /\ blocked_reasons (num := Q) 0.015%Q 70%Q (normalized q) 0.01%Q = [RemainingBelowMin])
    /\ (exists f, tp1Precheck (num := PrimFloat.float)
                    (Some (sample_position buy 0.015 1.1 5 0.0001 0.01 0.01)) (of_Q 70)
                  = Some f
          /\ blocked f = true
          /\ blocked_reasons (of_Q 0.015) (of_Q 70) (normalized f) (of_Q 0.01)
             = [RemainingBelowMin]).
Proof.
  destruct (tp1Precheck_Some position pct) as [r Hr]. exists r.
  pose proof (blocked_iff_reasons _ _ _ Hr) as Hiff.
  split; [exact Hr|]. split; [|split; [|split; [|split; [exact Hiff|]]]].
  - invert_precheck Hr. reflexivity.
  - intros Hdust.
    assert (Hin : In RemainingBelowMin
                     (blocked_reasons (pos_volume position) pct (normalized r)
                                      (pos_volume_min position))).
    { unfold blocked_reasons. invert_precheck Hr. rewrite Hdust.
      rewrite !in_app_iff. right. right. left. left. reflexivity. }
    split; [|exact Hin]. apply Hiff. intros Hnil. rewrite Hnil in Hin. exact Hin.
  - intros Hfull.
    assert (Hin : In WouldCloseFullPosition
                     (blocked_reasons (pos_volume position) pct (normalized r)
                                      (pos_volume_min position))).
    { unfold blocked_reasons. rewrite Hfull.
      rewrite !in_app_iff. right. right. right. left. reflexivity. }
    split; [exact Hfull|]. split; [|exact Hin].
    apply Hiff. intros Hnil. rewrite Hnil in Hin. exact Hin.
  - repeat (split; [discriminate|]). split.
    + eexists. split; [reflexivity|]. split; vm_compute; reflexivity.
    + eexists. split; [reflexivity|]. split; vm_compute; reflexivity.
Qed.

Lemma C4_remainder_and_full_close_witness :
  exists r, tp1Precheck (num := Q)
              (Some (sample_position buy 0.015 1.1 5 0.0001 0.01 0.01)) 70%Q = Some r
    /\ blocked r = true
    /\ In RemainingBelowMin (blocked_reasons (num := Q) 0.015%Q 70%Q (normalized r) 0.01%Q).
Proof.
  destruct (C4_remainder_and_full_close (num := Q)
              (sample_position buy 0.015 1.1 5 0.0001 0.01 0.01) 70%Q)
    as [r (Hr & _ & Hdust & _)].
  exists r. split; [exact Hr|]. apply Hdust.
  vm_compute in Hr. apply (inj Some) in Hr. subst r. vm_compute. reflexivity.
Defined.

(** ** The TP1 price *)

(** In exact arithmetic the TP1 price is a whole number of units of the last
    price digit, at most half a unit away from the unrounded price. *)
Lemma tp1Price_rounded (position : PositionInfo Q) (tp1Pips price : Q) :
  tp1Price (Some position) (Some tp1Pips) = Some price ->
  (exists k : Z, price * inject_Z 10 ^ pos_digits position == inject_Z k)%Q
  /\ (Qabs (price - tp1_raw position tp1Pips) <= (1 # 2) / inject_Z 10 ^ pos_digits position)%Q.
Proof.
  intros Hp. cbv beta iota zeta delta [tp1Price] in Hp. apply (inj Some) in Hp. subst price.
  fold (tp1_raw position tp1Pips). cbn [nmul ndiv nround npow10 Q_Number].
  set (raw := tp1_raw position tp1Pips).
  set (f := (inject_Z 10 ^ pos_digits position)%Q).
  assert (Hf : (0 < f)%Q) by (apply Qpower_0_lt; reflexivity).
  assert (Hf0 : ~ (f == 0)%Q) by (intros Hz; rewrite Hz in Hf; discriminate).
  set (k := Qfloor (raw * f + (1 # 2))).
  pose proof (Qfloor_le (raw * f + (1 # 2))) as Hlo.
  pose proof (Qlt_floor (raw * f + (1 # 2))) as Hhi.
  fold k in Hlo, Hhi. rewrite inject_Z_plus in Hhi. change (inject_Z 1) with 1%Q in Hhi.
  split.
  - exists k. field. exact Hf0.
  - apply Qabs_diff_Qle_condition.
    assert (Hraw : (raw == raw * f / f)%Q) by (field; exact Hf0).
    assert (H1 : ((inject_Z k - (1 # 2)) / f <= raw * f / f)%Q).
    { apply Qmult_le_compat_r; [lra | apply Qlt_le_weak, Qinv_lt_0_compat, Hf]. }
    assert (H2 : (raw * f / f <= (inject_Z k + (1 # 2)) / f)%Q).
    { apply Qmult_le_compat_r; [lra | apply Qlt_le_weak, Qinv_lt_0_compat, Hf]. }
    assert (E1 : ((inject_Z k - (1 # 2)) / f == inject_Z k / f - (1 # 2) / f)%Q)
      by (field; exact Hf0).
    assert (E2 : ((inject_Z k + (1 # 2)) / f == inject_Z k / f + (1 # 2) / f)%Q)
      by (field; exact Hf0).
    split; lra.
Qed.

(** C5. The panel computes the TP1 price from the entry price as
    entry_price + tp1_pips * pip_in_price for a buy and
    entry_price - tp1_pips * pip_in_price for a sell, rounded to the position's
    price digits (in exact arithmetic: a whole number of last-digit units, at
    most half a unit from the unrounded price), and labels the trigger
    Bid >= TP1 for a buy and Ask <= TP1 for a sell. In the watcher as the
    specification describes it the trigger test is bid >= tp1_price for a buy
    and ask <= tp1_price for a sell, and the price is computed at the first
    registration only: registering a watched ticket again, with any pips,
    changes nothing. A buy opened at 1.10123 with 30 pips of 0.0001 and 5
    digits has TP1 at 1.10423, a sell at 1.09823. *)
Theorem C5_tp1_price_and_trigger :
  (forall num (N : Number num) (position : PositionInfo num) (tp1Pips : num),
      tp1Price (Some position) (Some tp1Pips)
      = Some (nround (tp1_raw position tp1Pips * npow10 (pos_digits position))
              / npow10 (pos_digits position))%num
      /\ triggerLabel position
         = match pos_direction position with buy => "Bid ≥ TP1" | sell => "Ask ≤ TP1" end
      /\ (forall bid ask price : num,
            tp1_reached buy bid ask price = (bid >=? price)%num
            /\ tp1_reached sell bid ask price = (ask <=? price)%num)
      /\ (forall (watched : gmap Z (WatchedPosition num)),
            wp_tp1_price <$> (register watched position tp1Pips !! pos_position_ticket position)
            = match watched !! pos_position_ticket position with
              | Some w => Some (wp_tp1_price w)
              | None => Some (tp1Price (Some position) (Some tp1Pips))
              end)
      /\ (forall (watched : gmap Z (WatchedPosition num)) (pips' : num),
            register (register watched position tp1Pips) position pips'
            = register watched position tp1Pips))
  /\ (forall (position : PositionInfo Q) (tp1Pips : Q),
        exists price, tp1Price (Some position) (Some tp1Pips) = Some price
          /\ (exists k : Z, price * inject_Z 10 ^ pos_digits position == inject_Z k)%Q
          /\ (Qabs (price - tp1_raw position tp1Pips)
              <= (1 # 2) / inject_Z 10 ^ pos_digits position)%Q)
  /\ (exists b s : Q,
        tp1Price (Some (sample_position buy 0.10 1.10123 5 0.0001 0.01 0.01)) (Some 30%Q)
        = Some b
        /\ tp1Price (Some (sample_position sell 0.10 1.10123 5 0.0001 0.01 0.01)) (Some 30%Q)
           = Some s
        /\ (b == 1.10423)%Q /\ (s == 1.09823)%Q)
  /\ tp1Price (num := PrimFloat.float)
       (Some (sample_position buy 0.10 1.10123 5 0.0001 0.01 0.01)) (Some (of_Q 30))
     = Some (of_Q 1.10423)
  /\ tp1Price (num := PrimFloat.float)
       (Some (sample_position sell 0.10 1.10123 5 0.0001 0.01 0.01)) (Some (of_Q 30))
     = Some (of_Q 1.09823).
Proof.
  split; [|split; [|split; [|split]]].
  - intros num N position tp1Pips. split; [|split; [|split; [|split]]].
    + unfold tp1Price, tp1_raw. destruct (pos_direction position); reflexivity.
    + unfold triggerLabel. destruct (pos_direction position); reflexivity.
    + intros bid ask price. split; reflexivity.
    + intros watched. unfold register.
      destruct (watched !! pos_position_ticket position) as [w|] eqn:Hw.
      * rewrite Hw. reflexivity.
      * rewrite lookup_insert_eq. reflexivity.
    + intros watched pips'. unfold register at 1.
      assert (Hk : is_Some (register watched position tp1Pips !! pos_position_ticket position)).
      { unfold register.
        destruct (watched !! pos_position_ticket position) as [w|] eqn:Hw.
        - rewrite Hw. eauto.
        - rewrite lookup_insert_eq. eauto. }
      destruct Hk as [w Hw]. rewrite Hw. reflexivity.
  - intros position tp1Pips. eexists. split; [reflexivity|].
    apply tp1Price_rounded. reflexivity.
  - eexists _, _. split; [reflexivity|]. split; [reflexivity|]. split; vm_compute; reflexivity.
  - vm_compute. reflexivity.
  - vm_compute. reflexivity.
Qed.

(** ** Reconciliation of the trade cards *)

Section Reconciliation.
Context {num : Type} `{Number num}.
Local Open Scope list_scope.

Lemma claimed_tickets_app (l k : list ManagedTrade) :
  claimed_tickets (l ++ k) = claimed_tickets l ++ claimed_tickets k.
Proof. unfold claimed_tickets. apply omap_app. Qed.

Lemma claimed_tickets_cons (t : ManagedTrade) (l : list ManagedTrade) :
  claimed_tickets (t :: l)
  = match mt_position_ticket t with
    | Some k => k :: claimed_tickets l
    | None => claimed_tickets l
    end.
Proof. reflexivity. Qed.

(** What [unique_tickets] says of two cards of the list. *)
Lemma unique_tickets_spec (trades : list ManagedTrade) :
  unique_tickets trades ->
  forall (i j : nat) (a b : ManagedTrade) (k : Z),
    trades !! i = Some a -> trades !! j = Some b ->
    mt_position_ticket a = Some k -> mt_position_ticket b = Some k -> i = j.
Proof.
  unfold unique_tickets. induction trades as [|t trades IH]; intros Hnd i j a b k Hi Hj Ha Hb.
  - rewrite lookup_nil in Hi. discriminate.
  - rewrite claimed_tickets_cons in Hnd.
    assert (Hin : forall (n : nat) (c : ManagedTrade),
               trades !! n = Some c -> mt_position_ticket c = Some k ->
               k ∈ claimed_tickets trades).
    { intros n c Hn Hc. unfold claimed_tickets. apply list_elem_of_omap.
      exists c. split; [eapply list_elem_of_lookup_2; exact Hn | exact Hc]. }
    destruct i as [|i], j as [|j]; cbn in Hi, Hj.
    + reflexivity.
    + injection Hi as ->. rewrite Ha in Hnd. apply NoDup_cons in Hnd as [Hnot _].
      exfalso. apply Hnot. eapply Hin; eassumption.
    + injection Hj as ->. rewrite Hb in Hnd. apply NoDup_cons in Hnd as [Hnot _].
      exfalso. apply Hnot. eapply Hin; eassumption.
    + f_equal. eapply IH; try eassumption.
      destruct (mt_position_ticket t); [apply NoDup_cons in Hnd as [_ Hnd]|]; exact Hnd.
Qed.

(** The loop keeps the tickets of [next] and of the cards still to visit
    pairwise distinct, all of them inside [claimedTickets]. *)
Lemma reconcile_loop_unique (now : Z) (positions : list (OpenPositionInfo num))
    (byTicket : gset Z) (prev : list ManagedTrade) :
  forall (claimedTickets : gset Z) (next : list ManagedTrade),
    NoDup (claimed_tickets next ++ claimed_tickets prev) ->
    (forall k, k ∈ claimed_tickets next -> k ∈ claimedTickets) ->
    (forall k, k ∈ claimed_tickets prev -> k ∈ claimedTickets) ->
    unique_tickets (reconcile_loop now positions byTicket prev claimedTickets next).
Proof.
  unfold unique_tickets.
  induction prev as [|t prev IH]; intros claimed next Hnd Hnext Hprev; cbn [reconcile_loop].
  - rewrite app_nil_r in Hnd. exact Hnd.
  - rewrite claimed_tickets_cons in Hnd, Hprev.
    destruct (mt_position_ticket t) as [pt|] eqn:Hpt.
    + rewrite bool_decide_eq_false_2 by discriminate. cbn [andb].
      apply NoDup_app in Hnd as (Hn1 & Hdisj & Hn2).
      apply NoDup_cons in Hn2 as [Hpt2 Hn2].
      destruct (bool_decide (pt ∈ byTicket)).
      * apply IH.
        -- rewrite claimed_tickets_app. cbn. rewrite Hpt. cbn.
           rewrite <- app_assoc. cbn. apply NoDup_app. repeat split; try assumption.
           apply NoDup_cons. split; assumption.
        -- intros k Hk. rewrite claimed_tickets_app in Hk. cbn in Hk. rewrite Hpt in Hk.
           apply elem_of_app in Hk as [Hk | Hk]; [apply Hnext, Hk|].
           apply Hprev. apply list_elem_of_singleton in Hk. subst k. left.
        -- intros k Hk. apply Hprev. right. exact Hk.
      * apply IH.
        -- apply NoDup_app. repeat split; try assumption.
           intros x Hx Hx'. apply (Hdisj x Hx). right. exact Hx'.
        -- exact Hnext.
        -- intros k Hk. apply Hprev. right. exact Hk.
    + destruct (bool_decide (None = None) && (now - mt_created_at t >? 60000)%Z).
      * apply IH; assumption.
      * destruct (find _ _) as [m|] eqn:Hfind.
        -- apply find_some in Hfind as [_ Hfree].
           apply negb_true_iff, bool_decide_eq_false in Hfree.
           apply NoDup_app in Hnd as (Hn1 & Hdisj & Hn2).
           apply IH.
           ++ rewrite claimed_tickets_app. cbn. rewrite <- app_assoc. cbn.
              apply NoDup_app. repeat split.
              ** exact Hn1.
              ** intros x Hx Hx'. apply elem_of_cons in Hx' as [-> | Hx'].
                 --- apply Hfree, Hnext, Hx.
                 --- exact (Hdisj x Hx Hx').
              ** apply NoDup_cons. split; [|exact Hn2].
                 intros Hin. apply Hfree, Hprev, Hin.
           ++ intros k Hk. rewrite claimed_tickets_app in Hk. cbn in Hk.
              apply elem_of_app in Hk as [Hk | Hk].
              ** apply elem_of_union_r, Hnext, Hk.
              ** apply list_elem_of_singleton in Hk. subst k.
                 apply elem_of_union_l, elem_of_singleton. reflexivity.
           ++ intros k Hk. apply elem_of_union_r, Hprev, Hk.
        -- apply IH.
           ++ rewrite claimed_tickets_app. cbn. rewrite Hpt. cbn. rewrite app_nil_r. exact Hnd.
           ++ intros k Hk. rewrite claimed_tickets_app in Hk. cbn in Hk. rewrite Hpt in Hk.
              cbn in Hk. rewrite app_nil_r in Hk. apply Hnext, Hk.
           ++ exact Hprev.
Qed.

(** The set the updater starts from holds every ticket of [prev]. *)
Lemma initial_claimedTickets (prev : list ManagedTrade) (k : Z) :
  k ∈ claimed_tickets prev ->
  k ∈ (list_to_set (omap mt_position_ticket
         (List.filter (fun x => bool_decide (mt_position_ticket x <> None)) prev)) : gset Z).
Proof.
  intros Hk. apply elem_of_list_to_set. unfold claimed_tickets in Hk.
  apply list_elem_of_omap in Hk as (t & Ht & Htk).
  apply list_elem_of_omap. exists t. split; [|exact Htk].
  apply list_elem_of_In, filter_In. split; [apply list_elem_of_In, Ht|].
  apply bool_decide_eq_true. rewrite Htk. discriminate.
Qed.

Lemma reconcile_unique (now : Z) (positions : list (OpenPositionInfo num))
    (prev : list ManagedTrade) :
  unique_tickets prev -> unique_tickets (reconcile now positions prev).
Proof.
  intros Hnd. unfold reconcile. apply reconcile_loop_unique.
  - exact Hnd.
  - intros k Hk. cbn in Hk. apply elem_of_nil in Hk. destruct Hk.
  - apply initial_claimedTickets.
Qed.

End Reconciliation.

(** C6. Every tick preserves the uniqueness of position tickets among the
    managed trades: if no two trades of the list reference the same position
    ticket before the tick, none do after it, for every clock reading, every
    outcome of the positions poll (a snapshot or a failure) and either value
    of the liveness flag. *)
Theorem C6_tick_preserves_unique_tickets {num} `{Number num} (alive : bool) (now : Z)
    (fetched : exn + list (OpenPositionInfo num)) (trades : list ManagedTrade) :
  unique_tickets trades ->
  unique_tickets (tick alive now fetched trades)
  /\ forall (i j : nat) (a b : ManagedTrade) (k : Z),
       tick alive now fetched trades !! i = Some a ->
       tick alive now fetched trades !! j = Some b ->
       mt_position_ticket a = Some k -> mt_position_ticket b = Some k -> i = j.
Proof.
  intros Hnd.
  assert (Hu : unique_tickets (tick alive now fetched trades)).
  { unfold tick. destruct fetched as [e | positions]; [exact Hnd|].
    destruct alive; cbn [negb]; [apply reconcile_unique, Hnd | exact Hnd]. }
  split; [exact Hu | apply unique_tickets_spec, Hu].
Qed.

Lemma C6_tick_preserves_unique_tickets_witness :
  unique_tickets
    (tick (num := Q) true 2000
          (inr [sample_open_position 7 5; sample_open_position 8 6; sample_open_position 9 7])
          sample_trades).
Proof.
  apply (C6_tick_preserves_unique_tickets (num := Q) true 2000
           (inr [sample_open_position 7 5; sample_open_position 8 6; sample_open_position 9 7])
           sample_trades).
  unfold unique_tickets. cbn. apply NoDup_cons. split; [apply not_elem_of_nil | apply NoDup_nil_2].
Defined.

(** The sample tick: the resolved card keeps ticket 7 and the pending card
    takes the newest unclaimed position, ticket 9. *)
Example tick_sample :
  claimed_tickets
    (tick (num := Q) true 2000
          (inr [sample_open_position 7 5; sample_open_position 8 6; sample_open_position 9 7])
          sample_trades) = [7; 9]
  /\ claimed_tickets
       (tick (num := PrimFloat.float) true 2000
          (inr [sample_open_position 7 5; sample_open_position 8 6; sample_open_position 9 7])
          sample_trades) = [7; 9].
Proof. split; vm_compute; reflexivity. Qed.

(** ** The watcher status poll *)

Section Polling.
Local Open Scope list_scope.
Local Open Scope Q_scope.

(** One poll either leaves the TP1 reference alone and shows no TP1 toast,
    or shows one toast whose timestamp is the new, strictly larger
    reference. *)
Lemma pollOnce_tp1 (refs : PollRefs Q) (fetched : exn + WatcherStatus Q) :
  (tp1_notified (snd (pollOnce refs fetched)) = []
   /\ lastSeenTp1Ts (fst (pollOnce refs fetched)) = lastSeenTp1Ts refs)
  \/ (exists ts, tp1_notified (snd (pollOnce refs fetched)) = [ts]
        /\ lastSeenTp1Ts (fst (pollOnce refs fetched)) = ts
        /\ lastSeenTp1Ts refs < ts).
Proof.
  destruct fetched as [e | status]; [left; split; reflexivity|].
  unfold pollOnce.
  destruct (last_tp1_event status) as [tp1Evt|];
    [destruct (tp1e_timestamp tp1Evt) as [ts|] eqn:Hts;
       [destruct (ts >? lastSeenTp1Ts refs)%num eqn:Hnew|]|];
    (destruct (last_sl_event status) as [slEvt|];
       [destruct (sle_timestamp slEvt) as [ts'|] eqn:Hts';
          [destruct (ts' >? lastSeenSlTs refs)%num|]|]);
    cbn; rewrite ?Hts; try (left; split; reflexivity);
    right; exists ts; apply Q_ltb_true in Hnew; repeat split; assumption.
Qed.

Lemma pollOnce_sl (refs : PollRefs Q) (fetched : exn + WatcherStatus Q) :
  (sl_notified (snd (pollOnce refs fetched)) = []
   /\ lastSeenSlTs (fst (pollOnce refs fetched)) = lastSeenSlTs refs)
  \/ (exists ts, sl_notified (snd (pollOnce refs fetched)) = [ts]
        /\ lastSeenSlTs (fst (pollOnce refs fetched)) = ts
        /\ lastSeenSlTs refs < ts).
Proof.
  destruct fetched as [e | status]; [left; split; reflexivity|].
  unfold pollOnce.
  destruct (last_tp1_event status) as [tp1Evt|];
    [destruct (tp1e_timestamp tp1Evt) as [ts'|] eqn:Hts';
       [destruct (ts' >? lastSeenTp1Ts refs)%num|]|];
    (destruct (last_sl_event status) as [slEvt|];
       [destruct (sle_timestamp slEvt) as [ts|] eqn:Hts;
          [destruct (ts >? lastSeenSlTs refs)%num eqn:Hnew|]|]);
    cbn; rewrite ?Hts; try (left; split; reflexivity);
    right; exists ts; apply Q_ltb_true in Hnew; repeat split; assumption.
Qed.

Lemma pollAll_cons (refs : PollRefs Q) (fetched : exn + WatcherStatus Q)
    (polls : list (exn + WatcherStatus Q)) :
  pollAll refs (fetched :: polls)
  = (fst (pollAll (fst (pollOnce refs fetched)) polls),
     snd (pollOnce refs fetched) ++ snd (pollAll (fst (pollOnce refs fetched)) polls)).
Proof.
  cbn [pollAll]. destruct (pollOnce refs fetched) as [refs' events].
  cbn [fst snd]. destruct (pollAll refs' polls). reflexivity.
Qed.

Lemma pollAll_app (refs : PollRefs Q) (polls polls' : list (exn + WatcherStatus Q)) :
  fst (pollAll refs (polls ++ polls')) = fst (pollAll (fst (pollAll refs polls)) polls').
Proof.
  revert refs. induction polls as [|fetched polls IH]; intros refs; [reflexivity|].
  rewrite <- app_comm_cons, !pollAll_cons. cbn [fst]. apply IH.
Qed.

Lemma tp1_notified_app (l k : list (panelEvent Q)) :
  tp1_notified (l ++ k) = tp1_notified l ++ tp1_notified k.
Proof. apply omap_app. Qed.

Lemma sl_notified_app (l k : list (panelEvent Q)) :
  sl_notified (l ++ k) = sl_notified l ++ sl_notified k.
Proof. apply omap_app. Qed.

(** Over any sequence of polls the TP1 toasts carry strictly increasing
    timestamps, all above the initial reference and none above the final
    one. *)
Lemma pollAll_tp1 (polls : list (exn + WatcherStatus Q)) :
  forall refs : PollRefs Q,
    lastSeenTp1Ts refs <= lastSeenTp1Ts (fst (pollAll refs polls))
    /\ StronglySorted Qlt (tp1_notified (snd (pollAll refs polls)))
    /\ Forall (fun ts => lastSeenTp1Ts refs < ts
                         /\ ts <= lastSeenTp1Ts (fst (pollAll refs polls)))
              (tp1_notified (snd (pollAll refs polls))).
Proof.
  induction polls as [|fetched polls IH]; intros refs.
  - cbn. split; [apply Qle_refl|]. split; constructor.
  - rewrite pollAll_cons. cbn [fst snd]. rewrite tp1_notified_app.
    destruct (IH (fst (pollOnce refs fetched))) as (Hle & Hsorted & Hall).
    destruct (pollOnce_tp1 refs fetched) as [[Hnone Hsame] | (ts & Hone & Hnew & Hlt)].
    + rewrite Hnone. cbn [app]. rewrite Hsame in Hle, Hall.
      split; [exact Hle|]. split; [exact Hsorted | exact Hall].
    + rewrite Hone. cbn [app]. rewrite Hnew in Hle, Hall.
      split; [lra|]. split.
      * constructor; [exact Hsorted|].
        eapply Forall_impl; [exact Hall|]. intros x [Hx _]. exact Hx.
      * constructor; [split; [exact Hlt | exact Hle]|].
        eapply Forall_impl; [exact Hall|]. intros x [Hx Hx']. split; [lra | exact Hx'].
Qed.

Lemma pollAll_sl (polls : list (exn + WatcherStatus Q)) :
  forall refs : PollRefs Q,
    lastSeenSlTs refs <= lastSeenSlTs (fst (pollAll refs polls))
    /\ StronglySorted Qlt (sl_notified (snd (pollAll refs polls)))
    /\ Forall (fun ts => lastSeenSlTs refs < ts
                         /\ ts <= lastSeenSlTs (fst (pollAll refs polls)))
              (sl_notified (snd (pollAll refs polls))).
Proof.
  induction polls as [|fetched polls IH]; intros refs.
  - cbn. split; [apply Qle_refl|]. split; constructor.
  - rewrite pollAll_cons. cbn [fst snd]. rewrite sl_notified_app.
    destruct (IH (fst (pollOnce refs fetched))) as (Hle & Hsorted & Hall).
    destruct (pollOnce_sl refs fetched) as [[Hnone Hsame] | (ts & Hone & Hnew & Hlt)].
    + rewrite Hnone. cbn [app]. rewrite Hsame in Hle, Hall.
      split; [exact Hle|]. split; [exact Hsorted | exact Hall].
    + rewrite Hone. cbn [app]. rewrite Hnew in Hle, Hall.
      split; [lra|]. split.
      * constructor; [exact Hsorted|].
        eapply Forall_impl; [exact Hall|]. intros x [Hx _]. exact Hx.
      * constructor; [split; [exact Hlt | exact Hle]|].
        eapply Forall_impl; [exact Hall|]. intros x [Hx Hx']. split; [lra | exact Hx'].
Qed.

(** In a strictly increasing list no value occurs twice. *)
Lemma sorted_occurrences (v : Q) (l : list Q) :
  StronglySorted Qlt l -> (occurrences v l <= 1)%nat.
Proof.
  unfold occurrences. induction 1 as [|x l Hs IH Hall]; cbn [List.filter]; [cbn; lia|].
  destruct (Qeq_bool v x) eqn:Hvx; [|exact IH].
  apply Qeq_bool_iff in Hvx.
  assert (Hnone : List.filter (Qeq_bool v) l = []).
  { clear IH Hs. induction l as [|y l IHl]; [reflexivity|].
    apply Forall_cons in Hall as [Hy Hall]. cbn [List.filter].
    destruct (Qeq_bool v y) eqn:Hvy; [|apply IHl, Hall].
    apply Qeq_bool_iff in Hvy. lra. }
  rewrite Hnone. cbn. lia.
Qed.

(** The emitted timestamps increase strictly from the last one on. *)
Lemma emitted_increasing (clock : list Q) :
  forall last : Q,
    StronglySorted Qlt (emitted last clock) /\ Forall (Qlt last) (emitted last clock).
Proof.
  induction clock as [|wall_clock clock IH]; intros last; cbn [emitted].
  - split; constructor.
  - destruct (IH (next_timestamp last wall_clock)) as [Hs Hall].
    assert (Hnext : last < next_timestamp last wall_clock).
    { unfold next_timestamp. destruct (last <? wall_clock)%num eqn:Hlt.
      - apply Q_ltb_true in Hlt. exact Hlt.
      - cbn. lra. }
    split; constructor; try assumption.
    eapply Forall_impl; [exact Hall|]. intros x Hx. cbn beta in *. lra.
Qed.

End Polling.

(** C7. The timestamps that the watcher of the specification emits for one
    kind of event increase strictly. Over any sequence of polls, starting from
    any stored references, the panel shows its TP1 toasts (and its SL toasts)
    with strictly increasing timestamps, so no timestamp is notified twice;
    and the stored last-seen timestamps never decrease from one point of the
    sequence to a later one (exact arithmetic). Polling the events stamped
    100, 100, a failed poll, 101 and 100 again notifies 100 and 101 once each,
    in exact and in binary64 arithmetic. *)
Theorem C7_event_timestamps_and_polling :
  (forall (last : Q) (clock : list Q),
      StronglySorted Qlt (emitted last clock) /\ Forall (Qlt last) (emitted last clock))
  /\ (forall (refs : PollRefs Q) (polls : list (exn + WatcherStatus Q)),
        StronglySorted Qlt (tp1_notified (snd (pollAll refs polls)))
        /\ StronglySorted Qlt (sl_notified (snd (pollAll refs polls)))
        /\ (forall v, (occurrences v (tp1_notified (snd (pollAll refs polls))) <= 1)%nat)
        /\ (forall v, (occurrences v (sl_notified (snd (pollAll refs polls))) <= 1)%nat))
  /\ (forall (refs : PollRefs Q) (polls polls' : list (exn + WatcherStatus Q)),
        (lastSeenTp1Ts (fst (pollAll refs polls))
         <= lastSeenTp1Ts (fst (pollAll refs (polls ++ polls')%list)))%Q
        /\ (lastSeenSlTs (fst (pollAll refs polls))
            <= lastSeenSlTs (fst (pollAll refs (polls ++ polls')%list)))%Q)
  /\ tp1_notified (num := Q)
       (snd (pollAll initialRefs
               [inr (sample_status 100); inr (sample_status 100); inl Thrown;
                inr (sample_status 101); inr (sample_status 100)]))
     = [100%Q; 101%Q]
  /\ tp1_notified (num := PrimFloat.float)
       (snd (pollAll initialRefs
               [inr (sample_status 100); inr (sample_status 100); inl Thrown;
                inr (sample_status 101); inr (sample_status 100)]))
     = [of_Q 100; of_Q 101].
Proof.
  split; [|split; [|split; [|split]]].
  - intros last clock. apply emitted_increasing.
  - intros refs polls.
    destruct (pollAll_tp1 polls refs) as (_ & Htp1 & _).
    destruct (pollAll_sl polls refs) as (_ & Hsl & _).
    split; [exact Htp1|]. split; [exact Hsl|].
    split; intros v; apply sorted_occurrences; assumption.
  - intros refs polls polls'. rewrite pollAll_app. split.
    + apply (pollAll_tp1 polls' (fst (pollAll refs polls))).
    + apply (pollAll_sl polls' (fst (pollAll refs polls))).
  - vm_compute. reflexivity.
  - vm_compute. reflexivity.
Qed.

(** ** The MT5 client and the execute button *)

(** The single request of a partial close, and its outcome. *)
Lemma run_partialClose {num} `{Number num} (env : forall X, event num X -> X)
    (request : PartialCloseRequest num) :
  run env (partialClose request)
  = ([existT _ (ApiPost "/mt5/partial-close" (PartialCloseBody request))],
     match env _ (ApiPost "/mt5/partial-close" (PartialCloseBody request)) with
     | inl e => inl e
     | inr response => inr (data response)
     end).
Proof.
  unfold partialClose, post. cbn [bind run].
  destruct (env _ (ApiPost "/mt5/partial-close" (PartialCloseBody request))); reflexivity.
Qed.

(** C9. For every position ticket and armed flag, closePosition is the same
    program as partialClose on the body {position_ticket, percent: 100,
    ui_armed}: against every server it posts the same single request to
    /mt5/partial-close and returns the response data unchanged, or rejects
    with the same error. *)
Theorem C9_closePosition_is_partialClose_100 {num} `{Number num} (positionTicket : Z)
    (ui_armed : bool) :
  let request := {| pc_position_ticket := Some positionTicket; pc_percent := Some (of_Q 100);
                    pc_ticket := None; pc_volume := None; pc_ui_armed := ui_armed |} in
  closePosition positionTicket ui_armed = partialClose request
  /\ forall env : forall X, event num X -> X,
       run env (closePosition positionTicket ui_armed) = run env (partialClose request)
       /\ fst (run env (closePosition positionTicket ui_armed))
          = [existT _ (ApiPost "/mt5/partial-close" (PartialCloseBody request))]
       /\ snd (run env (closePosition positionTicket ui_armed))
          = match env _ (ApiPost "/mt5/partial-close" (PartialCloseBody request)) with
            | inl e => inl e
            | inr response => inr (data response)
            end.
Proof.
  intros request. split; [reflexivity|]. intros env.
  change (closePosition positionTicket ui_armed) with (partialClose request).
  rewrite run_partialClose. repeat split.
Qed.

(** A disarmed button does nothing at all. *)
Lemma handleExecute_disarmed {num} `{Number num} (props : ExecuteTradeButtonProps num)
    (settings : AppSettings num) :
  props_armed props = false -> handleExecute props settings = Ret tt.
Proof. intros Harmed. unfold handleExecute. rewrite Harmed. reflexivity. Qed.

(** C1. The guard of the specification allows exactly when both flags are
    true; under each of the three other combinations a guarded order-mutating
    operation returns the authorization failure, whatever the operation is
    (it is not run and nothing is reported as done). In the front end, the
    execute handler with armed = false is the empty program: it raises no
    event, so no order request reaches the broker, whatever the broker would
    answer. *)
Theorem C1_execution_guard :
  (forall ui_armed backend_execution_enabled : bool,
      authorize ui_armed backend_execution_enabled = true
      <-> ui_armed = true /\ backend_execution_enabled = true)
  /\ (forall (A : Type) (operation : unit -> Failure + A),
        guarded true false operation = inl AuthorizationError
        /\ guarded false true operation = inl AuthorizationError
        /\ guarded false false operation = inl AuthorizationError
        /\ guarded true true operation = operation tt)
  /\ (forall num (N : Number num) (props : ExecuteTradeButtonProps num)
             (settings : AppSettings num),
        props_armed props = false ->
        handleExecute props settings = Ret tt
        /\ AllEvents (fun X ev => match ev with ApiPost _ _ => False | _ => True end)
                     (handleExecute props settings)
        /\ forall env : forall X, event num X -> X,
             run env (handleExecute props settings) = ([], inr tt)).
Proof.
  split; [|split].
  - intros a b. unfold authorize. apply andb_true_iff.
  - intros A operation. repeat split.
  - intros num N props settings Harmed.
    rewrite (handleExecute_disarmed props settings Harmed).
    split; [reflexivity|]. split; [exact I|]. intros env. reflexivity.
Qed.

Lemma C1_execution_guard_witness :
  run accepting_broker
      (handleExecute (num := Q) (sample_props buy false false) DEFAULT_SETTINGS)
  = ([], inr tt).
Proof.
  apply (proj2 (proj2 C1_execution_guard) Q Q_Number (sample_props buy false false)
               DEFAULT_SETTINGS eq_refl).
Defined.

(** A property of the order request is a property of every event of the
    handler. *)
Lemma handleExecute_events {num} `{Number num} (props : ExecuteTradeButtonProps num)
    (settings : AppSettings num) (P : forall X, event num X -> Prop) :
  (forall loading, P _ (SetLoading loading)) ->
  (forall label, P _ (ConsoleLog label)) ->
  (forall t pt, P _ (OnOrderPlaced t pt)) ->
  (forall e, P _ (OnError e)) ->
  P _ (ApiPost "/mt5/order"
         (OrderBody
            {| or_symbol := props_symbol props;
               or_direction := props_direction props;
               or_volume := props_volume props;
               or_price := if props_pendingOrder props then Some (props_entryPrice props)
                           else None;
               or_sl_price := slPrice_of (props_direction props) (props_entryPrice props)
                                (props_stopPips props)
                                (pipSize_of settings (props_symbol props));
               or_tp_price := None;
               or_ui_armed := props_armed props |})) ->
  AllEvents P (handleExecute props settings).
Proof.
  intros Hload Hlog Hplaced Herror Hpost. unfold handleExecute.
  destruct (props_armed props); cbn [negb]; [|exact I].
  cbn. split; [apply Hload|]. intros [].
  split; [apply Hlog|]. intros [].
  split; [exact Hpost|]. intros [e | response]; cbn.
  - split; [apply Herror|]. intros []. cbn. split; [apply Hload|]. intros []. exact I.
  - destruct (nullish (order_ticket (data response)) (ticket (data response))) as [t|].
    + destruct (success (data response) && negb (t =? 0)%Z); cbn;
        (split; [first [apply Hplaced | apply Herror]|]); intros []; cbn;
        (split; [apply Hload|]); intros []; exact I.
    + cbn. split; [apply Herror|]. intros []. cbn. split; [apply Hload|]. intros []. exact I.
Qed.

(** The pip size of a symbol is read from the first preset that carries the
    symbol. *)
Lemma pipSize_of_preset {num} `{Number num} (settings : AppSettings num) (symbol : string) :
  (forall before p after,
      symbol_presets settings = (before ++ p :: after)%list ->
      sp_symbol p = symbol ->
      List.Forall (fun q => sp_symbol q <> symbol) before ->
      pipSize_of settings symbol
      = if truthy (sp_pip_size p) then sp_pip_size p else of_Q 0.0001)
  /\ (List.Forall (fun q => sp_symbol q <> symbol) (symbol_presets settings) ->
      pipSize_of settings symbol = of_Q 0.0001).
Proof.
  unfold pipSize_of. split.
  - intros before p after -> Hp Hbefore.
    induction Hbefore as [|q before Hq _ IH]; cbn [app List.find].
    + rewrite (proj2 (String.eqb_eq _ _) Hp). reflexivity.
    + rewrite (proj2 (String.eqb_neq _ _) Hq). exact IH.
  - intros Hall. induction Hall as [|q presets Hq _ IH]; cbn [List.find]; [reflexivity|].
    rewrite (proj2 (String.eqb_neq _ _) Hq). exact IH.
Qed.

(** In exact arithmetic, for stop_pips > 0 and pip_size > 0 the stop-loss is
    strictly below the entry price for a buy and strictly above it for a
    sell. In binary64 it can coincide with the entry price. *)
Lemma stop_on_losing_side_exact (props : ExecuteTradeButtonProps Q) (settings : AppSettings Q) :
  (0 < props_stopPips props)%Q ->
  (0 < pipSize_of settings (props_symbol props))%Q ->
  AllEvents (stop_on_losing_side props) (handleExecute props settings).
Proof.
  intros Hstop Hpip.
  apply handleExecute_events; try (intros; exact I).
  unfold stop_on_losing_side. cbn.
  destruct (props_direction props); cbn; nra.
Qed.

(** C10 (amended). Every request that the execute handler posts goes to
    /mt5/order with tp_price = null, with price = null when pendingOrder is
    false and price = entry_price when it is true, and with sl_price =
    entry_price - stop_pips * pip_size for a buy and entry_price + stop_pips *
    pip_size for a sell, for every number instance; pip_size is the pip size
    of the first preset carrying the symbol, or 0.0001 when there is none or
    its pip size is 0 or NaN. In the program's binary64 arithmetic, for
    stop_pips > 0 and pip_size > 0 the stop-loss is never on the winning side
    of the entry price: not above it for a buy, not below it for a sell (it
    coincides with it when the rounding absorbs the stop distance). An armed
    pending sell of the sample trade posts exactly one request, with price 1.1
    and stop 1.1 + 50 * 0.0001; an armed market buy in binary64 posts one with
    price null and a stop between 1.0949 and 1.0951. *)
Theorem C10_order_request :
  (forall num (N : Number num) (props : ExecuteTradeButtonProps num)
          (settings : AppSettings num),
      AllEvents (order_request_shape props settings) (handleExecute props settings))
  /\ (forall num (N : Number num) (settings : AppSettings num) (symbol : string),
        (forall before p after,
            symbol_presets settings = (before ++ p :: after)%list ->
            sp_symbol p = symbol ->
            List.Forall (fun q => sp_symbol q <> symbol) before ->
            pipSize_of settings symbol
            = if truthy (sp_pip_size p) then sp_pip_size p else of_Q 0.0001)
        /\ (List.Forall (fun q => sp_symbol q <> symbol) (symbol_presets settings) ->
            pipSize_of settings symbol = of_Q 0.0001))
  /\ (forall (props : ExecuteTradeButtonProps PrimFloat.float)
             (settings : AppSettings PrimFloat.float),
        PrimFloat.ltb (of_Q 0) (props_stopPips props) = true ->
        PrimFloat.ltb (of_Q 0) (pipSize_of settings (props_symbol props)) = true ->
        AllEvents (stop_not_on_winning_side props) (handleExecute props settings))
  /\ posted (fst (run accepting_broker
                      (handleExecute (num := Q) (sample_props sell true true)
                                     DEFAULT_SETTINGS)))
     = [("/mt5/order",
         OrderBody {| or_symbol := "EURUSD"; or_direction := sell; or_volume := 0.10%Q;
                      or_price := Some 1.1%Q;
                      or_sl_price := (1.1 + 50 * 0.0001)%Q;
                      or_tp_price := None; or_ui_armed := true |})]
  /\ (exists request,
        posted (fst (run accepting_broker
                         (handleExecute (num := PrimFloat.float) (sample_props buy false true)
                                        DEFAULT_SETTINGS)))
        = [("/mt5/order", OrderBody request)]
        /\ or_price request = None /\ or_tp_price request = None
        /\ PrimFloat.ltb (of_Q 1.0949) (or_sl_price request) = true
        /\ PrimFloat.ltb (or_sl_price request) (of_Q 1.0951) = true).
Proof.
  split; [|split; [|split; [|split]]].
  - intros num N props settings.
    apply handleExecute_events; try (intros; exact I).
    split; [reflexivity|]. eexists. split; [reflexivity|]. cbn.
    repeat split.
  - intros num N settings symbol. apply pipSize_of_preset.
  - intros props settings Hstop Hpip. rewrite float_zero in Hstop, Hpip.
    apply handleExecute_events; try (intros; exact I).
    unfold stop_not_on_winning_side. cbn [or_sl_price]. unfold slPrice_of.
    pose proof (Binary64Facts.mul_not_negative _ _ Hstop Hpip) as Hd.
    destruct (props_direction props); cbn [nsub nadd nmul float_Number].
    + apply Binary64Facts.sub_not_above, Hd.
    + apply Binary64Facts.add_not_below, Hd.
  - reflexivity.
  - eexists. split; [reflexivity|]. vm_compute. repeat split.
Qed.

Lemma C10_order_request_witness :
  AllEvents (stop_not_on_winning_side (sample_props buy false true))
            (handleExecute (sample_props buy false true) DEFAULT_SETTINGS).
Proof.
  apply (proj1 (proj2 (proj2 C10_order_request)) (sample_props buy false true)
               DEFAULT_SETTINGS);
    vm_compute; reflexivity.
Defined.

(** The claim as stated fails in binary64 when the stop distance is below
    half a unit in the last place of the entry price: a buy at 1e20 with a
    stop of 50 pips of 0.0001, and a buy at 100000 with a stop of 1e-14 pips of
    1, post a stop-loss equal to the entry price, which is not on the losing
    side, although stop_pips > 0 and pip_size > 0. *)
Lemma C10_counterexample :
  (PrimFloat.ltb (of_Q 0) (props_stopPips (distant_props "EURUSD" buy 100000000000000000000 50))
   = true
   /\ PrimFloat.ltb (of_Q 0) (pipSize_of DEFAULT_SETTINGS "EURUSD") = true
   /\ exists request,
        posted (fst (run accepting_broker
                         (handleExecute (distant_props "EURUSD" buy 100000000000000000000 50)
                                        DEFAULT_SETTINGS)))
        = [("/mt5/order", OrderBody request)]
        /\ PrimFloat.ltb (or_sl_price request) (of_Q 100000000000000000000) = false)
  /\ (PrimFloat.ltb (of_Q 0)
        (props_stopPips (distant_props "BTCUSD" buy 100000 (1 # 100000000000000))) = true
      /\ PrimFloat.ltb (of_Q 0) (pipSize_of DEFAULT_SETTINGS "BTCUSD") = true
      /\ exists request,
           posted (fst (run accepting_broker
                            (handleExecute
                               (distant_props "BTCUSD" buy 100000 (1 # 100000000000000))
                               DEFAULT_SETTINGS)))
           = [("/mt5/order", OrderBody request)]
           /\ PrimFloat.ltb (or_sl_price request) (of_Q 100000) = false).
Proof.
  split; (split; [vm_compute; reflexivity|]); (split; [vm_compute; reflexivity|]);
    eexists; (split; [reflexivity|]); vm_compute; reflexivity.
Qed.

(** ** The calculator form *)

Lemma parsed_le_false_positive (p : parsed) :
  p <> NaN -> parsed_le p 0 = false -> positive p.
Proof.
  destruct p as [|negative|q]; cbn; intros Hn Hle.
  - congruence.
  - exact Hle.
  - apply (Q_leb_false q 0). exact Hle.
Qed.

Lemma parsed_gt_false_at_most (p : parsed) (bound : Q) :
  p <> NaN -> parsed_gt p bound = false -> at_most p bound.
Proof.
  destruct p as [|negative|q]; cbn; intros Hn Hgt.
  - congruence.
  - apply negb_false_iff. exact Hgt.
  - apply negb_false_iff in Hgt. apply Qle_bool_iff. exact Hgt.
Qed.

(** What a passing validation establishes. *)
Lemma validateForm_passes (settings : AppSettings Q) (formData : CalculatorFormState) :
  snd (validateForm settings formData) = true ->
  active_symbol settings <> ""
  /\ (str_falsy (form_account_balance formData) = false
      /\ parsed_le (parseFloat (form_account_balance formData)) 0 = false)
  /\ (str_falsy (form_risk_percent formData) = false
      /\ parsed_le (parseFloat (form_risk_percent formData)) 0 = false
      /\ parsed_gt (parseFloat (form_risk_percent formData)) 100 = false)
  /\ (str_falsy (form_entry_price formData) = false
      /\ parsed_le (parseFloat (form_entry_price formData)) 0 = false)
  /\ (str_falsy (form_stop_pips formData) = false
      /\ parsed_le (parseFloat (form_stop_pips formData)) 0 = false)
  /\ (str_falsy (form_pip_value_per_1_lot formData) = false
      /\ parsed_le (parseFloat (form_pip_value_per_1_lot formData)) 0 = false).
Proof.
  unfold validateForm, error_count. cbn [snd err_symbol err_account_balance
    err_risk_percent err_entry_price err_stop_pips err_pip_value_per_1_lot].
  destruct (String.eqb_spec (active_symbol settings) "") as [Hs | Hs];
    [intros Hv; unfold str_falsy in Hv; rewrite Hs in Hv; cbn in Hv;
     repeat (match type of Hv with context [if ?b then _ else _] =>
               destruct b end; cbn in Hv); discriminate|].
  unfold str_falsy at 1. rewrite (proj2 (String.eqb_neq _ _) Hs).
  destruct (str_falsy (form_account_balance formData)),
    (parsed_le (parseFloat (form_account_balance formData)) 0),
    (str_falsy (form_risk_percent formData)),
    (parsed_le (parseFloat (form_risk_percent formData)) 0),
    (parsed_gt (parseFloat (form_risk_percent formData)) 100),
    (str_falsy (form_entry_price formData)),
    (parsed_le (parseFloat (form_entry_price formData)) 0),
    (str_falsy (form_stop_pips formData)),
    (parsed_le (parseFloat (form_stop_pips formData)) 0),
    (str_falsy (form_pip_value_per_1_lot formData)),
    (parsed_le (parseFloat (form_pip_value_per_1_lot formData)) 0);
    cbn; intros Hv; try discriminate; repeat split; assumption.
Qed.

(** A field that comes from a number input and passes its test is a
    positive number; one that is not a positive number fails its test. *)
Lemma number_input_accepted (s : string) :
  number_input_value s ->
  str_falsy s = false -> parsed_le (parseFloat s) 0 = false -> positive (parseFloat s).
Proof.
  intros [-> | Hn] Hs Hle; [discriminate | apply parsed_le_false_positive; assumption].
Qed.

Lemma number_input_rejected (s : string) :
  number_input_value s ->
  ~ positive (parseFloat s) -> str_falsy s || parsed_le (parseFloat s) 0 = true.
Proof.
  intros [-> | Hn] Hneg; [reflexivity|]. apply orb_true_iff. right.
  destruct (parsed_le (parseFloat s) 0) eqn:Hle; [reflexivity|].
  exfalso. apply Hneg, parsed_le_false_positive; assumption.
Qed.

(** When the validated fields come from the number inputs, a passing
    validation puts the parsed inputs in their domains. *)
Lemma validateForm_sound (settings : AppSettings Q) (formData : CalculatorFormState) :
  entered_through_inputs formData ->
  snd (validateForm settings formData) = true ->
  active_symbol settings <> "" /\ in_domain (handleCalculate settings formData).
Proof.
  intros (N1 & N2 & N3 & N4 & N5) Hv.
  destruct (validateForm_passes _ _ Hv)
    as (Hs & [E1 H1] & (E2 & H2 & H2') & [E3 H3] & [E4 H4] & [E5 H5]).
  split; [exact Hs|]. unfold in_domain, handleCalculate. cbn.
  pose proof (number_input_accepted _ N2 E2 H2) as Hrisk.
  repeat split; try (apply number_input_accepted; assumption).
  apply parsed_gt_false_at_most; [|exact H2'].
  intros Hnan. rewrite Hnan in Hrisk. exact Hrisk.
Qed.

(** When no validated field parses to NaN, a passing validation puts the
    parsed inputs in their domains. *)
Lemma validateForm_sound_without_NaN (settings : AppSettings Q)
    (formData : CalculatorFormState) :
  no_NaN formData ->
  snd (validateForm settings formData) = true ->
  active_symbol settings <> "" /\ in_domain (handleCalculate settings formData).
Proof.
  intros (N1 & N2 & N3 & N4 & N5). apply validateForm_sound.
  repeat split; right; assumption.
Qed.

(** The validation passes exactly when it stores no error. *)
Lemma validateForm_no_errors (settings : AppSettings Q) (formData : CalculatorFormState) :
  snd (validateForm settings formData) = true
  <-> fst (validateForm settings formData) = no_errors.
Proof.
  unfold validateForm. cbn [fst snd].
  set (e := {| err_symbol := _ |}). unfold error_count.
  destruct e as [[?|] [?|] [?|] [?|] [?|] [?|]]; cbn; split; intros Hx;
    try reflexivity; discriminate.
Qed.

(** The submit handler calls onCalculate, with the form, exactly when the
    validation passes, and after the errors are stored. *)
Lemma handleSubmit_calculates (settings : AppSettings Q) (formData : CalculatorFormState) :
  handleSubmit settings formData
  = (PreventDefault :: SetErrors (fst (validateForm settings formData))
       :: (if snd (validateForm settings formData) then [OnCalculate formData] else []))%list.
Proof.
  unfold handleSubmit. destruct (validateForm settings formData) as [errors valid].
  reflexivity.
Qed.

(** C8. For a form whose validated fields come from the number inputs (each
    is empty, as a malformed entry arrives, or parses to a number): the
    validation passes only when a symbol is selected and the parsed inputs
    are in their domains - account_balance > 0, risk_percent in (0,100],
    entry_price > 0, stop_pips > 0, pip_value_per_1_lot > 0; onCalculate is
    called, with the form and after the errors are stored, only when the
    validation passes; and a missing symbol and every empty or out-of-range
    field gets its field error, with which the validation fails and
    onCalculate is not called. *)
Theorem C8_validation_domain (settings : AppSettings Q) (formData : CalculatorFormState) :
  entered_through_inputs formData ->
  (snd (validateForm settings formData) = true ->
   active_symbol settings <> "" /\ in_domain (handleCalculate settings formData))
  /\ (forall submitted,
        In (OnCalculate submitted) (handleSubmit settings formData) ->
        submitted = formData /\ snd (validateForm settings formData) = true)
  /\ (snd (validateForm settings formData) = false <->
      fst (validateForm settings formData) <> no_errors)
  /\ (snd (validateForm settings formData) = false ->
      handleSubmit settings formData
      = [PreventDefault; SetErrors (fst (validateForm settings formData))])
  /\ (active_symbol settings = "" ->
      err_symbol (fst (validateForm settings formData)) = Some "Please choose a symbol")
  /\ (~ positive (parseFloat (form_account_balance formData)) ->
      err_account_balance (fst (validateForm settings formData))
      = Some "Account balance must be greater than 0")
  /\ (~ (positive (parseFloat (form_risk_percent formData))
         /\ at_most (parseFloat (form_risk_percent formData)) 100) ->
      err_risk_percent (fst (validateForm settings formData))
      = Some "Risk percent must be between 0 and 100")
  /\ (~ positive (parseFloat (form_entry_price formData)) ->
      err_entry_price (fst (validateForm settings formData))
      = Some "Entry price must be greater than 0")
  /\ (~ positive (parseFloat (form_stop_pips formData)) ->
      err_stop_pips (fst (validateForm settings formData))
      = Some "Stop pips must be greater than 0")
  /\ (~ positive (parseFloat (form_pip_value_per_1_lot formData)) ->
      err_pip_value_per_1_lot (fst (validateForm settings formData))
      = Some "Pip value must be greater than 0").
Proof.
  intros Hin. pose proof Hin as (N1 & N2 & N3 & N4 & N5).
  split; [apply validateForm_sound, Hin|].
  split.
  { intros submitted Hcall. rewrite handleSubmit_calculates in Hcall.
    destruct Hcall as [Hx | [Hx | Hcall]]; try discriminate.
    destruct (snd (validateForm settings formData)); [|destruct Hcall].
    destruct Hcall as [Hx | []]. injection Hx as <-. split; reflexivity. }
  split.
  { rewrite <- validateForm_no_errors.
    destruct (snd (validateForm settings formData)); split; congruence. }
  split.
  { intros Hfail. rewrite handleSubmit_calculates, Hfail. reflexivity. }
  unfold validateForm. cbn [fst err_symbol err_account_balance err_risk_percent
                            err_entry_price err_stop_pips err_pip_value_per_1_lot].
  split; [intros ->; reflexivity|].
  split; [intros Hneg; rewrite (number_input_rejected _ N1 Hneg); reflexivity|].
  split.
  { intros Hneg.
    destruct (str_falsy (form_risk_percent formData)) eqn:E; [reflexivity|].
    destruct (parsed_le (parseFloat (form_risk_percent formData)) 0) eqn:Hle; [reflexivity|].
    destruct (parsed_gt (parseFloat (form_risk_percent formData)) 100) eqn:Hgt; [reflexivity|].
    exfalso. apply Hneg.
    pose proof (number_input_accepted _ N2 E Hle) as Hpos.
    split; [exact Hpos|]. apply parsed_gt_false_at_most; [|exact Hgt].
    intros Hnan. rewrite Hnan in Hpos. exact Hpos. }
  split; [intros Hneg; rewrite (number_input_rejected _ N3 Hneg); reflexivity|].
  split; [intros Hneg; rewrite (number_input_rejected _ N4 Hneg); reflexivity|].
  intros Hneg; rewrite (number_input_rejected _ N5 Hneg); reflexivity.
Qed.

(** A malformed balance arrives as the empty string and is rejected. *)
Lemma C8_validation_domain_witness :
  err_account_balance (fst (validateForm eurusd_settings (form_with_balance "")))
  = Some "Account balance must be greater than 0"
  /\ handleSubmit eurusd_settings (form_with_balance "")
     = [PreventDefault; SetErrors (fst (validateForm eurusd_settings (form_with_balance "")))].
Proof.
  assert (Hin : entered_through_inputs (form_with_balance "")).
  { split; [left; reflexivity|]. repeat split; right; vm_compute; discriminate. }
  destruct (C8_validation_domain eurusd_settings (form_with_balance "") Hin)
    as (_ & _ & _ & Hfail & _ & Hbalance & _).
  split; [apply Hbalance; vm_compute; tauto | apply Hfail; vm_compute; reflexivity].
Defined.

(** * Further properties of the modelled code *)

(** ** Reconciliation: what a tick changes *)

Section ReconciliationMore.
Context {num : Type} `{Number num}.
Local Open Scope list_scope.

Lemma sort_insert_In {A} (cmp : A -> A -> num) (x y : A) (l : list A) :
  In y (sort_insert cmp x l) <-> y = x \/ In y l.
Proof.
  induction l as [|z l IH]; cbn [sort_insert].
  - cbn. intuition.
  - destruct (cmp z x <? of_Q 0)%num; cbn [In]; [rewrite IH|]; intuition.
Qed.

Lemma sort_In {A} (cmp : A -> A -> num) (y : A) (l : list A) :
  In y (sort cmp l) <-> In y l.
Proof.
  induction l as [|x l IH]; cbn [sort]; [reflexivity|].
  rewrite sort_insert_In, IH. cbn. intuition.
Qed.

(** The candidates offered to a pending card are the candidate positions of
    the snapshot. *)
Lemma matches_for_In (positions : list (OpenPositionInfo num)) (t : ManagedTrade)
    (m : OpenPositionInfo num) :
  In m (matches_for positions t) <-> In m positions /\ candidate t m.
Proof.
  unfold matches_for, candidate. rewrite sort_In, filter_In, !andb_true_iff.
  rewrite !Z.eqb_eq, String.eqb_eq. intuition.
Qed.

(** The loop appends to [next], card by card, what each kept card of [prev]
    resolves to. *)
Lemma reconcile_loop_resolved (now : Z) (positions : list (OpenPositionInfo num))
    (prev : list ManagedTrade) :
  forall (claimedTickets : gset Z) (next : list ManagedTrade),
  exists added,
    reconcile_loop now positions (list_to_set (List.map op_ticket positions)) prev
                   claimedTickets next = next ++ added
    /\ Forall2 (resolved_from positions) (List.filter (keeps now positions) prev) added.
Proof.
  induction prev as [|t prev IH]; intros claimed next; cbn [reconcile_loop List.filter].
  - exists []. rewrite app_nil_r. split; [reflexivity | constructor].
  - unfold keeps at 1. destruct (mt_position_ticket t) as [pt|] eqn:Hpt.
    + rewrite bool_decide_eq_false_2 by discriminate. cbn [andb].
      destruct (bool_decide (pt ∈ _)).
      * destruct (IH claimed (next ++ [t])) as (added & -> & Hall).
        exists (t :: added). rewrite <- app_assoc. split; [reflexivity|].
        constructor; [left; reflexivity | exact Hall].
      * apply IH.
    + rewrite bool_decide_eq_true_2 by reflexivity. cbn [andb].
      destruct (now - mt_created_at t >? 60000)%Z; cbn [negb]; [apply IH|].
      destruct (find _ _) as [m|] eqn:Hfind.
      * apply find_some in Hfind as [Hin _]. apply matches_for_In in Hin as [Hin Hcand].
        match goal with |- context [reconcile_loop _ _ _ _ ?c (next ++ [?r])] =>
          destruct (IH c (next ++ [r])) as (added & -> & Hall); exists (r :: added)
        end.
        rewrite <- app_assoc. split; [reflexivity|].
        constructor; [|exact Hall]. right. split; [exact Hpt|].
        exists m. repeat split; try assumption; apply Hcand.
      * destruct (IH claimed (next ++ [t])) as (added & -> & Hall).
        exists (t :: added). rewrite <- app_assoc. split; [reflexivity|].
        constructor; [left; reflexivity | exact Hall].
Qed.

End ReconciliationMore.

(** X1. A tick keeps exactly the resolved cards whose position is in the
    snapshot and the pending cards not older than 60 s, in their order; each
    kept card is unchanged or is a pending card that received the ticket of a
    position of the snapshot with this system's magic, the card's symbol and
    the card's side. In particular no card is added, the ids, order tickets,
    symbols, sides and creation times never change, and a resolved card never
    changes its ticket. *)
Theorem X1_reconcile_keeps_and_resolves {num} `{Number num} (now : Z)
    (positions : list (OpenPositionInfo num)) (prev : list ManagedTrade) :
  Forall2 (resolved_from positions) (List.filter (keeps now positions) prev)
          (reconcile now positions prev)
  /\ List.map mt_id (reconcile now positions prev)
     = List.map mt_id (List.filter (keeps now positions) prev)
  /\ (length (reconcile now positions prev) <= length prev)%nat.
Proof.
  assert (Hall : Forall2 (resolved_from positions) (List.filter (keeps now positions) prev)
                         (reconcile now positions prev)).
  { unfold reconcile.
    destruct (reconcile_loop_resolved now positions prev
                (list_to_set (omap mt_position_ticket
                   (List.filter (fun x => bool_decide (mt_position_ticket x <> None)) prev)))
                []) as (added & -> & Hall).
    exact Hall. }
  split; [exact Hall|]. split.
  - induction Hall as [|t r l l' Hr Hall IH]; [reflexivity|].
    cbn [List.map]. rewrite IH. f_equal.
    destruct Hr as [-> | (_ & m & _ & _ & ->)]; reflexivity.
  - rewrite <- (Forall2_length _ _ _ Hall). apply filter_length_le.
Qed.

Section ReconciliationFixpoint.
Context {num : Type} `{Number num}.
Local Open Scope list_scope.

(** The tickets of the snapshot. *)
Let byTicket_of (positions : list (OpenPositionInfo num)) : gset Z :=
  list_to_set (List.map op_ticket positions).

Lemma In_byTicket (positions : list (OpenPositionInfo num)) (m : OpenPositionInfo num) :
  In m positions -> op_ticket m ∈ byTicket_of positions.
Proof.
  intros Hin. apply elem_of_list_to_set, list_elem_of_In, in_map, Hin.
Qed.

(** An open ticket that is referenced by [next] or by a card still to visit
    is referenced by the result. *)
Lemma reconcile_loop_covers (now : Z) (positions : list (OpenPositionInfo num))
    (prev : list ManagedTrade) :
  forall (claimedTickets : gset Z) (next : list ManagedTrade) (k : Z),
    k ∈ byTicket_of positions ->
    k ∈ claimed_tickets next \/ k ∈ claimed_tickets prev ->
    k ∈ claimed_tickets
          (reconcile_loop now positions (byTicket_of positions) prev claimedTickets next).
Proof.
  induction prev as [|t prev IH]; intros claimed next k Hopen Hk; cbn [reconcile_loop].
  - destruct Hk as [Hk | Hk]; [exact Hk | apply elem_of_nil in Hk; destruct Hk].
  - rewrite claimed_tickets_cons in Hk.
    destruct (mt_position_ticket t) as [pt|] eqn:Hpt.
    + rewrite bool_decide_eq_false_2 by discriminate. cbn [andb].
      destruct (bool_decide (pt ∈ byTicket_of positions)) eqn:Hpt_open.
      * apply IH; [exact Hopen|]. rewrite claimed_tickets_app, elem_of_app. cbn. rewrite Hpt.
        destruct Hk as [Hk | Hk]; [left; left; exact Hk|].
        apply elem_of_cons in Hk as [-> | Hk]; [left; right; left | right; exact Hk].
      * apply IH; [exact Hopen|]. destruct Hk as [Hk | Hk]; [left; exact Hk|].
        apply elem_of_cons in Hk as [-> | Hk]; [|right; exact Hk].
        apply bool_decide_eq_false in Hpt_open. contradiction.
    + rewrite bool_decide_eq_true_2 by reflexivity. cbn [andb].
      destruct (now - mt_created_at t >? 60000)%Z; [apply IH; assumption|].
      destruct (find _ _) as [m|]; (apply IH; [exact Hopen|]);
        (destruct Hk as [Hk | Hk]; [left | right; exact Hk]);
        rewrite claimed_tickets_app, elem_of_app; left; exact Hk.
Qed.

(** A card of the result is settled when a further tick on the same snapshot
    has nothing to do for it. *)
Definition settled (now : Z) (positions : list (OpenPositionInfo num))
    (result : list ManagedTrade) (r : ManagedTrade) : Prop :=
  match mt_position_ticket r with
  | Some k => k ∈ byTicket_of positions
  | None => (now - mt_created_at r >? 60000)%Z = false
            /\ forall m, In m (matches_for positions r) ->
                         op_ticket m ∈ claimed_tickets result
  end.

Lemma reconcile_loop_settled (now : Z) (positions : list (OpenPositionInfo num))
    (prev : list ManagedTrade) :
  forall (claimedTickets : gset Z) (next : list ManagedTrade),
    (forall k, k ∈ claimedTickets -> k ∈ byTicket_of positions ->
               k ∈ claimed_tickets next \/ k ∈ claimed_tickets prev) ->
    forall r,
      In r (reconcile_loop now positions (byTicket_of positions) prev claimedTickets next) ->
      In r next
      \/ settled now positions
           (reconcile_loop now positions (byTicket_of positions) prev claimedTickets next) r.
Proof.
  induction prev as [|t prev IH]; intros claimed next Hinv r Hr; cbn [reconcile_loop] in *.
  - left. exact Hr.
  - destruct (mt_position_ticket t) as [pt|] eqn:Hpt.
    + rewrite bool_decide_eq_false_2 in * by discriminate. cbn [andb] in *.
      destruct (bool_decide (pt ∈ byTicket_of positions)) eqn:Hpt_open.
      * apply IH in Hr.
        -- destruct Hr as [Hr | Hr]; [|right; exact Hr].
           apply in_app_or in Hr as [Hr | [<- | []]]; [left; exact Hr|].
           right. unfold settled. rewrite Hpt. apply bool_decide_eq_true in Hpt_open.
           exact Hpt_open.
        -- intros k Hk Hopen. rewrite claimed_tickets_app, elem_of_app. cbn. rewrite Hpt.
           destruct (Hinv k Hk Hopen) as [Hn | Hp]; [left; left; exact Hn|].
           rewrite claimed_tickets_cons, Hpt in Hp.
           apply elem_of_cons in Hp as [-> | Hp]; [left; right; left | right; exact Hp].
      * apply IH in Hr; [exact Hr|].
        intros k Hk Hopen. destruct (Hinv k Hk Hopen) as [Hn | Hp]; [left; exact Hn|].
        rewrite claimed_tickets_cons, Hpt in Hp.
        apply elem_of_cons in Hp as [-> | Hp]; [|right; exact Hp].
        apply bool_decide_eq_false in Hpt_open. contradiction.
    + rewrite bool_decide_eq_true_2 in * by reflexivity. cbn [andb] in *.
      assert (Hinv' : forall k, k ∈ claimed -> k ∈ byTicket_of positions ->
                                k ∈ claimed_tickets next \/ k ∈ claimed_tickets prev).
      { intros k Hk Hopen. destruct (Hinv k Hk Hopen) as [Hn | Hp]; [left; exact Hn|].
        rewrite claimed_tickets_cons, Hpt in Hp. right. exact Hp. }
      destruct (now - mt_created_at t >? 60000)%Z eqn:Hold; [apply IH in Hr; assumption|].
      destruct (find _ _) as [m|] eqn:Hfind.
      * pose proof Hfind as Hm. apply find_some in Hm as [Hm _].
        apply matches_for_In in Hm as [Hm _].
        apply IH in Hr.
        -- destruct Hr as [Hr | Hr]; [|right; exact Hr].
           apply in_app_or in Hr as [Hr | [<- | []]]; [left; exact Hr|].
           right. unfold settled. cbn. apply In_byTicket, Hm.
        -- intros k Hk Hopen. rewrite claimed_tickets_app, elem_of_app. cbn.
           apply elem_of_union in Hk as [Hk | Hk].
           ++ apply elem_of_singleton in Hk as ->. left. right. left.
           ++ destruct (Hinv' k Hk Hopen) as [Hn | Hp]; [left; left; exact Hn | right; exact Hp].
      * pose proof (IH claimed (next ++ [t])) as IHt.
        assert (Hinv'' : forall k, k ∈ claimed -> k ∈ byTicket_of positions ->
                   k ∈ claimed_tickets (next ++ [t]) \/ k ∈ claimed_tickets prev).
        { intros k Hk Hopen. rewrite claimed_tickets_app, elem_of_app.
          destruct (Hinv' k Hk Hopen) as [Hn | Hp]; [left; left; exact Hn | right; exact Hp]. }
        destruct (IHt Hinv'' r Hr) as [Hr' | Hr']; [|right; exact Hr'].
        apply in_app_or in Hr' as [Hr' | [<- | []]]; [left; exact Hr'|].
        right. unfold settled. rewrite Hpt. split; [exact Hold|].
        intros m Hm. pose proof (find_none _ _ Hfind m Hm) as Hclaimed.
        apply negb_false_iff, bool_decide_eq_true in Hclaimed.
        apply matches_for_In in Hm as [Hm _].
        apply reconcile_loop_covers; [apply In_byTicket, Hm|].
        rewrite claimed_tickets_app, elem_of_app.
        destruct (Hinv' _ Hclaimed (In_byTicket _ _ Hm)) as [Hn | Hp];
          [left; left; exact Hn | right; exact Hp].
Qed.

(** On settled cards whose candidates are all claimed the loop only copies. *)
Lemma reconcile_loop_fixed (now : Z) (positions : list (OpenPositionInfo num))
    (claimedTickets : gset Z) (trades : list ManagedTrade) :
  forall next : list ManagedTrade,
    (forall r, In r trades ->
       match mt_position_ticket r with
       | Some k => k ∈ byTicket_of positions
       | None => (now - mt_created_at r >? 60000)%Z = false
                 /\ forall m, In m (matches_for positions r) -> op_ticket m ∈ claimedTickets
       end) ->
    reconcile_loop now positions (byTicket_of positions) trades claimedTickets next
    = next ++ trades.
Proof.
  induction trades as [|t trades IH]; intros next Hall; cbn [reconcile_loop].
  - rewrite app_nil_r. reflexivity.
  - pose proof (Hall t (or_introl eq_refl)) as Ht.
    assert (Hrest : forall r, In r trades ->
              match mt_position_ticket r with
              | Some k => k ∈ byTicket_of positions
              | None => (now - mt_created_at r >? 60000)%Z = false
                        /\ forall m, In m (matches_for positions r) ->
                                     op_ticket m ∈ claimedTickets
              end) by (intros r Hr; apply Hall; right; exact Hr).
    destruct (mt_position_ticket t) as [pt|] eqn:Hpt.
    + rewrite bool_decide_eq_false_2 by discriminate. cbn [andb].
      rewrite bool_decide_eq_true_2 by exact Ht.
      rewrite (IH _ Hrest), <- app_assoc. reflexivity.
    + destruct Ht as [Hyoung Hclaimed].
      rewrite Hyoung, andb_false_r.
      destruct (find _ _) as [m|] eqn:Hfind.
      * apply find_some in Hfind as [Hm Hfree].
        apply negb_true_iff, bool_decide_eq_false in Hfree.
        exfalso. apply Hfree, Hclaimed, Hm.
      * rewrite (IH _ Hrest), <- app_assoc. reflexivity.
Qed.

Lemma reconcile_settled (now : Z) (positions : list (OpenPositionInfo num))
    (prev : list ManagedTrade) (r : ManagedTrade) :
  In r (reconcile now positions prev) ->
  settled now positions (reconcile now positions prev) r.
Proof.
  intros Hr. unfold reconcile in *. fold (byTicket_of positions) in *.
  apply reconcile_loop_settled in Hr.
  - destruct Hr as [[] | Hr]. exact Hr.
  - intros k Hk _. right. apply elem_of_list_to_set in Hk.
    apply list_elem_of_omap in Hk as (t & Ht & Htk).
    apply list_elem_of_omap. exists t. split; [|exact Htk].
    apply list_elem_of_In in Ht. apply filter_In in Ht as [Ht _].
    apply list_elem_of_In, Ht.
Qed.

End ReconciliationFixpoint.

(** X2. After the updater has run on a snapshot, every position ticket that a
    card references is the ticket of a position of that snapshot. *)
Theorem X2_reconcile_tickets_are_open {num} `{Number num} (now : Z)
    (positions : list (OpenPositionInfo num)) (prev : list ManagedTrade) (k : Z) :
  k ∈ claimed_tickets (reconcile now positions prev) ->
  exists m, In m positions /\ op_ticket m = k.
Proof.
  intros Hk. unfold claimed_tickets in Hk.
  apply list_elem_of_omap in Hk as (r & Hr & Hrk).
  apply list_elem_of_In, reconcile_settled in Hr. unfold settled in Hr. rewrite Hrk in Hr.
  apply elem_of_list_to_set, list_elem_of_In, in_map_iff in Hr as (m & Hm & Hin).
  exists m. split; [exact Hin | exact Hm].
Qed.

Lemma X2_reconcile_tickets_are_open_witness :
  exists m, In m [sample_open_position (num := Q) 7 5; sample_open_position 8 6;
                  sample_open_position 9 7]
            /\ op_ticket m = 9.
Proof.
  apply (X2_reconcile_tickets_are_open (num := Q) 2000
           [sample_open_position 7 5; sample_open_position 8 6; sample_open_position 9 7]
           sample_trades 9).
  vm_compute. right. left.
Defined.

(** X3. The updater is idempotent: running it again on the same snapshot at
    the same clock reading changes nothing. *)
Theorem X3_reconcile_idempotent {num} `{Number num} (now : Z)
    (positions : list (OpenPositionInfo num)) (prev : list ManagedTrade) :
  reconcile now positions (reconcile now positions prev) = reconcile now positions prev.
Proof.
  set (result := reconcile now positions prev).
  unfold reconcile at 1. fold result.
  rewrite reconcile_loop_fixed; [reflexivity|].
  intros r Hr. pose proof (reconcile_settled now positions prev r Hr) as Hs.
  unfold settled in Hs. fold result in Hs.
  destruct (mt_position_ticket r); [exact Hs|].
  destruct Hs as [Hyoung Hclaimed]. split; [exact Hyoung|].
  intros m Hm. apply initial_claimedTickets, Hclaimed, Hm.
Qed.

Section NewestFirst.
Local Open Scope list_scope.
Local Open Scope Q_scope.

(** Newest first: no position is followed by a newer one. *)
Let newest_first : list (OpenPositionInfo Q) -> Prop :=
  StronglySorted (fun a b => time_or_0 b <= time_or_0 a).

Lemma sort_insert_newest_first (x : OpenPositionInfo Q) (l : list (OpenPositionInfo Q)) :
  newest_first l ->
  newest_first (sort_insert (fun a b => time_or_0 b - time_or_0 a)%num x l).
Proof.
  unfold newest_first. induction 1 as [|y l Hs IH Hall]; cbn [sort_insert].
  - constructor; constructor.
  - destruct (time_or_0 x - time_or_0 y <? of_Q 0)%num eqn:Hlt.
    + apply Q_ltb_true in Hlt. cbn in Hlt. constructor; [exact IH|].
      apply List.Forall_forall. intros z Hz. apply sort_insert_In in Hz as [-> | Hz].
      * lra.
      * rewrite List.Forall_forall in Hall. apply Hall, Hz.
    + apply Q_ltb_false in Hlt. cbn in Hlt. constructor; [constructor; assumption|].
      constructor; [lra|].
      eapply Forall_impl; [exact Hall|]. cbn. intros z Hz. lra.
Qed.

Lemma sort_newest_first (l : list (OpenPositionInfo Q)) :
  newest_first (sort (fun a b => time_or_0 b - time_or_0 a)%num l).
Proof.
  induction l as [|x l IH]; cbn [sort]; [constructor|].
  apply sort_insert_newest_first, IH.
Qed.

(** The first element that passes a test in a list sorted newest first is at
    least as new as every element that passes. *)
Lemma find_newest (f : OpenPositionInfo Q -> bool) (l : list (OpenPositionInfo Q))
    (m : OpenPositionInfo Q) :
  newest_first l -> List.find f l = Some m ->
  forall p, In p l -> f p = true -> time_or_0 p <= time_or_0 m.
Proof.
  unfold newest_first. induction 1 as [|y l Hs IH Hall]; cbn [List.find]; [discriminate|].
  destruct (f y) eqn:Hfy.
  - intros [= <-] p [<- | Hp] _; [apply Qle_refl|].
    rewrite List.Forall_forall in Hall. apply Hall, Hp.
  - intros Hfind p [<- | Hp] Hfp; [congruence|]. apply IH; assumption.
Qed.

End NewestFirst.

(** X4. A pending card is offered the candidates newest first: the position it
    takes is a candidate of the snapshot that no card has claimed, and no
    unclaimed candidate has a later time (a missing time counts as 0; exact
    arithmetic). It takes none only when every candidate is claimed. *)
Theorem X4_pending_takes_newest_unclaimed (positions : list (OpenPositionInfo Q))
    (claimedTickets : gset Z) (t : ManagedTrade) :
  match List.find (fun m => negb (bool_decide (op_ticket m ∈ claimedTickets)))
                  (matches_for positions t) with
  | Some m =>
      In m positions /\ candidate t m /\ (op_ticket m ∉ claimedTickets)
      /\ forall p, In p positions -> candidate t p -> (op_ticket p ∉ claimedTickets) ->
                   (time_or_0 p <= time_or_0 m)%Q
  | None =>
      forall p, In p positions -> candidate t p -> op_ticket p ∈ claimedTickets
  end.
Proof.
  destruct (List.find _ _) as [m|] eqn:Hfind.
  - pose proof Hfind as Hm. apply find_some in Hm as [Hm Hfree].
    apply matches_for_In in Hm as [Hin Hcand].
    apply negb_true_iff, bool_decide_eq_false in Hfree.
    repeat split; try assumption; try apply Hcand.
    intros p Hp Hpc Hpfree.
    eapply find_newest; [apply sort_newest_first | exact Hfind | |].
    + apply (matches_for_In positions t p). split; assumption.
    + apply negb_true_iff, bool_decide_eq_false. exact Hpfree.
  - intros p Hp Hpc.
    pose proof (find_none _ _ Hfind p) as Hnone.
    apply negb_false_iff, bool_decide_eq_true in Hnone; [exact Hnone|].
    apply matches_for_In. split; assumption.
Qed.

(** ** The trade list under the page's callbacks *)

(** X5. Placing an order keeps the position tickets of the cards unique
    exactly when they were unique and the ticket reported for the new order
    is null or not yet referenced by a card: the callback appends the card
    without looking at the list. Removing a card always keeps them unique. *)
Theorem X5_callbacks_and_unique_tickets :
  (forall (lastFormData : CalculatorFormState) (order_ticket : Z) (position_ticket : option Z)
          (now_id now : Z) (prev : list ManagedTrade),
      unique_tickets (onOrderPlaced lastFormData order_ticket position_ticket now_id now prev)
      <-> unique_tickets prev
          /\ forall k, position_ticket = Some k -> k ∉ claimed_tickets prev)
  /\ (forall (id : string) (prev : list ManagedTrade),
        unique_tickets prev -> unique_tickets (onRemove id prev)).
Proof.
  split.
  - intros f ot pt now_id now prev. unfold unique_tickets, onOrderPlaced.
    rewrite claimed_tickets_app. cbn. destruct pt as [k|]; cbn.
    + rewrite NoDup_app. split.
      * intros (Hnd & Hdisj & _). split; [exact Hnd|].
        intros k' [= <-] Hin. apply (Hdisj k Hin). left.
      * intros [Hnd Hfresh]. split; [exact Hnd|]. split.
        -- intros x Hx Hx'. apply list_elem_of_singleton in Hx' as ->.
           exact (Hfresh k eq_refl Hx).
        -- apply NoDup_singleton.
    + rewrite app_nil_r. split; [intros Hnd; split; [exact Hnd | discriminate] | tauto].
  - intros id prev. unfold unique_tickets, onRemove.
    induction prev as [|t prev IH]; cbn [List.filter]; [tauto|].
    rewrite claimed_tickets_cons. intros Hnd.
    assert (Hsub : forall k, k ∈ claimed_tickets
                       (List.filter (fun x => negb (String.eqb (mt_id x) id)) prev) ->
                     k ∈ claimed_tickets prev).
    { intros k Hk. unfold claimed_tickets in *.
      apply list_elem_of_omap in Hk as (x & Hx & Hxk). apply list_elem_of_omap.
      exists x. split; [|exact Hxk].
      apply list_elem_of_In. apply list_elem_of_In, filter_In in Hx as [Hx _]. exact Hx. }
    destruct (mt_position_ticket t) as [k|] eqn:Hk.
    + apply NoDup_cons in Hnd as [Hnot Hnd].
      destruct (negb (String.eqb (mt_id t) id)); [|apply IH, Hnd].
      rewrite claimed_tickets_cons, Hk. apply NoDup_cons. split; [|apply IH, Hnd].
      intros Hin. apply Hnot, Hsub, Hin.
    + destruct (negb (String.eqb (mt_id t) id)); [|apply IH, Hnd].
      rewrite claimed_tickets_cons, Hk. apply IH, Hnd.
Qed.

Lemma X5_callbacks_and_unique_tickets_witness :
  unique_tickets (onRemove "501-1" sample_trades).
Proof.
  apply (proj2 X5_callbacks_and_unique_tickets "501-1" sample_trades).
  unfold unique_tickets. cbn. apply NoDup_singleton.
Defined.

(** ** The execute handler when armed *)

(** Any two values of [unit] are equal. *)
Lemma unit_eq (u v : unit) : u = v.
Proof. destruct u, v. reflexivity. Qed.

(** X6. An armed execute handler, whatever the broker answers: it never
    throws; it raises setLoading(true), the log line, one POST of the order,
    one callback and setLoading(false), in this order, so the loading flag is
    reset on every path; the callback is onOrderPlaced exactly when the
    response has success and a non-zero order ticket (order_ticket, or ticket
    when order_ticket is missing), and onError otherwise, with the response's
    error, the thrown error's message, or a default text. *)
Theorem X6_handleExecute_armed {num} `{Number num} (props : ExecuteTradeButtonProps num)
    (settings : AppSettings num) (env : forall X, event num X -> X) :
  props_armed props = true ->
  exists (request : OrderRequest num) (callback : event num unit),
    run env (handleExecute props settings)
    = ([raise (SetLoading true); raise (ConsoleLog "Executing order:");
        raise (ApiPost "/mt5/order" (OrderBody request)); raise callback;
        raise (SetLoading false)], inr tt)
    /\ or_ui_armed request = true
    /\ match env _ (ApiPost "/mt5/order" (OrderBody request)) with
       | inl e => callback = OnError (error_text e)
       | inr response =>
           match nullish (order_ticket (data response)) (ticket (data response)) with
           | Some t =>
               if success (data response) && negb (t =? 0)%Z
               then callback = OnOrderPlaced t (position_ticket (data response))
               else callback = OnError (or_else (error (data response)) "Order failed")
           | None => callback = OnError (or_else (error (data response)) "Order failed")
           end
       end.
Proof.
  intros Harmed. unfold handleExecute, raise. rewrite Harmed. cbn [negb].
  eexists. unfold placeOrder, post, trigger. cbn.
  match goal with |- context [env _ (ApiPost ?u ?b)] =>
    destruct (env _ (ApiPost u b)) as [e | response] eqn:Hanswer end; cbn.
  - eexists. split; [f_equal; apply f_equal; apply unit_eq|]. split; [reflexivity|].
    rewrite Hanswer. reflexivity.
  - destruct (nullish (order_ticket (data response)) (ticket (data response))) as [t|] eqn:Ht.
    + destruct (success (data response) && negb (t =? 0)%Z) eqn:Hok; cbn;
        eexists; (split; [f_equal; apply f_equal; apply unit_eq|]); (split; [reflexivity|]);
        rewrite Hanswer, Ht, Hok; reflexivity.
    + cbn. eexists. split; [f_equal; apply f_equal; apply unit_eq|]. split; [reflexivity|].
      rewrite Hanswer, Ht. reflexivity.
Qed.

Lemma X6_handleExecute_armed_witness :
  exists (request : OrderRequest Q) (callback : event Q unit),
    run accepting_broker
        (handleExecute (num := Q) (sample_props buy false true) DEFAULT_SETTINGS)
    = ([raise (SetLoading true); raise (ConsoleLog "Executing order:");
        raise (ApiPost "/mt5/order" (OrderBody request)); raise callback;
        raise (SetLoading false)], inr tt)
    /\ callback = OnOrderPlaced 501 (Some 7).
Proof.
  destruct (X6_handleExecute_armed (num := Q) (sample_props buy false true) DEFAULT_SETTINGS
              accepting_broker eq_refl) as (request & callback & Hrun & _ & Hcb).
  exists request, callback. split; [exact Hrun | exact Hcb].
Defined.

(** In exact arithmetic a number is truthy exactly when it is not zero. *)
Lemma Q_truthy (x : Q) : truthy x = true <-> ~ (x == 0)%Q.
Proof.
  unfold truthy. rewrite orb_true_iff, !Q_ltb_true. cbn [of_Q Q_Number]. split.
  - intros [Hlt | Hgt] Hz; rewrite Hz in *; discriminate.
  - intros Hnz. destruct (Qlt_le_dec x 0) as [Hlt | Hle]; [left; exact Hlt|].
    right. apply Qle_lt_or_eq in Hle as [Hgt | Heq]; [exact Hgt|].
    exfalso. apply Hnz. symmetry. exact Heq.
Qed.

(** X7. The pip size that the execute handler uses is never zero and never
    NaN, in exact and in binary64 arithmetic: it is 0.0001, or the pip size of
    a preset of the symbol that is neither zero nor NaN. A symbol without a
    preset, or whose first preset has pip size 0, gets 0.0001. *)
Theorem X7_pip_size_never_zero :
  (forall num (N : Number num) (settings : AppSettings num) (symbol : string),
      pipSize_of settings symbol = of_Q 0.0001
      \/ exists p, In p (symbol_presets settings) /\ sp_symbol p = symbol
                   /\ truthy (sp_pip_size p) = true
                   /\ pipSize_of settings symbol = sp_pip_size p)
  /\ (forall (settings : AppSettings Q) (symbol : string),
        ~ (pipSize_of settings symbol == 0)%Q
        /\ match List.find (fun p => String.eqb (sp_symbol p) symbol)
                           (symbol_presets settings) with
           | Some p => (sp_pip_size p == 0)%Q -> pipSize_of settings symbol = 0.0001%Q
           | None => pipSize_of settings symbol = 0.0001%Q
           end)
  /\ (forall (settings : AppSettings PrimFloat.float) (symbol : string),
        truthy (pipSize_of settings symbol) = true).
Proof.
  split; [|split].
  - intros num N settings symbol. unfold pipSize_of.
    destruct (List.find _ _) as [p|] eqn:Hfind; [|left; reflexivity].
    destruct (truthy (sp_pip_size p)) eqn:Ht; [right | left; reflexivity].
    apply find_some in Hfind as [Hin Heq]. apply String.eqb_eq in Heq.
    exists p. repeat split; assumption.
  - intros settings symbol. split.
    + unfold pipSize_of. destruct (List.find _ _) as [p|]; [|discriminate].
      destruct (truthy (sp_pip_size p)) eqn:Ht; [apply Q_truthy, Ht | discriminate].
    + unfold pipSize_of. destruct (List.find _ _) as [p|]; [|reflexivity].
      intros Hz. destruct (truthy (sp_pip_size p)) eqn:Ht; [|reflexivity].
      apply Q_truthy in Ht. contradiction.
  - intros settings symbol. unfold pipSize_of.
    destruct (List.find _ _) as [p|]; [|vm_compute; reflexivity].
    destruct (truthy (sp_pip_size p)) eqn:Ht; [exact Ht | vm_compute; reflexivity].
Qed.

(** ** The action handlers of the panel *)

(** Steps through a handler's run: the answers of the environment are
    split into their cases. *)
Ltac run_cases env :=
  repeat (cbn;
          match goal with
          | |- context [env _ (Api (ApiPost ?u ?b))] =>
              let a := fresh "answer" in
              destruct (env _ (Api (ApiPost u b))) as [? | a] eqn:?
          | |- context [env _ (PostMoveToBE ?u ?b)] =>
              let a := fresh "beRes" in
              destruct (env _ (PostMoveToBE u b)) as [? | a] eqn:?
          | |- context [if negb (success ?r) then _ else _] => destruct (success r) eqn:?
          | |- context [if success ?r then _ else _] => destruct (success r) eqn:?
          end);
  cbn.

(** X8. "TP1 now" with a resolved ticket, whatever the backend answers: the
    handler never throws; its first event sets the loading state to "tp1" and
    its last event clears it; it calls onActionComplete exactly once, for the
    action "tp1"; and every request it posts carries the panel's armed flag.
    Without a ticket it does nothing. *)
Theorem X8_handleTP1Now_shape {num} `{Number num} (positionTicket : option Z)
    (position : option (PositionInfo num)) (partialPercentLocal : num)
    (armed moveToBEEnabled : bool) (beBufferPips : num)
    (env : forall X, panelAction num X -> X) :
  let handler := handleTP1Now positionTicket position partialPercentLocal armed
                              moveToBEEnabled beBufferPips in
  snd (run env handler) = inr tt
  /\ AllEvents (fun X ev => request_armed ev = None \/ request_armed ev = Some armed) handler
  /\ match positionTicket with
     | None => fst (run env handler) = []
     | Some _ =>
         exists ok,
           omap reported (fst (run env handler)) = [("tp1", ok)]
           /\ omap sets_loading (fst (run env handler)) = [Some "tp1"; None]
           /\ option_map sets_loading (hd_error (fst (run env handler)))
              = Some (Some (Some "tp1"))
           /\ sets_loading (List.last (fst (run env handler)) (raise (PanelSetLoading None)))
              = Some None
     end.
Proof.
  intros handler. subst handler. unfold handleTP1Now.
  destruct positionTicket as [ticket|]; [|repeat split; exact I].
  unfold api, partialClose, post, moveToBE, trigger, applyTp1HintFromPartialClose.
  split; [|split].
  - run_cases env; try (destruct position; cbn); try destruct moveToBEEnabled;
      run_cases env; f_equal; apply unit_eq.
  - cbn. split; [left; reflexivity|]. intros [].
    split; [right; reflexivity|]. intros [e | answer]; cbn.
    + split; [left; reflexivity|]. intros []. cbn. split; [left; reflexivity|]. intros [].
      exact I.
    + destruct (success (data answer)); cbn.
      * split; [left; reflexivity|]. intros []. cbn.
        split; [left; reflexivity|]. intros []. cbn.
        destruct moveToBEEnabled; cbn.
        -- split; [right; reflexivity|]. intros [e | beRes]; cbn;
             (split; [left; reflexivity|]); intros []; cbn;
             (split; [left; reflexivity|]); intros []; exact I.
        -- split; [left; reflexivity|]. intros []. cbn.
           split; [left; reflexivity|]. intros []. exact I.
      * destruct position; cbn.
        -- split; [left; reflexivity|]. intros []. cbn.
           split; [left; reflexivity|]. intros []. cbn.
           split; [left; reflexivity|]. intros []. exact I.
        -- split; [left; reflexivity|]. intros []. cbn.
           split; [left; reflexivity|]. intros []. exact I.
  - run_cases env; try (destruct position; cbn); try destruct moveToBEEnabled;
      run_cases env; eexists; repeat split.
Qed.

(** Splits the conjunctions and existentials among the hypotheses. *)
Ltac break_hyps :=
  repeat match goal with
         | Hc : _ /\ _ |- _ => destruct Hc
         | He : exists _, _ |- _ => destruct He
         end.

(** X9. "TP1 now": the breakeven request is posted exactly when the move is
    enabled and the partial close answered with success; TP1 is marked done
    exactly when the partial close answered with success; and the action is
    reported as successful exactly when the partial close succeeded and the
    breakeven call, if made, returned an answer - whether or not that answer
    says the stop was moved. A rejected breakeven call is reported as a
    failed "tp1" although the partial close was executed. *)
Theorem X9_handleTP1Now_breakeven {num} `{Number num} (ticket : Z)
    (position : option (PositionInfo num)) (partialPercentLocal : num)
    (armed moveToBEEnabled : bool) (beBufferPips : num)
    (env : forall X, panelAction num X -> X) :
  let trace := fst (run env (handleTP1Now (Some ticket) position partialPercentLocal armed
                                          moveToBEEnabled beBufferPips)) in
  let closed := exists res,
      env _ (Api (ApiPost "/mt5/partial-close"
                    (PartialCloseBody (tp1_request ticket partialPercentLocal armed))))
      = inr res /\ success (data res) = true in
  let answered := exists beRes,
      env _ (PostMoveToBE "/mt5/move-to-be"
               {| mbe_position_ticket := ticket; mbe_buffer_pips := beBufferPips;
                  mbe_ui_armed := armed |}) = inr beRes in
  (existsb is_move_to_be trace = true <-> moveToBEEnabled = true /\ closed)
  /\ (existsb sets_tp1_done trace = true <-> closed)
  /\ (omap reported trace = [("tp1", true)]
      <-> closed /\ (moveToBEEnabled = true -> answered)).
Proof.
  cbv zeta. unfold handleTP1Now, tp1_request, api, partialClose, post, moveToBE, trigger,
    applyTp1HintFromPartialClose.
  cbn.
  destruct (env _ (Api (ApiPost _ _))) as [e | res]; cbn.
  - repeat split; try discriminate; intros; break_hyps; discriminate.
  - destruct (success (data res)) eqn:Hok; cbn.
    + destruct moveToBEEnabled; cbn.
      * destruct (env _ (PostMoveToBE _ _)) as [e | beRes]; cbn.
        -- repeat split; try discriminate; eauto.
           intros [_ Hans]. destruct (Hans eq_refl) as [? ?]. discriminate.
        -- repeat split; try discriminate; eauto.
      * repeat split; try discriminate; eauto; intros; break_hyps; discriminate.
    + destruct position; cbn;
        repeat split; try discriminate; intros; break_hyps;
        match goal with Heq : inr _ = inr _ |- _ => injection Heq as <- end; congruence.
Qed.

(** X10. "Close Position" with a resolved ticket, whatever the backend
    answers: the handler sets the loading state to "close", posts exactly one
    request - the partial close of 100 percent of that ticket with the panel's
    armed flag - calls onActionComplete once for the action "close" and clears
    the loading state; it never throws; and it reports success exactly when
    the answer has success = true. *)
Theorem X10_handleClosePosition {num} `{Number num} (ticket : Z) (armed : bool)
    (env : forall X, panelAction num X -> X) :
  let request := Api (ApiPost "/mt5/partial-close"
                        (PartialCloseBody (tp1_request ticket (of_Q 100) armed))) in
  exists ok message,
    run env (handleClosePosition (Some ticket) armed)
    = ([raise (PanelSetLoading (Some "close")); raise request;
        raise (ActionComplete "close" ok message); raise (PanelSetLoading None)],
       inr tt)
    /\ (ok = true <-> exists res, env _ request = inr res /\ success (data res) = true).
Proof.
  cbv zeta. unfold handleClosePosition, tp1_request, closePosition, api, post, trigger, raise.
  cbn. destruct (env _ (Api (ApiPost _ _))) as [e | res]; cbn.
  - eexists _, _. split; [f_equal; apply f_equal, unit_eq|].
    split; [discriminate | intros; break_hyps; discriminate].
  - destruct (success (data res)) eqn:Hok; cbn;
      eexists _, _; (split; [f_equal; apply f_equal, unit_eq|]).
    + split; eauto.
    + split; [discriminate|]. intros (res' & [= <-] & Hs). congruence.
Qed.

(** X11. "BE SL" with a resolved ticket, whatever the backend answers: the
    handler sets the loading state to "be", posts exactly one request - the
    move to breakeven of that ticket with the panel's buffer and armed flag -
    calls onActionComplete once for "move_be" and clears the loading state; it
    never throws; and it reports success exactly when the answer has
    success = true. *)
Theorem X11_handleMoveToBE {num} `{Number num} (ticket : Z) (armed : bool)
    (beBufferPips : num) (env : forall X, panelAction num X -> X) :
  let request := PostMoveToBE "/mt5/move-to-be"
                   {| mbe_position_ticket := ticket; mbe_buffer_pips := beBufferPips;
                      mbe_ui_armed := armed |} in
  exists ok message,
    run env (handleMoveToBE (Some ticket) armed beBufferPips)
    = ([raise (PanelSetLoading (Some "be")); raise request;
        raise (ActionComplete "move_be" ok message); raise (PanelSetLoading None)],
       inr tt)
    /\ (ok = true <-> exists res, env _ request = inr res /\ success res = true).
Proof.
  cbv zeta. unfold handleMoveToBE, moveToBE, trigger, raise.
  cbn. destruct (env _ (PostMoveToBE _ _)) as [e | res]; cbn.
  - eexists _, _. split; [f_equal; apply f_equal, unit_eq|].
    split; [discriminate | intros; break_hyps; discriminate].
  - destruct (success res) eqn:Hok; cbn;
      eexists _, _; (split; [f_equal; apply f_equal, unit_eq|]).
    + split; eauto.
    + split; [discriminate|]. intros (res' & [= <-] & Hs). congruence.
Qed.

(** ** The poll: the stored reference is the latest timestamp *)

Lemma pollOnce_tp1_ref (refs : PollRefs Q) (fetched : exn + WatcherStatus Q) :
  lastSeenTp1Ts (fst (pollOnce refs fetched))
  = match polled_tp1 fetched with
    | Some ts => if (ts >? lastSeenTp1Ts refs)%num then ts else lastSeenTp1Ts refs
    | None => lastSeenTp1Ts refs
    end
  /\ forall ts, In ts (tp1_notified (snd (pollOnce refs fetched))) -> polled_tp1 fetched = Some ts.
Proof.
  destruct fetched as [e | status]; [split; [reflexivity | intros ts []]|].
  unfold pollOnce, polled_tp1.
  destruct (last_tp1_event status) as [tp1Evt|];
    [destruct (tp1e_timestamp tp1Evt) as [ts|] eqn:Hts;
       [destruct (ts >? lastSeenTp1Ts refs)%num|]|];
    (destruct (last_sl_event status) as [slEvt|];
       [destruct (sle_timestamp slEvt) as [ts'|];
          [destruct (ts' >? lastSeenSlTs refs)%num|]|]);
    cbn; rewrite ?Hts; cbn; (split; [reflexivity|]); intros x Hx;
    repeat (destruct Hx as [Hx | Hx]; [congruence|]); destruct Hx.
Qed.

Lemma omap_cons_eq {A B} (f : A -> option B) (x : A) (l : list A) :
  omap f (x :: l) = match f x with
                    | Some y => y :: omap f l
                    | None => omap f l
                    end.
Proof. reflexivity. Qed.

(** X12. Over any sequence of polls the stored TP1 reference ends as the
    latest timestamp seen: it is at least the initial reference and every
    numeric timestamp polled, it is one of them, and every toast shown carries
    a timestamp that some poll returned (exact arithmetic). *)
Theorem X12_reference_is_latest_timestamp (refs : PollRefs Q)
    (polls : list (exn + WatcherStatus Q)) :
  let final := lastSeenTp1Ts (fst (pollAll refs polls)) in
  (lastSeenTp1Ts refs <= final)%Q
  /\ Forall (fun ts => (ts <= final)%Q) (omap polled_tp1 polls)
  /\ (final = lastSeenTp1Ts refs \/ In final (omap polled_tp1 polls))
  /\ forall ts, In ts (tp1_notified (snd (pollAll refs polls))) ->
                In ts (omap polled_tp1 polls).
Proof.
  cbv zeta. revert refs. induction polls as [|fetched polls IH]; intros refs.
  - cbn. split; [apply Qle_refl|]. split; [constructor|]. split; [left; reflexivity|].
    intros ts [].
  - rewrite pollAll_cons, omap_cons_eq. cbn [fst snd].
    destruct (IH (fst (pollOnce refs fetched))) as (Hle & Hall & Hfinal & Hnot).
    destruct (pollOnce_tp1_ref refs fetched) as [Href Hshown].
    set (final := lastSeenTp1Ts (fst (pollAll (fst (pollOnce refs fetched)) polls))) in *.
    assert (Hnotified : forall ts,
               In ts (tp1_notified (snd (pollOnce refs fetched)
                                    ++ snd (pollAll (fst (pollOnce refs fetched)) polls))%list) ->
               In ts (match polled_tp1 fetched with
                      | Some y => y :: omap polled_tp1 polls
                      | None => omap polled_tp1 polls
                      end)).
    { intros ts Hts. rewrite tp1_notified_app in Hts.
      apply in_app_or in Hts as [Hts | Hts].
      - rewrite (Hshown ts Hts). left. reflexivity.
      - destruct (polled_tp1 fetched); [right|]; apply Hnot, Hts. }
    destruct (polled_tp1 fetched) as [ts|] eqn:Hpolled.
    + destruct (ts >? lastSeenTp1Ts refs)%num eqn:Hnew; rewrite Href in *.
      * apply Q_ltb_true in Hnew. split; [lra|]. split; [constructor; assumption|].
        split; [|exact Hnotified].
        right. destruct Hfinal as [-> | Hin]; [left; reflexivity | right; exact Hin].
      * apply Q_ltb_false in Hnew. split; [exact Hle|]. split; [constructor; [lra | exact Hall]|].
        split; [|exact Hnotified].
        destruct Hfinal as [Heq | Hin]; [left; exact Heq | right; right; exact Hin].
    + rewrite Href in *. split; [exact Hle|]. split; [exact Hall|].
      split; [exact Hfinal | exact Hnotified].
Qed.

(** ** The form: validation is exact away from NaN *)

Lemma positive_parsed_le (s : string) :
  positive (parseFloat s) -> str_falsy s = false /\ parsed_le (parseFloat s) 0 = false.
Proof.
  intros Hpos. split.
  - unfold str_falsy. destruct (String.eqb_spec s "") as [-> | Hne]; [|reflexivity].
    vm_compute in Hpos. destruct Hpos.
  - destruct (parseFloat s) as [|negative|q]; cbn in *.
    + destruct Hpos.
    + exact Hpos.
    + apply (Q_leb_false q 0). exact Hpos.
Qed.

Lemma at_most_parsed_gt (p : parsed) (bound : Q) :
  at_most p bound -> positive p -> parsed_gt p bound = false.
Proof.
  destruct p as [|negative|q]; cbn; intros Hmost Hpos.
  - destruct Hmost.
  - congruence.
  - apply negb_false_iff, Qle_bool_iff, Hmost.
Qed.

(** Inputs in their domains, with a symbol selected, pass the validation. *)
Lemma validateForm_complete (settings : AppSettings Q) (formData : CalculatorFormState) :
  active_symbol settings <> "" ->
  in_domain (handleCalculate settings formData) ->
  validateForm settings formData = (no_errors, true).
Proof.
  intros Hsym (H1 & H2 & H2' & H3 & H4 & H5). cbn in H1, H2, H2', H3, H4, H5.
  unfold validateForm.
  destruct (positive_parsed_le _ H1) as [-> ->].
  destruct (positive_parsed_le _ H2) as [-> ->].
  rewrite (at_most_parsed_gt _ _ H2' H2).
  destruct (positive_parsed_le _ H3) as [-> ->].
  destruct (positive_parsed_le _ H4) as [-> ->].
  destruct (positive_parsed_le _ H5) as [-> ->].
  unfold str_falsy. destruct (String.eqb_spec (active_symbol settings) "") as [Hs | _];
    [contradiction | reflexivity].
Qed.

(** X13. For a form none of whose validated fields parses to NaN, the
    validation passes exactly when a symbol is selected and the parsed
    account balance, entry price, stop pips and pip value are positive and
    the risk percent is in (0, 100]; it then stores no error and the submit
    handler passes the form on. *)
Theorem X13_validation_exact_without_NaN (settings : AppSettings Q)
    (formData : CalculatorFormState) :
  no_NaN formData ->
  (snd (validateForm settings formData) = true
   <-> active_symbol settings <> "" /\ in_domain (handleCalculate settings formData))
  /\ (snd (validateForm settings formData) = true ->
      validateForm settings formData = (no_errors, true)
      /\ handleSubmit settings formData
         = [PreventDefault; SetErrors no_errors; OnCalculate formData]).
Proof.
  intros Hnan.
  assert (Hiff : snd (validateForm settings formData) = true
                 <-> active_symbol settings <> ""
                     /\ in_domain (handleCalculate settings formData)).
  { split.
    - apply validateForm_sound_without_NaN, Hnan.
    - intros [Hsym Hdom]. rewrite (validateForm_complete _ _ Hsym Hdom). reflexivity. }
  split; [exact Hiff|]. intros Hpass. apply Hiff in Hpass as [Hsym Hdom].
  pose proof (validateForm_complete _ _ Hsym Hdom) as Hv.
  split; [exact Hv|]. unfold handleSubmit. rewrite Hv. reflexivity.
Qed.

Lemma X13_validation_exact_without_NaN_witness :
  snd (validateForm eurusd_settings (form_with_balance "10000")) = true
  <-> active_symbol eurusd_settings <> ""
      /\ in_domain (handleCalculate eurusd_settings (form_with_balance "10000")).
Proof.
  apply (X13_validation_exact_without_NaN eurusd_settings (form_with_balance "10000")).
  repeat split; vm_compute; discriminate.
Defined.

(** ** The symbol defaults *)

Lemma upper_ascii_idempotent (c : ascii) : upper_ascii (upper_ascii c) = upper_ascii c.
Proof.
  destruct c as [[] [] [] [] [] [] [] []]; vm_compute; reflexivity.
Qed.

Lemma toUpperCase_idempotent (s : string) : toUpperCase (toUpperCase s) = toUpperCase s.
Proof.
  induction s as [|c s IH]; cbn [toUpperCase]; [reflexivity|].
  rewrite upper_ascii_idempotent, IH. reflexivity.
Qed.

Lemma toUpperCase_app (s s' : string) :
  toUpperCase (s ++ s') = (toUpperCase s ++ toUpperCase s')%string.
Proof.
  induction s as [|c s IH]; [reflexivity|].
  change (toUpperCase (String c s ++ s'))
    with (String (upper_ascii c) (toUpperCase (s ++ s'))).
  rewrite IH. reflexivity.
Qed.

(** The defaults of every symbol come from one of the three tables. *)
Lemma getSymbolDefaults_cases (symbol : string) :
  getSymbolDefaults symbol = FOREX_DEFAULTS
  \/ In (getSymbolDefaults symbol) (List.map snd SYMBOL_DEFAULTS).
Proof.
  unfold getSymbolDefaults.
  destruct (List.find (fun kv => String.eqb (fst kv) (toUpperCase symbol)) SYMBOL_DEFAULTS)
    as [kv|] eqn:Hexact.
  - right. apply find_some in Hexact as [Hin _]. apply in_map, Hin.
  - destruct (List.find (fun kv => String.prefix (fst kv) (toUpperCase symbol))
                        SYMBOL_DEFAULTS) as [kv|] eqn:Hprefix.
    + right. apply find_some in Hprefix as [Hin _]. apply in_map, Hin.
    + left. reflexivity.
Qed.

(** X14. For every symbol the defaults are case-insensitive in the symbol;
    the default stop never exceeds the symbol's maximum stop; take profit and
    stop are in the ratio 3 : 5; and both are values that isDefaultValue
    recognizes as untouched defaults. A symbol that starts with XAUUSD or
    BTCUSD in any letter case, whatever follows, gets that symbol's table. *)
Theorem X14_symbol_defaults (symbol suffix : string) :
  getSymbolDefaults (toUpperCase symbol) = getSymbolDefaults symbol
  /\ (sd_stop_loss_pips (getSymbolDefaults symbol)
      <= sd_max_stop_pips (getSymbolDefaults symbol))%Q
  /\ (5 * sd_take_profit_pips (getSymbolDefaults symbol)
      == 3 * sd_stop_loss_pips (getSymbolDefaults symbol))%Q
  /\ isDefaultValue (Finite (sd_stop_loss_pips (getSymbolDefaults symbol))) = true
  /\ isDefaultValue (Finite (sd_take_profit_pips (getSymbolDefaults symbol))) = true
  /\ sd_max_stop_pips (getSymbolDefaults ("xauusd" ++ suffix)) = 50%Q
  /\ sd_max_stop_pips (getSymbolDefaults ("BtcUsd" ++ suffix)) = 1000%Q.
Proof.
  split.
  { unfold getSymbolDefaults. rewrite toUpperCase_idempotent. reflexivity. }
  assert (Hcases : forall d, d = FOREX_DEFAULTS \/ In d (List.map snd SYMBOL_DEFAULTS) ->
             (sd_stop_loss_pips d <= sd_max_stop_pips d)%Q
             /\ (5 * sd_take_profit_pips d == 3 * sd_stop_loss_pips d)%Q
             /\ isDefaultValue (Finite (sd_stop_loss_pips d)) = true
             /\ isDefaultValue (Finite (sd_take_profit_pips d)) = true).
  { intros d [-> | [<- | [<- | []]]]; vm_compute; repeat split; discriminate. }
  destruct (Hcases _ (getSymbolDefaults_cases symbol)) as (H1 & H2 & H3 & H4).
  repeat (split; [assumption|]).
  split.
  - unfold getSymbolDefaults. rewrite toUpperCase_app.
    change (toUpperCase "xauusd") with "XAUUSD". cbn.
    destruct (toUpperCase suffix); reflexivity.
  - unfold getSymbolDefaults. rewrite toUpperCase_app.
    change (toUpperCase "BtcUsd") with "BTCUSD". cbn.
    destruct (toUpperCase suffix); reflexivity.
Qed.

(** ** The percent input *)

Section DisplayBounds.
Local Open Scope Q_scope.

Lemma Q_is_nan (x : Q) : is_nan x = false.
Proof.
  unfold is_nan. apply negb_false_iff, Q_leb_true, Qle_refl.
Qed.

(** In exact arithmetic [Math.max] and [Math.min] are the larger and the
    smaller argument. *)
Lemma Q_Math_max (a b : Q) :
  a <= Math_max a b /\ b <= Math_max a b /\ (Math_max a b = a \/ Math_max a b = b).
Proof.
  unfold Math_max. rewrite !Q_is_nan. destruct (a <? b)%num eqn:Hlt.
  - apply Q_ltb_true in Hlt. repeat split; [lra | lra | right; reflexivity].
  - apply Q_ltb_false in Hlt. repeat split; [lra | lra | left; reflexivity].
Qed.

Lemma Q_Math_min (a b : Q) :
  Math_min a b <= a /\ Math_min a b <= b /\ (Math_min a b = a \/ Math_min a b = b).
Proof.
  unfold Math_min. rewrite !Q_is_nan. destruct (b <? a)%num eqn:Hlt.
  - apply Q_ltb_true in Hlt. repeat split; [lra | lra | right; reflexivity].
  - apply Q_ltb_false in Hlt. repeat split; [lra | lra | left; reflexivity].
Qed.

(** X19. Whatever is typed into the percent input, the percent of the panel
    stays within [1, 100] once it is there: a finite value is clamped into
    [1, 100], anything else leaves the percent unchanged. A percent in that
    range meets the (0, 100] that the precheck expects (exact arithmetic). *)
Theorem X19_percent_stays_in_range (v : parsed) (partialPercentLocal : Q) :
  1 <= partialPercentLocal <= 100 ->
  1 <= onPercentChange v partialPercentLocal <= 100
  /\ match v with
     | Finite q => 1 <= q <= 100 -> onPercentChange v partialPercentLocal == q
     | _ => onPercentChange v partialPercentLocal = partialPercentLocal
     end.
Proof.
  intros Hrange. destruct v as [|negative|q]; cbn [onPercentChange].
  - split; [exact Hrange | reflexivity].
  - split; [exact Hrange | reflexivity].
  - destruct (Q_Math_min 100 q) as (Hmin1 & Hmin2 & Hmin).
    destruct (Q_Math_max 1 (Math_min 100 q)) as (Hmax1 & Hmax2 & Hmax).
    split.
    + split; [exact Hmax1|]. destruct Hmax as [-> | ->]; lra.
    + intros [Hlo Hhi]. destruct Hmax as [Hmax | Hmax], Hmin as [Hmin | Hmin];
        rewrite Hmax in *; rewrite ?Hmin in *; lra.
Qed.

Lemma X19_percent_stays_in_range_witness :
  1 <= onPercentChange (Finite 250) 50 <= 100.
Proof.
  apply (X19_percent_stays_in_range (Finite 250) 50). split; discriminate.
Defined.

End DisplayBounds.

(** ** The hint after a refused partial close *)

(** X20. When a refused partial close does not report the remaining volume,
    the box computes it from the position: it is never negative, and it is
    the position's volume minus the reported close volume (0 when that is
    missing too) whenever this difference is not negative; the broker
    minimum and step fall back to the position's (exact arithmetic). *)
Theorem X20_hint_falls_back_to_position (position : PositionInfo Q)
    (res : PartialCloseResponse Q) :
  remaining_volume res = None ->
  exists hint, applyTp1HintFromPartialClose (Some position) res = Some hint
    /\ (0 <= hint_remaining hint)%Q
    /\ ((0 <= pos_volume position - or_default (close_volume res) 0%Q)%Q ->
        (hint_remaining hint == pos_volume position - or_default (close_volume res) 0%Q)%Q)
    /\ (volume_min res = None -> hint_min hint = pos_volume_min position)
    /\ (volume_step res = None -> hint_step hint = pos_volume_step position).
Proof.
  intros Hrem. eexists. split; [reflexivity|]. cbn [hint_remaining hint_min hint_step].
  rewrite Hrem. cbn [or_default of_Q Q_Number nsub].
  destruct (Q_Math_max 0 (pos_volume position - or_default (close_volume res) 0%Q))
    as (H0 & Hd & Hcases).
  split; [exact H0|]. split.
  - intros Hnn. destruct Hcases as [Hc | Hc]; rewrite Hc in *; [lra | reflexivity].
  - split; intros ->; reflexivity.
Qed.

Lemma X20_hint_falls_back_to_position_witness :
  exists hint,
    applyTp1HintFromPartialClose
      (Some (sample_position (num := Q) buy 0.10 1.1 5 0.0001 0.01 0.01)) refused_response
    = Some hint
    /\ (0 <= hint_remaining hint)%Q.
Proof.
  destruct (X20_hint_falls_back_to_position
              (sample_position buy 0.10 1.1 5 0.0001 0.01 0.01) refused_response eq_refl)
    as (hint & Hh & H0 & _).
  exists hint. split; [exact Hh | exact H0].
Defined.

(** ** The Symbols panel feeds the execute handler *)

Section SymbolsPanelProperties.
Local Open Scope Q_scope.

Lemma fallback_pip_size_cases (name : string) :
  fallback_pip_size (num := Q) name = 1.0 \/ fallback_pip_size (num := Q) name = 0.1
  \/ fallback_pip_size (num := Q) name = 0.01 \/ fallback_pip_size (num := Q) name = 0.0001.
Proof.
  unfold fallback_pip_size.
  destruct (test_ci _ name); [left; reflexivity|].
  destruct (test_ci _ name); [right; left; reflexivity|].
  destruct (test_ci _ name); [right; right; left; reflexivity|].
  right; right; right; reflexivity.
Qed.

(** X21. Without pip values from the server the fallback gives a pip size
    of 1, 0.1, 0.01 or 0.0001 - never zero or negative - and a pip value of
    contract size times pip size (contract size 1 when it is missing); a
    crypto tag in the name wins over a gold or JPY tag, in any letter case.
    With both values from the server they are passed on unchanged (exact
    arithmetic). *)
Theorem X21_fallback_pip_values (s : SymbolRow Q) :
  match row_pip_size s, row_pip_value_per_lot s with
  | Some pip_size, Some pip_value => getPipValues s = (pip_size, pip_value)
  | _, _ =>
      0 < fst (getPipValues s)
      /\ In (fst (getPipValues s)) [1.0; 0.1; 0.01; 0.0001]
      /\ snd (getPipValues s)
         = or_default (row_trade_contract_size s) 1 * fst (getPipValues s)
      /\ (test_ci ["BTC"; "XBT"; "ETH"; "LTC"; "XRP"] (row_name s) = true ->
          fst (getPipValues s) = 1.0)
  end
  /\ fallback_pip_size (num := Q) "XAUUSD.m" = 0.1
  /\ fallback_pip_size (num := Q) "btcjpy" = 1.0
  /\ fallback_pip_size (num := Q) "UsdJpy" = 0.01
  /\ fallback_pip_size (num := Q) "EURUSD" = 0.0001.
Proof.
  split; [|repeat split].
  assert (Hfallback :
            0 < fallback_pip_size (row_name s)
            /\ In (fallback_pip_size (row_name s)) [1.0; 0.1; 0.01; 0.0001]
            /\ (test_ci ["BTC"; "XBT"; "ETH"; "LTC"; "XRP"] (row_name s) = true ->
                fallback_pip_size (num := Q) (row_name s) = 1.0)).
  { split; [|split].
    - destruct (fallback_pip_size_cases (row_name s)) as [-> | [-> | [-> | ->]]]; reflexivity.
    - destruct (fallback_pip_size_cases (row_name s)) as [-> | [-> | [-> | ->]]]; cbn; tauto.
    - intros Ht. unfold fallback_pip_size. rewrite Ht. reflexivity. }
  destruct Hfallback as (Hpos & Hin & Hcrypto).
  unfold getPipValues.
  destruct (row_pip_size s), (row_pip_value_per_lot s); cbn [fst snd];
    try reflexivity; repeat split; assumption.
Qed.

(** The pip size that [getPipValues] returns is positive when the server's,
    if given, is. *)
Lemma getPipValues_positive (s : SymbolRow Q) :
  (forall pip_size, row_pip_size s = Some pip_size -> 0 < pip_size) ->
  0 < fst (getPipValues s).
Proof.
  intros Hserver. pose proof (fallback_pip_size_cases (row_name s)) as Hcases.
  unfold getPipValues.
  destruct (row_pip_size s) as [ps|] eqn:Hps, (row_pip_value_per_lot s); cbn [fst];
    try (apply Hserver; reflexivity);
    destruct Hcases as [-> | [-> | [-> | ->]]]; reflexivity.
Qed.

(** X22. After the selected rows are applied: the presets are the selected
    rows, one each, in their order; the active symbol is kept exactly when
    one of the new presets carries it and is cleared otherwise, so a selected
    symbol always has a preset; and when no selected row carries a
    non-positive pip size from the server, the execute handler's pip size is
    positive for every symbol (exact arithmetic). *)
Theorem X22_applySelected (chosen : list (SymbolRow Q)) (settings : AppSettings Q) :
  chosen <> [] ->
  let settings' := applySelected chosen settings in
  List.map sp_symbol (symbol_presets settings') = List.map row_name chosen
  /\ (active_symbol settings' = active_symbol settings
      /\ In (active_symbol settings) (List.map row_name chosen)
      \/ active_symbol settings' = ""
         /\ ~ In (active_symbol settings) (List.map row_name chosen))
  /\ (active_symbol settings' <> "" ->
      exists p, List.find (fun p => String.eqb (sp_symbol p) (active_symbol settings'))
                          (symbol_presets settings') = Some p)
  /\ ((forall s pip_size, In s chosen -> row_pip_size s = Some pip_size -> 0 < pip_size) ->
      forall symbol, 0 < pipSize_of settings' symbol).
Proof.
  intros Hne. cbv zeta. unfold applySelected.
  destruct chosen as [|s0 chosen']; [contradiction|].
  set (chosen := s0 :: chosen') in *.
  cbn [symbol_presets active_symbol].
  set (presets := List.map _ chosen).
  assert (Hnames : List.map sp_symbol presets = List.map row_name chosen).
  { unfold presets. rewrite List.map_map. reflexivity. }
  assert (Hvalid : existsb (fun p => String.eqb (sp_symbol p) (active_symbol settings)) presets
                   = true <-> In (active_symbol settings) (List.map row_name chosen)).
  { rewrite <- Hnames, existsb_exists, in_map_iff. split.
    - intros (p & Hp & Heq). apply String.eqb_eq in Heq. exists p. split; assumption.
    - intros (p & Heq & Hp). exists p. split; [exact Hp | apply String.eqb_eq, Heq]. }
  split; [exact Hnames|]. split; [|split].
  - destruct (existsb _ presets) eqn:Hex.
    + left. split; [reflexivity | apply Hvalid; reflexivity].
    + right. split; [reflexivity|]. intros Hin. apply Hvalid in Hin. discriminate.
  - destruct (existsb _ presets) eqn:Hex; [|intros Hc; contradiction].
    intros _. apply existsb_exists in Hex as (p & Hp & Heq).
    destruct (List.find _ presets) as [q|] eqn:Hfind; [exists q; reflexivity|].
    pose proof (find_none _ _ Hfind p Hp) as Hnone. cbn in Hnone. congruence.
  - intros Hserver symbol. unfold pipSize_of. cbn [symbol_presets].
    destruct (List.find _ presets) as [p|] eqn:Hfind; [|reflexivity].
    apply find_some in Hfind as [Hp _]. unfold presets in Hp.
    apply in_map_iff in Hp as (s & <- & Hs). cbn [sp_pip_size].
    assert (Hpos : 0 < fst (getPipValues s))
      by (apply getPipValues_positive; intros ps Hps; exact (Hserver s ps Hs Hps)).
    destruct (truthy (fst (getPipValues s))); [exact Hpos | reflexivity].
Qed.

Lemma X22_applySelected_witness :
  active_symbol (applySelected sample_rows eurusd_settings) = ""
  /\ forall symbol, 0 < pipSize_of (applySelected sample_rows eurusd_settings) symbol.
Proof.
  assert (Hne : sample_rows <> []) by discriminate.
  destruct (X22_applySelected sample_rows eurusd_settings Hne) as (_ & _ & _ & Hpip).
  split; [reflexivity|].
  apply Hpip. intros s pip_size [<- | [<- | []]] Hs; inversion Hs; reflexivity.
Defined.

End SymbolsPanelProperties.
